(** * Comments plugin, common services (server/services/common.js)

    A shallow embedding of the service object exported by
    [server/services/common.js] and the properties of it that the
    specification states.

    - JavaScript values are the inductive [JsVal]; objects are association
      lists in the order [Object.keys] and [Object.entries] enumerate the
      keys in: array indices first, in ascending order, then the other keys
      in the order they were added.  [assign] adds a key last, which is where
      a key that is no array index goes; [define] places any key.
    - JavaScript numbers are [JsNum]: the integers, [NaN] and the two
      infinities.  Integer arithmetic is exact (as it is in JavaScript up to
      2^53); fractions and the sign of zero are not represented.
    - An [async] function is a computation in the monad [M]: it threads the
      state of the outside world and the log of the store calls made so far,
      and ends as a promise does: [Resolved], [Rejected] or still [Pending].
    - [Promise.all] over a mapped array runs the callbacks in array order, one
      after the other: how the event loop interleaves them is not modelled.
    - Strings are sequences of 8-bit characters.
    - lodash [set] is modelled on objects and on arrays that stay dense, as
      far as own properties go; what it does with a path that leads through
      a member an object only inherits, or that gives an array a hole or a
      property that is no index, is left open ([set_elsewhere]). *)

From Stdlib Require Import ZArith List String Ascii Bool Lia Sorted.
From Stdlib Require Import DecimalString DecimalPos DecimalN.
Import ListNotations.

Set Warnings "-register-all".

Local Open Scope string_scope.
Local Open Scope list_scope.

(** ** JavaScript numbers *)

Inductive JsNum : Type :=
| Fin (z : Z)
| NaN
| Inf (negative : bool).

Definition JsNum_eqb (a b : JsNum) : bool :=
  match a, b with
  | Fin x, Fin y => Z.eqb x y
  | NaN, NaN => true
  | Inf s, Inf t => Bool.eqb s t
  | _, _ => false
  end.

(** [a === b] on numbers: [NaN] differs from everything, itself included. *)
Definition num_strict_eq (a b : JsNum) : bool :=
  match a, b with
  | Fin x, Fin y => Z.eqb x y
  | Inf s, Inf t => Bool.eqb s t
  | _, _ => false
  end.

Definition num_add (a b : JsNum) : JsNum :=
  match a, b with
  | NaN, _ | _, NaN => NaN
  | Fin x, Fin y => Fin (x + y)
  | Inf s, Fin _ => Inf s
  | Fin _, Inf t => Inf t
  | Inf s, Inf t => if Bool.eqb s t then Inf s else NaN
  end.

Definition num_sub (a b : JsNum) : JsNum :=
  match a, b with
  | NaN, _ | _, NaN => NaN
  | Fin x, Fin y => Fin (x - y)
  | Inf s, Fin _ => Inf s
  | Fin _, Inf t => Inf (negb t)
  | Inf s, Inf t => if Bool.eqb s t then NaN else Inf s
  end.

Definition num_mul (a b : JsNum) : JsNum :=
  match a, b with
  | NaN, _ | _, NaN => NaN
  | Fin x, Fin y => Fin (x * y)
  | Inf s, Fin y => if Z.eqb y 0 then NaN else Inf (xorb s (Z.ltb y 0))
  | Fin x, Inf t => if Z.eqb x 0 then NaN else Inf (xorb t (Z.ltb x 0))
  | Inf s, Inf t => Inf (xorb s t)
  end.

(** [Math.floor(a / b)]: the quotient is floored at once, so the result stays
    within [JsNum]. *)
Definition num_floor_div (a b : JsNum) : JsNum :=
  match a, b with
  | NaN, _ | _, NaN => NaN
  | Fin x, Fin y =>
      if Z.eqb y 0
      then (if Z.eqb x 0 then NaN else Inf (Z.ltb x 0))
      else Fin (Z.div x y)
  | Fin _, Inf _ => Fin 0
  | Inf s, Fin y => Inf (xorb s (Z.ltb y 0))
  | Inf _, Inf _ => NaN
  end.

(** [a % b]: the remainder takes the sign of the dividend. *)
Definition num_rem (a b : JsNum) : JsNum :=
  match a, b with
  | NaN, _ | _, NaN => NaN
  | Fin x, Fin y => if Z.eqb y 0 then NaN else Fin (Z.rem x y)
  | Fin x, Inf _ => Fin x
  | Inf _, _ => NaN
  end.

(** ** JavaScript values *)

Inductive JsVal : Type :=
| VUndefined
| VNull
| VBool (b : bool)
| VNum (n : JsNum)
| VStr (s : string)
| VArr (l : list JsVal)
| VObj (o : list (string * JsVal)).

(** An object: its own enumerable string-keyed properties, in insertion
    order. *)
Definition Obj : Type := list (string * JsVal).

Definition truthy (v : JsVal) : bool :=
  match v with
  | VUndefined | VNull => false
  | VBool b => b
  | VNum (Fin z) => negb (Z.eqb z 0)
  | VNum NaN => false
  | VNum (Inf _) => true
  | VStr s => negb (String.eqb s "")
  | VArr _ | VObj _ => true
  end.

(** [a === b] for primitive operands.  Two object operands are equal only
    when they are the same reference; the model has no references and answers
    [false] for them. *)
Definition strict_eq (a b : JsVal) : bool :=
  match a, b with
  | VUndefined, VUndefined => true
  | VNull, VNull => true
  | VBool x, VBool y => Bool.eqb x y
  | VNum x, VNum y => num_strict_eq x y
  | VStr x, VStr y => String.eqb x y
  | _, _ => false
  end.

(** The comparison [Set] uses for its elements (SameValueZero), on
    primitives: like [===] except that [NaN] equals [NaN]. *)
Definition same_value_zero (a b : JsVal) : bool :=
  match a, b with
  | VNum x, VNum y => JsNum_eqb x y
  | _, _ => strict_eq a b
  end.

(** *** Objects *)

Fixpoint lookup (k : string) (o : Obj) : option JsVal :=
  match o with
  | [] => None
  | (k', v) :: rest => if String.eqb k k' then Some v else lookup k rest
  end.

Definition has (k : string) (o : Obj) : bool :=
  match lookup k o with Some _ => true | None => false end.

(** [o[k] = v]: an existing key keeps its place, a new one goes last. *)
Fixpoint assign (k : string) (v : JsVal) (o : Obj) : Obj :=
  match o with
  | [] => [(k, v)]
  | (k', v') :: rest =>
      if String.eqb k k' then (k', v) :: rest else (k', v') :: assign k v rest
  end.

(** [{ ...a, ...b }] *)
Definition spread (a b : Obj) : Obj :=
  fold_left (fun acc kv => assign (fst kv) (snd kv) acc) b a.

Definition keys (o : Obj) : list string := map fst o.

(** [v.k] and [v[k]] where [v] is not [null] or [undefined]: a property that
    is not there reads as [undefined]. *)
Definition prop (v : JsVal) (k : string) : JsVal :=
  match v with
  | VObj o => match lookup k o with Some x => x | None => VUndefined end
  | _ => VUndefined
  end.

Definition oprop (o : Obj) (k : string) : JsVal := prop (VObj o) k.

(** [a || b] *)
Definition js_or (a b : JsVal) : JsVal := if truthy a then a else b.

(** [a && b] *)
Definition js_and (a b : JsVal) : JsVal := if truthy a then b else a.

(** ** Numbers and strings *)

Definition string_of_Z (z : Z) : string :=
  NilZero.string_of_int (Z.to_int z).

(** Number to string; the decimal form is the one JavaScript prints for
    integers below 1e21. *)
Definition string_of_num (n : JsNum) : string :=
  match n with
  | Fin z => string_of_Z z
  | NaN => "NaN"
  | Inf false => "Infinity"
  | Inf true => "-Infinity"
  end.

Fixpoint join (sep : string) (l : list string) : string :=
  match l with
  | [] => ""
  | [x] => x
  | x :: rest => x ++ sep ++ join sep rest
  end.

(** The language's own conversion to string, as a template literal
    [`${v}`] applies it. *)
Fixpoint js_ToString (v : JsVal) : string :=
  match v with
  | VUndefined => "undefined"
  | VNull => "null"
  | VBool true => "true"
  | VBool false => "false"
  | VNum n => string_of_num n
  | VStr s => s
  | VArr l =>
      join "," (map (fun x => match x with
                              | VUndefined | VNull => ""
                              | _ => js_ToString x
                              end) l)
  | VObj _ => "[object Object]"
  end.

(** [l.join(sep)] on an array. *)
Definition array_join (sep : string) (l : list JsVal) : string :=
  join sep (map (fun x => match x with
                          | VUndefined | VNull => ""
                          | _ => js_ToString x
                          end) l).

(** lodash [baseToString]: a string as it is, an array by converting its
    elements in turn and joining them with commas, anything else as the
    language converts it. *)
Fixpoint baseToString (v : JsVal) : string :=
  match v with
  | VArr l => join "," (map baseToString l)
  | _ => js_ToString v
  end.

(** lodash [toString]: the empty string for [null] and [undefined]. *)
Definition lodash_toString (v : JsVal) : string :=
  match v with
  | VUndefined | VNull => ""
  | _ => baseToString v
  end.

(** *** parseInt *)

Definition is_space (c : ascii) : bool :=
  let n := N_of_ascii c in
  (N.eqb n 32 || (N.leb 9 n && N.leb n 13))%bool.

Fixpoint trim_start (s : string) : string :=
  match s with
  | String c rest => if is_space c then trim_start rest else s
  | EmptyString => s
  end.

(** The value of [c] as a digit of the given radix. *)
Definition digit_of (radix : Z) (c : ascii) : option Z :=
  let n := Z.of_N (N_of_ascii c) in
  let v :=
    if (Z.leb 48 n && Z.leb n 57)%bool then Some (n - 48)%Z
    else if (Z.leb 97 n && Z.leb n 122)%bool then Some (n - 87)%Z
    else if (Z.leb 65 n && Z.leb n 90)%bool then Some (n - 55)%Z
    else None in
  match v with
  | Some d => if Z.ltb d radix then Some d else None
  | None => None
  end.

(** Reads the longest prefix of digits; [acc] is [None] until a digit has
    been read. *)
Fixpoint digits (radix : Z) (s : string) (acc : option Z) : option Z :=
  match s with
  | EmptyString => acc
  | String c rest =>
      match digit_of radix c with
      | Some d =>
          digits radix rest
            (Some (radix * match acc with Some a => a | None => 0 end + d)%Z)
      | None => acc
      end
  end.

Definition strip_sign (s : string) : bool * string :=
  match s with
  | String "-" rest => (true, rest)
  | String "+" rest => (false, rest)
  | _ => (false, s)
  end.

Definition strip_hex_prefix (s : string) : Z * string :=
  match s with
  | String "0" (String "x" rest) => (16%Z, rest)
  | String "0" (String "X" rest) => (16%Z, rest)
  | _ => (10%Z, s)
  end.

(** The built-in [parseInt(s, 0)]: leading white space, an optional sign, an
    optional [0x], then as many digits as there are; [NaN] when there is
    none. *)
Definition native_parseInt (s : string) : JsNum :=
  let (negative, s1) := strip_sign (trim_start s) in
  let (radix, s2) := strip_hex_prefix s1 in
  match digits radix s2 None with
  | Some n => Fin (if negative then - n else n)%Z
  | None => NaN
  end.

(** lodash [parseInt(value)], called with one argument. *)
Definition parseInt (v : JsVal) : JsNum :=
  native_parseInt (trim_start (lodash_toString v)).

(** lodash [isNumber]: [typeof value == 'number'], which [NaN] satisfies. *)
Definition isNumber (v : JsVal) : bool :=
  match v with VNum _ => true | _ => false end.

Definition isString (v : JsVal) : bool :=
  match v with VStr _ => true | _ => false end.

Definition isArray (v : JsVal) : bool :=
  match v with VArr _ => true | _ => false end.

Definition isObject (v : JsVal) : bool :=
  match v with VArr _ | VObj _ => true | _ => false end.

Definition isNil (v : JsVal) : bool :=
  match v with VUndefined | VNull => true | _ => false end.

(** lodash [isEmpty] on an object. *)
Definition isEmpty (o : Obj) : bool :=
  match o with [] => true | _ => false end.

(** lodash [first]. *)
Definition first (l : list Obj) : JsVal :=
  match l with [] => VUndefined | x :: _ => VObj x end.

Definition dflt (v d : JsVal) : JsVal :=
  match v with VUndefined => d | _ => v end.

(** [a > 0] for a number [a]. *)
Definition num_positive (a : JsNum) : bool :=
  match a with
  | Fin z => Z.ltb 0 z
  | NaN => false
  | Inf negative => negb negative
  end.

(** [s.split(c)] for a one-character separator: never the empty array. *)
Fixpoint split_on (c : ascii) (s : string) : list string :=
  match s with
  | EmptyString => [EmptyString]
  | String a rest =>
      if Ascii.eqb a c then EmptyString :: split_on c rest
      else match split_on c rest with
           | [] => [String a EmptyString]
           | w :: ws => String a w :: ws
           end
  end.

Fixpoint is_prefix (p s : string) : bool :=
  match p, s with
  | EmptyString, _ => true
  | String a p', String b s' => (Ascii.eqb a b && is_prefix p' s')%bool
  | String _ _, EmptyString => false
  end.

(** [s.includes(p)] on strings. *)
Fixpoint is_substring (p s : string) : bool :=
  (is_prefix p s ||
   match s with
   | EmptyString => false
   | String _ s' => is_substring p s'
   end)%bool.

(** *** Property keys and the order of own properties *)

Definition is_digit (c : ascii) : bool :=
  let n := N_of_ascii c in (N.leb 48 n && N.leb n 57)%bool.

Fixpoint all_chars (p : ascii -> bool) (s : string) : bool :=
  match s with
  | EmptyString => true
  | String c rest => (p c && all_chars p rest)%bool
  end.

(** lodash [reIsUint]: the decimal form of a natural number, that is [0]
    alone or digits that do not start with [0]. *)
Definition canonical_uint (s : string) : bool :=
  match s with
  | EmptyString => false
  | String "0" rest => match rest with EmptyString => true | _ => false end
  | String c rest => (is_digit c && all_chars is_digit rest)%bool
  end.

Definition uint_of (s : string) : Z :=
  match digits 10 s None with Some n => n | None => 0%Z end.

(** A key that is an array index: the canonical form of an integer from 0
    to 2^32 - 2. *)
Definition array_index (k : string) : option Z :=
  if (canonical_uint k && Z.leb (uint_of k) 4294967294)%bool
  then Some (uint_of k)
  else None.

(** lodash [isIndex(value)] for a string, no length given: the canonical
    form of an integer below [MAX_SAFE_INTEGER]. *)
Definition isIndex (k : string) : bool :=
  (canonical_uint k && Z.ltb (uint_of k) 9007199254740991)%bool.

(** Where a new array index [i] goes among the keys: before the first key
    that is a greater index or no index at all. *)
Fixpoint insert_index (i : Z) (k : string) (v : JsVal) (o : Obj) : Obj :=
  match o with
  | [] => [(k, v)]
  | (k', v') :: rest =>
      match array_index k' with
      | Some j =>
          if Z.ltb i j then (k, v) :: o
          else (k', v') :: insert_index i k v rest
      | None => (k, v) :: o
      end
  end.

(** [o[k] = v] for any key: an existing key keeps its place; a new array
    index goes among the indices, in ascending order; any other new key goes
    last. *)
Definition define (k : string) (v : JsVal) (o : Obj) : Obj :=
  match array_index k with
  | Some i => if has k o then assign k v o else insert_index i k v o
  | None => assign k v o
  end.

(** The names every ordinary object inherits from [Object.prototype]
    ([Object.getOwnPropertyNames(Object.prototype)] on Node.js). *)
Definition Object_prototype : list string :=
  ["constructor"; "__defineGetter__"; "__defineSetter__"; "hasOwnProperty";
   "__lookupGetter__"; "__lookupSetter__"; "isPrototypeOf";
   "propertyIsEnumerable"; "toString"; "valueOf"; "__proto__";
   "toLocaleString"].

Definition inherited (k : string) : bool :=
  existsb (String.eqb k) Object_prototype.

(** What [o[k]] finds on an ordinary object: an own property, a member of
    [Object.prototype] (a function, or for [__proto__] the prototype
    itself), or nothing. *)
Inductive Member : Type :=
| Own (v : JsVal)
| Inherited
| Absent.

Definition member (o : Obj) (k : string) : Member :=
  match lookup k o with
  | Some v => Own v
  | None => if inherited k then Inherited else Absent
  end.

(** *** lodash [set] *)

Definition is_word (c : ascii) : bool :=
  let n := N_of_ascii c in
  ((N.leb 48 n && N.leb n 57) || (N.leb 65 n && N.leb n 90)
   || (N.leb 97 n && N.leb n 122) || N.eqb n 95)%bool.

Fixpoint contains_char (c : ascii) (s : string) : bool :=
  match s with
  | EmptyString => false
  | String a rest => (Ascii.eqb a c || contains_char c rest)%bool
  end.

(** [reIsPlainProp = /^\w*$/] *)
Definition reIsPlainProp (s : string) : bool := all_chars is_word s.

(** An opening bracket with a closing bracket somewhere after it. *)
Fixpoint bracket_pair (s : string) : bool :=
  match s with
  | EmptyString => false
  | String c rest =>
      ((Ascii.eqb c "[" && contains_char "]" rest) || bracket_pair rest)%bool
  end.

(** [reIsDeepProp = /\.|\[(?:[^[\]]*|([Q'])(?:(?!\1)[^\\]|\\.)*?\1)\]/]
    (Q for the double quote) finds a dot, or a bracket group.  Where an
    opening bracket has a closing one after it, the first closing bracket
    after it and the last opening bracket before that one have no bracket
    between them, which is a group of the first kind; so the test is for a
    dot or such a pair. *)
Definition reIsDeepProp (s : string) : bool :=
  (contains_char "." s || bracket_pair s)%bool.

(** lodash [isKey(value, object)] for a string: a property name rather than
    a path.  ([value in Object(object)] also finds inherited members, whose
    names are plain already.) *)
Definition isKey (value : string) (object : Obj) : bool :=
  (reIsPlainProp value || negb (reIsDeepProp value) || has value object)%bool.

Definition is_path_special (c : ascii) : bool :=
  (Ascii.eqb c "." || Ascii.eqb c "[" || Ascii.eqb c "]")%bool.

(** [[^.[\]]+]: the longest run of characters that are none of [.], [[] and
    []], and what follows it. *)
Fixpoint take_name (s : string) : string * string :=
  match s with
  | EmptyString => (EmptyString, EmptyString)
  | String c rest =>
      if is_path_special c then (EmptyString, s)
      else let (name, after) := take_name rest in (String c name, after)
  end.

(** [\d+], as far as it goes, and what follows it. *)
Fixpoint take_digits (s : string) : string * string :=
  match s with
  | EmptyString => (EmptyString, EmptyString)
  | String c rest =>
      if is_digit c
      then let (ds, after) := take_digits rest in (String c ds, after)
      else (EmptyString, s)
  end.

(** After an opening bracket, [(-?\d+(?:\.\d+)?)\]]: the number as it is
    written, and what follows the closing bracket. *)
Definition bracket_number (s : string) : option (string * string) :=
  let (sign, s1) :=
    match s with
    | String "-" rest => ("-", rest)
    | _ => ("", s)
    end in
  let (whole, s2) := take_digits s1 in
  match whole with
  | EmptyString => None
  | _ =>
      match s2 with
      | String "]" after => Some ((sign ++ whole)%string, after)
      | String "." s3 =>
          let (fraction, s4) := take_digits s3 in
          match fraction, s4 with
          | String _ _, String "]" after =>
              Some ((sign ++ whole ++ "." ++ fraction)%string, after)
          | _, _ => None
          end
      | _ => None
      end
  end.

Definition double_quote : ascii := ascii_of_N 34.

(** A line terminator, which [.] does not match. *)
Definition is_line_terminator (c : ascii) : bool :=
  let n := N_of_ascii c in (N.eqb n 10 || N.eqb n 13)%bool.

(** After an opening bracket and the quote [q],
    [((?:(?!q)[^\\]|\\.)*?)q\]]: the text between the quotes, and what
    follows the closing bracket.  A character other than the quote and the
    backslash stands for itself, a backslash takes the character after it
    along; the first quote met that way has to close the group. *)
Fixpoint bracket_quoted (q : ascii) (s : string) : option (string * string) :=
  match s with
  | EmptyString => None
  | String c rest =>
      if Ascii.eqb c q
      then match rest with
           | String "]" after => Some (EmptyString, after)
           | _ => None
           end
      else if Ascii.eqb c "\"
      then match rest with
           | String d rest' =>
               if is_line_terminator d then None
               else match bracket_quoted q rest' with
                    | Some (text, after) => Some (String c (String d text), after)
                    | None => None
                    end
           | EmptyString => None
           end
      else match bracket_quoted q rest with
           | Some (text, after) => Some (String c text, after)
           | None => None
           end
  end.

(** [subString.replace(/\\(\\)?/g, '$1')]: a backslash goes, unless it
    follows a backslash that went. *)
Fixpoint unescape (s : string) : string :=
  match s with
  | EmptyString => EmptyString
  | String "\" rest =>
      match rest with
      | String "\" rest' => String "\" (unescape rest')
      | _ => unescape rest
      end
  | String c rest => String c (unescape rest)
  end.

(** After an opening bracket: the key a bracket group gives, and what
    follows the group. *)
Definition bracket_group (s : string) : option (string * string) :=
  match bracket_number s with
  | Some r => Some r
  | None =>
      match s with
      | String q rest =>
          if (Ascii.eqb q double_quote || Ascii.eqb q "'")%bool
          then match bracket_quoted q rest with
               | Some (text, after) => Some (unescape text, after)
               | None => None
               end
          else None
      | EmptyString => None
      end
  end.

(** [(?:\.|\[\]|$)]: a dot, an empty bracket pair, or the end. *)
Definition separator_ahead (s : string) : bool :=
  match s with
  | EmptyString => true
  | String "." _ => true
  | String "[" (String "]" _) => true
  | _ => false
  end.

(** The matches of
    [rePropName = /[^.[\]]+|\[(?:(-?\d+(?:\.\d+)?)|([Q'])((?:(?!\2)[^\\]|\\.)*?)\2)\]|(?=(?:\.|\[\])(?:\.|\[\]|$))/g]
    (Q for the double quote) in [s], from left to right, each as the key [stringToPath] makes of it:
    a name, the key of a bracket group, or the empty key where a dot or an
    empty bracket pair is followed by a separator.  A character at which
    nothing matches is passed over, and so is the one after an empty match.
    [fuel] is at least the length of [s]. *)
Fixpoint path_keys (fuel : nat) (s : string) : list string :=
  match fuel with
  | O => []
  | S n =>
      match s with
      | EmptyString => []
      | String c rest =>
          if Ascii.eqb c "."
          then (if separator_ahead rest
                then EmptyString :: path_keys n rest
                else path_keys n rest)
          else if Ascii.eqb c "["
          then match bracket_group rest with
               | Some (key, after) => key :: path_keys n after
               | None =>
                   match rest with
                   | String "]" after =>
                       if separator_ahead after
                       then EmptyString :: path_keys n rest
                       else path_keys n rest
                   | _ => path_keys n rest
                   end
               end
          else if Ascii.eqb c "]"
          then path_keys n rest
          else let (name, after) := take_name s in name :: path_keys n after
      end
  end.

(** lodash [stringToPath]. *)
Definition stringToPath (s : string) : list string :=
  match s with
  | String "." _ => [EmptyString]
  | _ => []
  end ++ path_keys (String.length s) s.

(** lodash [castPath(value, object)] for a string. *)
Definition castPath (value : string) (object : Obj) : list string :=
  if isKey value object then [value] else stringToPath value.

(** The keys [baseSet] refuses to go through. *)
Definition unsafe_key (k : string) : bool :=
  (String.eqb k "__proto__" || String.eqb k "constructor"
   || String.eqb k "prototype")%bool.

(** [nested[key]] on an object or on an array; [None] where the answer is
    not a value of the model: a member the object only inherits, and on an
    array any key that is no array index. *)
Definition read_member (nested : JsVal) (key : string) : option JsVal :=
  match nested with
  | VObj o =>
      match member o key with
      | Own v => Some v
      | Absent => Some VUndefined
      | Inherited => None
      end
  | VArr l =>
      match array_index key with
      | Some i => Some (nth (Z.to_nat i) l VUndefined)
      | None => None
      end
  | _ => None
  end.

(** [nested[key] = value] on an object or on an array; [None] where the
    array would get a hole or a property that is no index. *)
Definition write_member (nested : JsVal) (key : string) (value : JsVal)
  : option JsVal :=
  match nested with
  | VObj o => Some (VObj (define key value o))
  | VArr l =>
      match array_index key with
      | Some i =>
          let n := Z.to_nat i in
          if Nat.ltb n (List.length l)
          then Some (VArr (firstn n l ++ value :: skipn (S n) l))
          else if Nat.eqb n (List.length l)
          then Some (VArr (l ++ [value]))
          else None
      | None => None
      end
  | _ => None
  end.

(** lodash [baseSet(object, path, value)] once the path is cast.  Every key
    but the last names an object: the one that is there, or a new one put in
    its place, an array when the next key is an index.  At a key that is
    unsafe the walk stops, and what was done before it stays.  [None] where
    a step leaves the values of the model. *)
Fixpoint baseSet (nested : JsVal) (path : list string) (value : JsVal)
  : option JsVal :=
  match path with
  | [] => Some nested
  | key :: rest =>
      if unsafe_key key then Some nested
      else
        match rest with
        | [] => write_member nested key value
        | next :: _ =>
            match read_member nested key with
            | Some objValue =>
                let newValue :=
                  if isObject objValue then objValue
                  else if isIndex next then VArr [] else VObj [] in
                match baseSet newValue rest value with
                | Some sub => write_member nested key sub
                | None => None
                end
            | None => None
            end
        end
  end.

Fixpoint get_path (v : JsVal) (path : list string) : JsVal :=
  match path with
  | [] => v
  | k :: rest => get_path (prop v k) rest
  end.

(** lodash [get(o, path, defaultValue)]: the default stands in for a value
    that resolves to [undefined]. *)
Definition lodash_get (v : JsVal) (path : string) (d : JsVal) : JsVal :=
  dflt (get_path v (split_on "." path)) d.

(** [Array.from(new Set(l))]: the first occurrence of each element. *)
Fixpoint dedup_from (seen l : list JsVal) : list JsVal :=
  match l with
  | [] => []
  | x :: rest =>
      if existsb (same_value_zero x) seen then dedup_from seen rest
      else x :: dedup_from (x :: seen) rest
  end.

Definition dedup (l : list JsVal) : list JsVal := dedup_from [] l.

(** ** Errors, promises and the store *)

Inductive Error : Type :=
| PluginError (status : Z) (message : string) (payload : JsVal)
| TypeError (message : string)
| RangeError (message : string)
| StoreError (detail : JsVal).

(** How a promise stands: fulfilled, rejected, or never settled. *)
Inductive outcome (A : Type) : Type :=
| Resolved (a : A)
| Rejected (e : Error)
| Pending.

Arguments Resolved {A} a.
Arguments Rejected {A} e.
Arguments Pending {A}.

(** The store calls the service makes, as they are logged. *)
Inductive Call : Type :=
| CFindMany (uid : string) (args : Obj)
| CFindOne (uid : string) (args : Obj)
| CCount (uid : string) (args : Obj)
| CFindWithCount (uid : string) (args : Obj)
| CUpdateMany (uid : string) (args : Obj).

(** [strapi.db.query(uid)]: what each operation answers in a given state of
    the world, and the state it leaves. *)
Record Db (W : Type) : Type := {
  q_findMany : string -> Obj -> W -> outcome (list Obj) * W;
  q_findOne : string -> Obj -> W -> outcome (option Obj) * W;
  q_count : string -> Obj -> W -> outcome JsNum * W;
  q_findWithCount : string -> Obj -> W -> outcome (list Obj * JsNum) * W;
  q_updateMany : string -> Obj -> W -> outcome (list Obj) * W
}.

Arguments q_findMany {W} _ _ _ _.
Arguments q_findOne {W} _ _ _ _.
Arguments q_count {W} _ _ _ _.
Arguments q_findWithCount {W} _ _ _ _.
Arguments q_updateMany {W} _ _ _ _.

(** The [strapi] object handed to the service.  [db] is the query engine;
    [bd] is the property of that name, which the Strapi API does not define:
    it is there only when the host object happens to carry one.
    [store_get_config] is [strapi.store({type: 'plugin', name:
    'comments'}).get({key: 'config'})] and [config_get] is
    [strapi.config.get]. *)
Record Strapi (W : Type) : Type := {
  db : Db W;
  bd : option (Db W);
  store_get_config : W -> outcome JsVal * W;
  config_get : string -> JsVal
}.

Arguments db {W} _.
Arguments bd {W} _.
Arguments store_get_config {W} _ _.
Arguments config_get {W} _ _.

(** What the module requires from [../utils/constants],
    [./utils/functions] and the [bad-words] package: none of them is part of
    this file, so they are taken as they come.  [isProfane] and [clean] get
    the argument the filter was constructed with first.  [set_elsewhere] is
    lodash [set] where [baseSet] has no answer. *)
Record Helpers : Type := {
  set_elsewhere : Obj -> string -> JsVal -> Obj;
  REGEX_sorting : string -> bool;
  ENABLED_COLLECTIONS : JsVal;
  BAD_WORDS : JsVal;
  getModelUid : string -> string;
  getRelatedGroups : JsVal -> list JsVal;
  filterOurResolvedReports : Obj -> Obj;
  buildAuthorModel : JsVal -> Obj;
  buildConfigQueryProp : JsVal -> JsVal;
  isProfane : JsVal -> JsVal -> bool;
  clean : JsVal -> JsVal -> JsVal
}.

(** *** The monad of asynchronous computations *)

Definition St (W : Type) : Type := (W * list Call)%type.

Definition M (W A : Type) : Type := St W -> outcome A * St W.

Definition ret {W A} (a : A) : M W A := fun st => (Resolved a, st).

Definition throw {W A} (e : Error) : M W A := fun st => (Rejected e, st).

Definition never {W A} : M W A := fun st => (Pending, st).

Definition bind {W A B} (m : M W A) (k : A -> M W B) : M W B :=
  fun st =>
    match m st with
    | (Resolved a, st') => k a st'
    | (Rejected e, st') => (Rejected e, st')
    | (Pending, st') => (Pending, st')
    end.

Notation "x <- m ;; k" := (bind m (fun x => k))
  (at level 61, m at next level, right associativity).

(** [try { m } catch (e) { h e }] *)
Definition try_catch {W A} (m : M W A) (h : Error -> M W A) : M W A :=
  fun st =>
    match m st with
    | (Rejected e, st') => h e st'
    | r => r
    end.

(** A store call: logged when it is made, whatever it answers. *)
Definition call {W A} (c : Call) (op : W -> outcome A * W) : M W A :=
  fun st =>
    let (r, w) := op (fst st) in (r, (w, snd st ++ [c])).

(** [Promise.all]: every computation is started, in order; the result is
    the list of their values, or the first rejection. *)
Fixpoint promise_all {W A} (ms : list (M W A)) : M W (list A) :=
  match ms with
  | [] => ret []
  | m :: rest =>
      fun st =>
        let (r, st1) := m st in
        let (rs, st2) := promise_all rest st1 in
        (match r, rs with
         | Resolved a, Resolved l => Resolved (a :: l)
         | Rejected e, _ => Rejected e
         | Resolved _, Rejected e => Rejected e
         | Pending, Rejected e => Rejected e
         | _, _ => Pending
         end, st2)
  end.

(** ** The service *)

Section Service.

Context {W : Type}.
Variable strapi : Strapi W.
Variable helpers : Helpers.

(** [TypeError: Cannot read properties of undefined]: reading a property of
    an object that is not there. *)
Definition read_of_undefined (what : string) : Error :=
  TypeError ("Cannot read properties of undefined (reading '" ++ what ++ "')").

(** *** getConfig, getLocalConfig *)

Definition getLocalConfig (prop_ defaultValue : JsVal) : JsVal :=
  let queryProp := buildConfigQueryProp helpers prop_ in
  let result :=
    config_get strapi
      ("plugin.comments" ++
       (if truthy queryProp then "." ++ js_ToString queryProp else "")) in
  if isNil result then defaultValue else result.

Definition getConfig (prop_ defaultValue : JsVal) (useLocal : bool)
  : M W JsVal :=
  let queryProp := buildConfigQueryProp helpers prop_ in
  config <- (fun st : St W =>
               let (r, w) := store_get_config strapi (fst st) in
               (r, (w, snd st))) ;;
  let result :=
    if (truthy config && negb useLocal)%bool
    then (if truthy queryProp
          then lodash_get config (js_ToString queryProp) defaultValue
          else config)
    else getLocalConfig queryProp defaultValue in
  ret (if isNil result then defaultValue else result).

(** *** sanitizeCommentEntity *)

Definition sanitizeCommentEntity (entity : Obj) : Obj :=
  spread []
    (buildAuthorModel helpers
       (VObj (spread entity
                [("threadOf",
                  if isObject (oprop entity "threadOf")
                  then VObj (buildAuthorModel helpers (oprop entity "threadOf"))
                  else oprop entity "threadOf")]))).

(** *** findRelatedEntitiesFor *)

(** [[...v]] for the values the reducer can meet: an array gives its
    elements, a string its characters; nothing else here is iterable. *)
Definition not_iterable : Error :=
  TypeError "(acc[relatedUid] || []) is not iterable".

Definition spread_elements (v : JsVal) : Error + list JsVal :=
  match v with
  | VArr l => inr l
  | VStr s => inr (map (fun c => VStr (String c EmptyString))
                       (list_ascii_of_string s))
  | _ => inl not_iterable
  end.

(** The reducer of [findRelatedEntitiesFor]: the ids of the related records,
    grouped by the collection they are in.  [acc[relatedUid]] is looked up
    as the language does it: for a collection named like a member of
    [Object.prototype] it finds that member the first time, and spreading it
    throws. *)
Definition related_groups (entities : list Obj) : Error + Obj :=
  fold_left
    (fun reduced cur =>
       match reduced with
       | inl e => inl e
       | inr acc =>
           let groups := getRelatedGroups helpers (oprop cur "related") in
           let relatedUid := js_ToString (nth 0 groups VUndefined) in
           let relatedStringId := nth 1 groups VUndefined in
           let parsedRelatedId := VNum (parseInt relatedStringId) in
           let relatedId :=
             if isNumber parsedRelatedId then parsedRelatedId
             else relatedStringId in
           match match member acc relatedUid with
                 | Own v => spread_elements (js_or v (VArr []))
                 | Inherited => inl not_iterable
                 | Absent => inr []
                 end with
           | inl e => inl e
           | inr ids => inr (define relatedUid (VArr (ids ++ [relatedId])) acc)
           end
       end)
    entities (inr []).

Definition findRelatedEntitiesFor (entities : list Obj) : M W (list Obj) :=
  match related_groups entities with
  | inl e => throw e
  | inr data =>
      result <-
        promise_all
          (map (fun entry : string * JsVal =>
                  let (relatedUid, relatedStringIds) := entry in
                  let args :=
                    [("where",
                      VObj [("id",
                             VArr (dedup match relatedStringIds with
                                         | VArr l => l
                                         | _ => []
                                         end))])] in
                  relatedEntities <-
                    call (CFindMany relatedUid args)
                         (q_findMany (db strapi) relatedUid args) ;;
                  ret (map (fun e => spread e [("uid", VStr relatedUid)])
                           relatedEntities))
               data) ;;
      ret (List.concat result)
  end.

(** *** mergeRelatedEntityTo

    The elements of [relatedEntities] are not [null] or [undefined]
    ([findAllFlat] merges only lists of that kind). *)
Definition mergeRelatedEntityTo (entity : Obj) (relatedEntities : list JsVal)
  : Obj :=
  spread entity
    [("related",
      match find (fun relatedEntity =>
                    strict_eq (oprop entity "related")
                      (VStr (js_ToString (prop relatedEntity "uid") ++ ":" ++
                             js_ToString (prop relatedEntity "id"))))
                 relatedEntities with
      | Some r => r
      | None => VUndefined
      end)].

(** *** findAllFlat *)

(** The [sort] argument: absent, a string, or a sequence of strings. *)
Inductive SortArg : Type :=
| NoSort
| SortStr (s : string)
| SortArr (l : list string).

(** lodash [set(object, path, value)] on an object. *)
Definition lodash_set (o : Obj) (path : string) (v : JsVal) : Obj :=
  match baseSet (VObj o) (castPath path o) v with
  | Some (VObj o') => o'
  | _ => set_elsewhere helpers o path v
  end.

(** Lines 62 to 67: the [orderBy] object of a list of sort strings. *)
Definition orderBy_of (l : list string) : Obj :=
  fold_left
    (fun prev curr =>
       match rev (split_on ":" curr) with
       | type :: parts =>
           spread [] (lodash_set prev (join "." (rev parts)) (VStr type))
       | [] => spread [] (lodash_set prev "" (VStr "asc"))
       end)
    (map (fun s => if REGEX_sorting helpers s then s else (s ++ ":asc")%string) l)
    [].

(** Lines 57 to 69. *)
Definition sort_extension (sort : SortArg) : Obj :=
  match sort with
  | NoSort => []
  | SortStr s =>
      if truthy (VStr s)
      then spread [] [("orderBy", VObj (orderBy_of [s]))]
      else []
  | SortArr l => spread [] [("orderBy", VObj (orderBy_of l))]
  end.

(** Lines 73 to 76. *)
Definition parsedPagination_of (pagination : Obj) : Obj :=
  fold_left
    (fun prev curr =>
       spread prev [(curr, VNum (parseInt (oprop pagination curr)))])
    (keys pagination) [].

Definition paginationByPage_of (parsedPagination : Obj) : bool :=
  (negb (isNil (oprop parsedPagination "page")) ||
   negb (isNil (oprop parsedPagination "pageSize")))%bool.

(** A number out of a property that holds a number or is not there. *)
Definition num_of (v : JsVal) : JsNum :=
  match v with VNum n => n | _ => NaN end.

(** Lines 80 to 84: what pagination adds to the query. *)
Definition pagination_extension (queryExtension : Obj)
  (pagination : option Obj) : Obj :=
  match pagination with
  | Some p =>
      let parsedPagination := parsedPagination_of p in
      let page := dflt (oprop parsedPagination "page") (VNum (Fin 1)) in
      let pageSize := dflt (oprop parsedPagination "pageSize") (VNum (Fin 10)) in
      let start := dflt (oprop parsedPagination "start") (VNum (Fin 0)) in
      let limit := dflt (oprop parsedPagination "limit") (VNum (Fin 10)) in
      let paginationByPage := paginationByPage_of parsedPagination in
      spread queryExtension
        [("offset",
          if paginationByPage
          then VNum (num_mul (num_sub (num_of page) (Fin 1)) (num_of pageSize))
          else start);
         ("limit", if paginationByPage then pageSize else limit)]
  | None => queryExtension
  end.

(** Lines 71 to 101: the response metadata before any count. *)
Definition meta_of (pagination : option Obj) : Obj :=
  match pagination with
  | Some p =>
      let parsedPagination := parsedPagination_of p in
      let page := dflt (oprop parsedPagination "page") (VNum (Fin 1)) in
      let pageSize := dflt (oprop parsedPagination "pageSize") (VNum (Fin 10)) in
      let start := dflt (oprop parsedPagination "start") (VNum (Fin 0)) in
      let limit := dflt (oprop parsedPagination "limit") (VNum (Fin 10)) in
      let paginationByPage := paginationByPage_of parsedPagination in
      let metaPagination :=
        if paginationByPage
        then [("pagination", VObj [("page", page); ("pageSize", pageSize)])]
        else [("pagination", VObj [("start", start); ("limit", limit)])] in
      spread [] metaPagination
  | None => []
  end.

Definition queryExtension_of (sort : SortArg) (pagination : option Obj)
  : Obj :=
  pagination_extension (sort_extension sort) pagination.

(** Line 115. *)
Definition withCount_requested (pagination : option Obj) : bool :=
  match pagination with
  | Some p =>
      (truthy (oprop p "withCount") &&
       (strict_eq (oprop p "withCount") (VStr "true") ||
        strict_eq (oprop p "withCount") (VBool true)))%bool
  | None => false
  end.

(** Lines 122 to 132: the metadata once the total is known. *)
Definition meta_with_count (meta : Obj) (total : JsNum) : Obj :=
  let pageSize := num_of (prop (oprop meta "pagination") "pageSize") in
  let pageCount := num_floor_div total pageSize in
  spread meta
    [("pagination",
      VObj (spread match oprop meta "pagination" with
                   | VObj o => o
                   | _ => []
                   end
              [("pageCount",
                if negb (isNil (prop (oprop meta "pagination") "page"))
                then (if num_strict_eq (num_rem total pageSize) (Fin 0)
                      then VNum pageCount
                      else VNum (num_add pageCount (Fin 1)))
                else VUndefined);
               ("total", VNum total)]))].

(** Lines 135 to 143: one query for each entry. *)
Definition thread_summary (entry : Obj) : M W Obj :=
  let args := [("where", VObj [("threadOf", oprop entry "id")])] in
  r <- call (CFindWithCount (getModelUid helpers "comment") args)
            (q_findWithCount (db strapi) (getModelUid helpers "comment") args) ;;
  let (nestedEntries, count_) := r : list Obj * JsNum in
  ret [("id", oprop entry "id");
       ("itemsInTread", VNum count_);
       ("firstThreadItemId",
        match first nestedEntries with
        | VUndefined => VUndefined
        | x => prop x "id"
        end)].

(** Lines 149 to 157. *)
Definition annotate (query : Obj) (entriesWithThreads : list Obj)
  (entry : Obj) : Obj :=
  let threadedItem :=
    find (fun item => strict_eq (oprop item "id") (oprop entry "id"))
         entriesWithThreads in
  sanitizeCommentEntity
    (spread entry
       [("threadOf",
         js_or (js_or (oprop query "threadOf") (oprop entry "threadOf")) VNull);
        ("gotThread",
         VBool (num_positive
                  (num_of (js_or match threadedItem with
                                 | Some item => oprop item "itemsInTread"
                                 | None => VUndefined
                                 end (VNum (Fin 0))))));
        ("threadFirstItemId",
         match threadedItem with
         | Some item => oprop item "firstThreadItemId"
         | None => VUndefined
         end)]).

Definition defaultPopulate : Obj := [("authorUser", VBool true)].

(** The argument of the main [findMany] (lines 104 to 113). *)
Definition findMany_args (query populate : Obj) (sort : SortArg)
  (pagination : option Obj) : Obj :=
  spread [("where", VObj (spread [] query));
          ("populate", VObj (spread (spread [] defaultPopulate) populate))]
         (queryExtension_of sort pagination).

(** Lines 159 to 164. *)
Definition respond (result : list Obj) (relatedEntities : list JsVal)
  (meta : Obj) : Obj :=
  let hasRelatedEntitiesToMap :=
    Nat.ltb 0 (List.length (filter truthy relatedEntities)) in
  spread
    [("data",
      VArr (map VObj
              (if hasRelatedEntitiesToMap
               then map (fun e => mergeRelatedEntityTo e relatedEntities) result
               else result)))]
    (if isEmpty meta then [] else [("meta", VObj meta)]).

Definition findAllFlat (query populate : Obj) (sort : SortArg)
  (pagination : option Obj) (relatedEntity : JsVal) : M W Obj :=
  let uid := getModelUid helpers "comment" in
  let args := findMany_args query populate sort pagination in
  entries <- call (CFindMany uid args) (q_findMany (db strapi) uid args) ;;
  meta <-
    (if withCount_requested pagination
     then
       let cargs := [("where", VObj (spread [] query))] in
       total <- call (CCount uid cargs) (q_count (db strapi) uid cargs) ;;
       ret (meta_with_count (meta_of pagination) total)
     else ret (meta_of pagination)) ;;
  entriesWithThreads <- promise_all (map thread_summary entries) ;;
  relatedEntities <-
    match relatedEntity with
    | VNull | VUndefined =>
        found <- findRelatedEntitiesFor entries ;;
        ret (map VObj found)
    | _ => ret [relatedEntity]
    end ;;
  let result := map (annotate query entriesWithThreads) entries in
  ret (respond result relatedEntities meta).

(** *** findAllInHierarchy *)

(** Modelled from the spec: [buildNestedStructure] of [./utils/functions],
    which is not part of this file.  The children of a parent are the
    comments of the flat list whose [field] equals the parent's id ([null]
    for the roots), in the order of the list, each with its own [children]
    assembled in the same way, depth first; with [dropBlockedThreads], a
    comment whose [blockedThread] is true is left out, and with it everything
    under it.  The spec gives the fifth argument no effect.  [fuel] bounds the
    depth of the recursion: [None] is a recursion that goes deeper. *)
Fixpoint buildNestedStructure (fuel : nat) (entities : list Obj)
  (id : JsVal) (field : string) (dropBlockedThreads blockNestedThreads : bool)
  : option (list Obj) :=
  match fuel with
  | O => None
  | S n =>
      fold_right
        (fun entity acc =>
           match buildNestedStructure n entities (oprop entity "id") field
                   dropBlockedThreads blockNestedThreads, acc with
           | Some children, Some rest =>
               Some (spread entity [("children", VArr (map VObj children))]
                       :: rest)
           | _, _ => None
           end)
        (Some [])
        (filter
           (fun entity =>
              (strict_eq (oprop entity field) id &&
               negb (dropBlockedThreads && truthy (oprop entity "blockedThread")))%bool)
           entities)
  end.

(** The objects of an array value. *)
Definition objects_of (v : JsVal) : list Obj :=
  match v with
  | VArr l => flat_map (fun x => match x with VObj o => [o] | _ => [] end) l
  | _ => []
  end.

(** [RangeError: Maximum call stack size exceeded]: what the engine throws
    when the calls nest deeper than its stack allows. *)
Definition stack_overflow : Error :=
  RangeError "Maximum call stack size exceeded".

(** [startingFromId] is [null] when it is not given.  The tree builder runs
    on the stack of the engine, whose depth is [fuel]: a recursion that goes
    deeper is ended by the engine, and the call is rejected. *)
Definition findAllInHierarchy (fuel : nat) (query populate : Obj)
  (sort : SortArg) (startingFromId : JsVal) (dropBlockedThreads : bool)
  (relatedEntity : JsVal) : M W (list Obj) :=
  entities <- findAllFlat query populate sort None relatedEntity ;;
  match buildNestedStructure fuel (objects_of (oprop entities "data"))
          (dflt startingFromId VNull) "threadOf" dropBlockedThreads false with
  | Some forest => ret forest
  | None => throw stack_overflow
  end.

(** *** findOne *)

Definition findOne (criteria : JsVal) : M W Obj :=
  let uid := getModelUid helpers "comment" in
  let args :=
    [("where", criteria);
     ("populate", VObj [("reports", VBool true); ("authorUser", VBool true)])] in
  entity <- call (CFindOne uid args) (q_findOne (db strapi) uid args) ;;
  match entity with
  | None =>
      throw (PluginError 404
               "Comment does not exist. Check your payload please." VUndefined)
  | Some e => ret (filterOurResolvedReports helpers (sanitizeCommentEntity e))
  end.

(** *** modifiedNestedNestedComments

    [fuel] bounds the depth of the recursion; a call that is out of fuel
    stays pending. *)
Fixpoint modifiedNestedNestedComments (fuel : nat) (id : JsVal)
  (fieldName : string) (value : JsVal) : M W bool :=
  match fuel with
  | O => never
  | S n =>
      try_catch
        (match bd strapi with
         | None => throw (read_of_undefined "query")
         | Some q =>
             let uid := getModelUid helpers "comment" in
             let fargs := [("where", VObj [("threadOf", id)])] in
             entitiesToChange <-
               call (CFindMany uid fargs) (q_findMany q uid fargs) ;;
             let uargs :=
               [("where",
                 VObj [("id",
                        VArr (map (fun e => oprop e "id") entitiesToChange))]);
                ("data", VObj [(fieldName, value)])] in
             changedEntities <-
               call (CUpdateMany uid uargs) (q_updateMany q uid uargs) ;;
             if (Nat.eqb (List.length entitiesToChange)
                         (List.length changedEntities) &&
                 Nat.ltb 0 (List.length changedEntities))%bool
             then
               nestedTransactions <-
                 promise_all
                   (map (fun item =>
                           modifiedNestedNestedComments n (oprop item "id")
                             fieldName value)
                        changedEntities) ;;
               ret (Nat.eqb (List.length nestedTransactions)
                            (List.length changedEntities))
             else ret true
         end)
        (fun _ => ret false)
  end.

(** *** isValidUserContext *)

Definition isValidUserContext (user : JsVal) : bool :=
  if truthy user then negb (isNil (prop user "id")) else true.

(** *** parseRelationString *)

Definition parseRelationString (relation : JsVal) : M W (JsVal * JsVal) :=
  let groups := getRelatedGroups helpers relation in
  let uid := nth 0 groups VUndefined in
  let relatedStringId := nth 1 groups VUndefined in
  let parsedRelatedId := VNum (parseInt relatedStringId) in
  let relatedId :=
    if isNumber parsedRelatedId then parsedRelatedId else relatedStringId in
  enabledCollections <-
    getConfig (ENABLED_COLLECTIONS helpers) (VArr []) false ;;
  match enabledCollections with
  | VArr l =>
      if existsb (same_value_zero uid) l
      then ret (uid, relatedId)
      else throw (PluginError 403
                    ("Action not allowed for collection '" ++ js_ToString uid
                     ++ "'. Use one of: " ++ array_join ", " l)
                    VUndefined)
  | VStr s =>
      if is_substring (js_ToString uid) s
      then ret (uid, relatedId)
      else throw (TypeError "enabledCollections.join is not a function")
  | _ => throw (TypeError "enabledCollections.includes is not a function")
  end.

(** *** checkBadWords *)

Definition checkBadWords (content : JsVal) : M W JsVal :=
  config <- getConfig (BAD_WORDS helpers) (VBool true) false ;;
  if truthy config
  then
    let filter := if isObject config then config else VUndefined in
    if (truthy content && isProfane helpers filter content)%bool
    then throw (PluginError 400
                  "Bad language used! Please polite your comment..."
                  (VObj [("content",
                          VObj [("original", content);
                                ("filtered",
                                 js_and content
                                   (clean helpers filter content))])]))
    else ret content
  else ret content.

End Service.

(** ** What the specification says of the parts that are not in this file *)

Fixpoint ends_with (suffix s : string) : bool :=
  (String.eqb suffix s ||
   match s with
   | EmptyString => false
   | String _ s' => ends_with suffix s'
   end)%bool.

(** Modelled from the spec: [REGEX.sorting] of [../utils/constants], which is
    not part of this file; a sort string is recognised when it carries the
    suffix [:asc] or [:desc]. *)
Definition sorting_pattern (s : string) : bool :=
  (ends_with ":asc" s || ends_with ":desc" s)%bool.

(** Modelled from the spec: [getRelatedGroups] of [./utils/functions], which
    is not part of this file; a relation token is
    ["<collectionId>:<recordId>"], cut at its last colon. *)
Definition relation_groups (related : JsVal) : list JsVal :=
  match related with
  | VStr s =>
      match rev (split_on ":" s) with
      | recordId :: (_ :: _) as collection =>
          [VStr (join ":" (rev collection)); VStr recordId]
      | _ => []
      end
  | _ => []
  end.

(** Modelled from the spec: [filterOurResolvedReports] of
    [./utils/functions], which is not part of this file; it removes the
    reports that are already resolved from the [reports] of a comment. *)
Definition resolved_reports_removed (item : Obj) : Obj :=
  spread item
    [("reports",
      VArr (filter (fun report => negb (truthy (prop report "resolved")))
              match oprop item "reports" with
              | VArr l => l
              | _ => []
              end))].

(** ** An in-memory store

    Tables of records by collection; a condition [{k: v}] holds of a record
    whose [k] is [v], or is one of [v] when [v] is an array; [offset] and
    [limit] cut a window out of the matching records, taken in the order of
    the table. *)
Module MemStore.

Definition World : Type := list (string * list Obj).

Definition table (uid : string) (w : World) : list Obj :=
  match find (fun t => String.eqb (fst t) uid) w with
  | Some t => snd t
  | None => []
  end.

Definition matches (conditions : JsVal) (row : Obj) : bool :=
  match conditions with
  | VObj cs =>
      forallb (fun kv : string * JsVal =>
                 match snd kv with
                 | VArr l => existsb (same_value_zero (oprop row (fst kv))) l
                 | v => same_value_zero (oprop row (fst kv)) v
                 end) cs
  | _ => true
  end.

Definition window (args : Obj) (rows : list Obj) : list Obj :=
  let rows :=
    match oprop args "offset" with
    | VNum (Fin z) => skipn (Z.to_nat z) rows
    | _ => rows
    end in
  match oprop args "limit" with
  | VNum (Fin z) => firstn (Z.to_nat z) rows
  | _ => rows
  end.

Definition select (uid : string) (args : Obj) (w : World) : list Obj :=
  filter (matches (oprop args "where")) (table uid w).

Definition patch (uid : string) (args : Obj) (w : World) : World :=
  map (fun t : string * list Obj =>
         if String.eqb (fst t) uid
         then (fst t,
               map (fun row =>
                      if matches (oprop args "where") row
                      then spread row match oprop args "data" with
                                      | VObj d => d
                                      | _ => []
                                      end
                      else row) (snd t))
         else t) w.

(** The store; [fails] tells the calls that the store rejects, [reported]
    how many of the records it has updated an update reports. *)
Definition mem_db (fails : Call -> bool) (reported : list Obj -> list Obj)
  : Db World :=
  {| q_findMany uid args w :=
       if fails (CFindMany uid args)
       then (Rejected (StoreError (VStr uid)), w)
       else (Resolved (window args (select uid args w)), w);
     q_findOne uid args w :=
       if fails (CFindOne uid args)
       then (Rejected (StoreError (VStr uid)), w)
       else (Resolved (hd_error (select uid args w)), w);
     q_count uid args w :=
       if fails (CCount uid args)
       then (Rejected (StoreError (VStr uid)), w)
       else (Resolved (Fin (Z.of_nat (List.length (select uid args w)))), w);
     q_findWithCount uid args w :=
       if fails (CFindWithCount uid args)
       then (Rejected (StoreError (VStr uid)), w)
       else (Resolved (window args (select uid args w),
                       Fin (Z.of_nat (List.length (select uid args w)))), w);
     q_updateMany uid args w :=
       if fails (CUpdateMany uid args)
       then (Rejected (StoreError (VStr uid)), w)
       else (Resolved (reported (select uid args (patch uid args w))),
             patch uid args w) |}.

(** A Strapi instance over the store: no [bd] property, a plugin
    configuration document [config], no local configuration. *)
Definition strapi_of (d : Db World) (config : JsVal) : Strapi World :=
  {| db := d;
     bd := None;
     store_get_config w := (Resolved config, w);
     config_get _ := VUndefined |}.

(** The same object with a [bd] property next to [db]. *)
Definition strapi_with_bd (d : Db World) (config : JsVal) : Strapi World :=
  {| db := d;
     bd := Some d;
     store_get_config w := (Resolved config, w);
     config_get _ := VUndefined |}.

Definition never_fails (_ : Call) : bool := false.

Definition all_reported (l : list Obj) : list Obj := l.

(** Helpers as the specification has them; the author model is left as it
    comes, the word filter knows one word. *)
Definition helpers : Helpers :=
  {| set_elsewhere o _ _ := o;
     REGEX_sorting := sorting_pattern;
     ENABLED_COLLECTIONS := VStr "enabledCollections";
     BAD_WORDS := VStr "badWords";
     getModelUid name := ("plugin::comments." ++ name)%string;
     getRelatedGroups := relation_groups;
     filterOurResolvedReports := resolved_reports_removed;
     buildAuthorModel v := match v with VObj o => o | _ => [] end;
     buildConfigQueryProp p := p;
     isProfane _ content := is_substring "darn" (js_ToString content);
     clean _ _ := VStr "****" |}.

Definition num (z : Z) : JsVal := VNum (Fin z).

Definition comment (id : Z) (threadOf : JsVal) (related : string) : Obj :=
  [("id", num id); ("threadOf", threadOf); ("related", VStr related);
   ("blockedThread", VBool false)].

Definition comments_uid : string := "plugin::comments.comment".

(** A store that answers every call and reports every update, under a Strapi
    instance that has no remote configuration. *)
Definition plain : Strapi World :=
  strapi_of (mem_db never_fails all_reported) VNull.

(** Ten root comments, ids 1 to 10, on the one article there is. *)
Definition ten_comments : World :=
  [(comments_uid,
    map (fun i => comment i VNull "article:1")
        [1; 2; 3; 4; 5; 6; 7; 8; 9; 10]%Z);
   ("article", [[("id", num 1); ("title", VStr "T")]])].

(** A thread: comment 1 is a root, 2 and 3 answer 1, and 4 answers 2. *)
Definition thread : World :=
  [(comments_uid,
    [comment 1 VNull "article:1"; comment 2 (num 1) "article:1";
     comment 3 (num 1) "article:1"; comment 4 (num 2) "article:1"])].

(** A host object that carries a [bd] next to [db], over a store whose
    updates report only the first record they changed. *)
Definition lossy : Strapi World :=
  strapi_with_bd (mem_db never_fails (firstn 1)) VNull.

(** The store rejects the fetch of the children of comment 2. *)
Definition fetch_under_2_fails (c : Call) : bool :=
  match c with
  | CFindMany _ args =>
      same_value_zero (prop (oprop args "where") "threadOf") (num 2)
  | _ => false
  end.

Definition flaky : Strapi World :=
  strapi_with_bd (mem_db fetch_under_2_fails all_reported) VNull.

(** A Strapi instance whose plugin configuration enables the collection
    [article]. *)
Definition configured : Strapi World :=
  strapi_of (mem_db never_fails all_reported)
    (VObj [("enabledCollections", VArr [VStr "article"])]).

(** Comment 1 is a root, 2 answers 1 and 3 answers 2; [blocked] tells
    whether the thread of comment 2 is blocked. *)
Definition chain (blocked : bool) : list Obj :=
  [comment 1 VNull "article:1";
   spread (comment 2 (num 1) "article:1") [("blockedThread", VBool blocked)];
   comment 3 (num 2) "article:1"].

(** Two root comments, the second on an article that does not exist. *)
Definition two_comments : World :=
  [(comments_uid,
    [comment 1 VNull "article:1"; comment 2 VNull "article:7"]);
   ("article", [[("id", num 1); ("title", VStr "T")]])].

End MemStore.

(** The number a sequence of decimal digits stands for, read after [acc]. *)
Fixpoint uint_value (d : Decimal.uint) (acc : Z) : Z :=
  match d with
  | Decimal.Nil => acc
  | Decimal.D0 d => uint_value d (10 * acc + 0)
  | Decimal.D1 d => uint_value d (10 * acc + 1)
  | Decimal.D2 d => uint_value d (10 * acc + 2)
  | Decimal.D3 d => uint_value d (10 * acc + 3)
  | Decimal.D4 d => uint_value d (10 * acc + 4)
  | Decimal.D5 d => uint_value d (10 * acc + 5)
  | Decimal.D6 d => uint_value d (10 * acc + 6)
  | Decimal.D7 d => uint_value d (10 * acc + 7)
  | Decimal.D8 d => uint_value d (10 * acc + 8)
  | Decimal.D9 d => uint_value d (10 * acc + 9)
  end%Z.

(** A computation only ever adds to the log of store calls. *)
Definition appends {W A : Type} (m : M W A) : Prop :=
  forall st, exists rest, snd (snd (m st)) = snd st ++ rest.

(** The value pagination works with for the key [k]: the parsed property
    when the pagination object has the key, the default otherwise. *)
Definition pagination_value (p : Obj) (k : string) (default : Z) : JsVal :=
  if has k p then VNum (parseInt (oprop p k)) else VNum (Fin default).

(** Page-based pagination is chosen by the presence of a key. *)
Definition page_based (p : Obj) : bool :=
  (has "page" p || has "pageSize" p)%bool.

(** The comments of the flat list that go directly under the parent [id]. *)
Definition child_of (field : string) (dropBlockedThreads : bool) (id : JsVal)
  (entity : Obj) : bool :=
  (strict_eq (oprop entity field) id &&
   negb (dropBlockedThreads && truthy (oprop entity "blockedThread")))%bool.

(** The forest under a parent, as a relation: one node for each comment that
    goes directly under the parent, in the order of the flat list; a node is
    its comment with, as [children], the forest under that comment. *)
Inductive forest_of (entities : list Obj) (field : string)
  (dropBlockedThreads : bool) (id : JsVal) : list Obj -> Prop :=
| forest_of_nodes (forest : list Obj) :
    Forall2
      (fun entity node =>
         exists children,
           forest_of entities field dropBlockedThreads (oprop entity "id")
             children
           /\ node = spread entity [("children", VArr (map VObj children))])
      (filter (child_of field dropBlockedThreads id) entities) forest ->
    forest_of entities field dropBlockedThreads id forest.

(** A measure on ids for the comments of [chain]: the deeper, the smaller. *)
Definition chain_rank (id : JsVal) : nat :=
  match id with
  | VNull => 4
  | VNum (Fin z) => 4 - Z.to_nat z
  | _ => 0
  end.

(** The same [strapi] object over another local configuration tree. *)
Definition with_local {W : Type} (strapi : Strapi W)
  (local : string -> JsVal) : Strapi W :=
  {| db := db strapi;
     bd := bd strapi;
     store_get_config := store_get_config strapi;
     config_get := local |}.

(** A computation adds exactly the calls [cs] to the log, whatever the state
    it starts in and however it ends. *)
Definition logs {W A : Type} (m : M W A) (cs : list Call) : Prop :=
  forall st, snd (snd (m st)) = snd st ++ cs.

(** The lookups [findRelatedEntitiesFor] makes for a batch of comments: one
    for each group, in the order of the groups; none when the grouping
    throws. *)
Definition relation_calls (helpers : Helpers) (entities : list Obj)
  : list Call :=
  match related_groups helpers entities with
  | inr groups =>
      map (fun entry : string * JsVal =>
             CFindMany (fst entry)
               [("where",
                 VObj [("id",
                        VArr (dedup match snd entry with
                                    | VArr l => l
                                    | _ => []
                                    end))])])
          groups
  | inl _ => []
  end.

(** The thread queries [findAllFlat] makes for its entries: one for each
    entry, in order. *)
Definition thread_calls (helpers : Helpers) (entries : list Obj)
  : list Call :=
  map (fun entry =>
         CFindWithCount (getModelUid helpers "comment")
           [("where", VObj [("threadOf", oprop entry "id")])])
      entries.


(** The collection a comment's relation token names, as the key
    [findRelatedEntitiesFor] groups it under, and the id it names, as
    [findRelatedEntitiesFor] collects it. *)
Definition relation_key (helpers : Helpers) (entity : Obj) : string :=
  js_ToString (nth 0 (getRelatedGroups helpers (oprop entity "related"))
                 VUndefined).

Definition relation_id (helpers : Helpers) (entity : Obj) : JsVal :=
  VNum (parseInt (nth 1 (getRelatedGroups helpers (oprop entity "related"))
                    VUndefined)).

(** The ids of the comments of a batch that are under the key [k], in the
    order of the batch. *)
Definition ids_under (helpers : Helpers) (entities : list Obj) (k : string)
  : list JsVal :=
  map (relation_id helpers)
      (filter (fun e => String.eqb (relation_key helpers e) k) entities).

(** A sort entry on a plain field: the field, and the direction when one is
    given; the string that asks for it, and the direction it stands for. *)
Definition sort_string (entry : string * option string) : string :=
  match snd entry with
  | Some direction => fst entry ++ ":" ++ direction
  | None => fst entry
  end.

Definition sort_direction (entry : string * option string) : string :=
  match snd entry with
  | Some direction => direction
  | None => "asc"
  end.

(** A host object that carries, as [bd], the query engine it has as [db],
    over a store that answers every call and reports every update. *)
Definition mirrored : Strapi MemStore.World :=
  MemStore.strapi_with_bd
    (MemStore.mem_db MemStore.never_fails MemStore.all_reported) VNull.

(** The state of the world a store call leaves, and whether the store
    rejects it, by the call as it is logged. *)
Definition call_leaves {W : Type} (strapi : Strapi W) (c : Call) (w : W)
  : W :=
  match c with
  | CFindMany uid args => snd (q_findMany (db strapi) uid args w)
  | CFindOne uid args => snd (q_findOne (db strapi) uid args w)
  | CCount uid args => snd (q_count (db strapi) uid args w)
  | CFindWithCount uid args => snd (q_findWithCount (db strapi) uid args w)
  | CUpdateMany uid args => snd (q_updateMany (db strapi) uid args w)
  end.

Definition call_rejected {W : Type} (strapi : Strapi W) (c : Call) (w : W)
  (e : Error) : Prop :=
  match c with
  | CFindMany uid args => fst (q_findMany (db strapi) uid args w) = Rejected e
  | CFindOne uid args => fst (q_findOne (db strapi) uid args w) = Rejected e
  | CCount uid args => fst (q_count (db strapi) uid args w) = Rejected e
  | CFindWithCount uid args =>
      fst (q_findWithCount (db strapi) uid args w) = Rejected e
  | CUpdateMany uid args =>
      fst (q_updateMany (db strapi) uid args w) = Rejected e
  end.

(** The state of the world after a sequence of store calls. *)
Definition world_after {W : Type} (strapi : Strapi W) (cs : list Call)
  (w : W) : W :=
  fold_left (fun w c => call_leaves strapi c w) cs w.

(** A rejection the store gave in a run that started in the world [w] and
    made the calls [cs]: one of these calls, made in the state the calls
    before it had left, was answered with it. *)
Definition from_store {W : Type} (strapi : Strapi W) (w : W)
  (cs : list Call) (e : Error) : Prop :=
  exists before c after,
    cs = before ++ c :: after
    /\ call_rejected strapi c (world_after strapi before w) e.

(** A computation whose store calls all go to [strapi.db] and are all
    logged: the world it leaves is the one its calls leave, and what it
    rejects with is of its [own] making or a rejection the store gave to one
    of its calls. *)
Definition traced {W A : Type} (strapi : Strapi W) (own : Error -> Prop)
  (m : M W A) : Prop :=
  forall st, exists cs,
    snd (snd (m st)) = snd st ++ cs
    /\ fst (snd (m st)) = world_after strapi cs (fst st)
    /\ forall e, fst (m st) = Rejected e ->
         own e \/ from_store strapi (fst st) cs e.

(** The ids of a list of records are pairwise different, and each is equal to
    itself, under [===]. *)
Fixpoint ids_distinct (l : list Obj) : bool :=
  match l with
  | [] => true
  | e :: rest =>
      (strict_eq (oprop e "id") (oprop e "id") &&
       forallb (fun e' => negb (strict_eq (oprop e "id") (oprop e' "id")))
               rest &&
       ids_distinct rest)%bool
  end.

(** The summary [findAllFlat] keeps of the thread under an entry, from what
    the store answered. *)
Definition summary_of (entry : Obj) (nestedEntries : list Obj)
  (count_ : JsNum) : Obj :=
  [("id", oprop entry "id");
   ("itemsInTread", VNum count_);
   ("firstThreadItemId",
    match nestedEntries with
    | [] => VUndefined
    | x :: _ => oprop x "id"
    end)].

(** Whether a key is an array index. *)
Definition is_array_index (k : string) : bool :=
  match array_index k with Some _ => true | None => false end.

(** Each string once, at the place where it comes first. *)
Fixpoint first_seen (l : list string) : list string :=
  match l with
  | [] => []
  | k :: rest =>
      k :: filter (fun k' => negb (String.eqb k' k)) (first_seen rest)
  end.

(** Array indices in ascending order. *)
Definition ascending (ks : list string) : Prop :=
  StronglySorted (fun a b => (uint_of a < uint_of b)%Z) ks.

(** The keys of an object as the language lists them: an array index is
    followed by greater indices and by keys that are no index, a key that is
    no index by keys that are no index. *)
Inductive enumerated : list string -> Prop :=
| enumerated_nil : enumerated []
| enumerated_index (k : string) (rest : list string) :
    is_array_index k = true ->
    Forall (fun k' => is_array_index k' = true -> (uint_of k < uint_of k')%Z)
           rest ->
    enumerated rest ->
    enumerated (k :: rest)
| enumerated_other (k : string) (rest : list string) :
    is_array_index k = false ->
    Forall (fun k' => is_array_index k' = false) rest ->
    enumerated (k :: rest).

(** A key that is no array index. *)
Definition nonindex (k : string) : bool := negb (is_array_index k).

(** What the reducer of [findRelatedEntitiesFor] has built when it has gone
    through [entities] without throwing: no collection is named like a
    member of [Object.prototype]; the keys are in the order of the language,
    each once; under a key stand the ids of the comments that name it; and
    the keys that are no index stand in the order the batch first names
    them. *)
Definition grouped (helpers : Helpers) (entities : list Obj) (groups : Obj)
  : Prop :=
  (forall entity, In entity entities ->
     inherited (relation_key helpers entity) = false)
  /\ enumerated (keys groups)
  /\ NoDup (keys groups)
  /\ (forall k,
        lookup k groups
        = match ids_under helpers entities k with
          | [] => None
          | _ :: _ => Some (VArr (ids_under helpers entities k))
          end)
  /\ filter nonindex (keys groups)
     = first_seen (filter nonindex (map (relation_key helpers) entities)).

(** A plain field name, as far as sorting goes: not empty; no dot, bracket
    or colon in it; none of the keys lodash [set] refuses, no member of
    [Object.prototype], no index. *)
Definition plain_key (k : string) : bool :=
  (negb (String.eqb k "")
   && all_chars (fun c => negb (is_path_special c || Ascii.eqb c ":")) k
   && negb (unsafe_key k) && negb (inherited k) && negb (isIndex k))%bool.

(** The ordering on one field path: the direction at the end of the path,
    an object for each field on the way. *)
Fixpoint ordering_on (path : list string) (direction : string) : Obj :=
  match path with
  | [] => []
  | [field] => [(field, VStr direction)]
  | field :: rest => [(field, VObj (ordering_on rest direction))]
  end.

(** How a run of [findAllFlat] from the state [st] comes to its related
    entities: the main query answers [entries]; the count, when one is
    requested, is answered; the thread queries give the summaries
    [entriesWithThreads]; then the related entities are the one supplied,
    or the records [findRelatedEntitiesFor] fetches for the entries in the
    state the run has reached by then. *)
Definition related_of {W : Type} (strapi : Strapi W) (helpers : Helpers)
  (query populate : Obj) (sort : SortArg) (pagination : option Obj)
  (relatedEntity : JsVal) (st : St W) (entries entriesWithThreads : list Obj)
  (relatedEntities : list JsVal) : Prop :=
  let uid := getModelUid helpers "comment" in
  let args := findMany_args helpers query populate sort pagination in
  exists st1 st2 st3,
    call (CFindMany uid args) (q_findMany (db strapi) uid args) st
    = (Resolved entries, st1)
    /\ (if withCount_requested pagination
        then exists total,
            call (CCount uid [("where", VObj (spread [] query))])
                 (q_count (db strapi) uid [("where", VObj (spread [] query))])
                 st1
            = (Resolved total, st2)
        else st2 = st1)
    /\ promise_all (map (thread_summary strapi helpers) entries) st2
       = (Resolved entriesWithThreads, st3)
    /\ match relatedEntity with
       | VNull | VUndefined =>
           exists found st4,
             findRelatedEntitiesFor strapi helpers entries st3
             = (Resolved found, st4)
             /\ relatedEntities = map VObj found
       | _ => relatedEntities = [relatedEntity]
       end.

(** * Properties *)

(** ** Objects *)

Lemma lookup_assign_same (k : string) (v : JsVal) (o : Obj) :
  lookup k (assign k v o) = Some v.
Proof.
  induction o as [|[k' v'] o IH]; simpl.
  - now rewrite String.eqb_refl.
  - destruct (String.eqb k k') eqn:E; simpl; rewrite E; auto.
Qed.

Lemma lookup_assign_other (k k' : string) (v : JsVal) (o : Obj) :
  k <> k' -> lookup k (assign k' v o) = lookup k o.
Proof.
  intros Hne. induction o as [|[k0 v0] o IH]; simpl.
  - destruct (String.eqb k k') eqn:E; auto.
    apply String.eqb_eq in E. contradiction.
  - destruct (String.eqb k' k0) eqn:E; simpl.
    + apply String.eqb_eq in E. subst k0.
      destruct (String.eqb k k') eqn:E'; auto.
      apply String.eqb_eq in E'. contradiction.
    + now rewrite IH.
Qed.

Lemma oprop_assign_same (k : string) (v : JsVal) (o : Obj) :
  oprop (assign k v o) k = v.
Proof. unfold oprop, prop. now rewrite lookup_assign_same. Qed.

Lemma oprop_assign_other (k k' : string) (v : JsVal) (o : Obj) :
  k <> k' -> oprop (assign k' v o) k = oprop o k.
Proof. intros. unfold oprop, prop. now rewrite lookup_assign_other. Qed.

Lemma spread_one (o : Obj) (k : string) (v : JsVal) :
  spread o [(k, v)] = assign k v o.
Proof. reflexivity. Qed.

Lemma has_keys (k : string) (o : Obj) :
  has k o = existsb (String.eqb k) (keys o).
Proof.
  unfold has. induction o as [|[k' v'] o IH]; simpl; auto.
  destruct (String.eqb k k'); auto.
Qed.

(** ** parseInt reads back the decimal form of an integer *)

Lemma digits_step (radix : Z) (c : ascii) (rest : string) (acc : option Z)
  (d : Z) :
  digit_of radix c = Some d ->
  digits radix (String c rest) acc
  = digits radix rest
      (Some (radix * match acc with Some a => a | None => 0 end + d)%Z).
Proof. intro H. cbn [digits]. now rewrite H. Qed.

Lemma digits_uint (d : Decimal.uint) (acc : Z) :
  digits 10 (NilEmpty.string_of_uint d) (Some acc) = Some (uint_value d acc).
Proof.
  revert acc. induction d; intro acc;
    cbn [NilEmpty.string_of_uint uint_value]; auto;
    erewrite digits_step by reflexivity; rewrite IHd; reflexivity.
Qed.

Lemma uint_value_pos (d : Decimal.uint) (acc : positive) :
  uint_value d (Z.pos acc) = Z.pos (Pos.of_uint_acc d acc).
Proof.
  revert acc. induction d; intro acc;
    cbn [uint_value Pos.of_uint_acc]; auto;
    rewrite <- IHd; f_equal; lia.
Qed.

Lemma uint_value_0 (d : Decimal.uint) :
  uint_value d 0 = Z.of_N (Pos.of_uint d).
Proof.
  induction d; cbn [uint_value Pos.of_uint Z.of_N]; auto;
    rewrite <- uint_value_pos; f_equal.
Qed.

Lemma native_parseInt_uint (d : Decimal.uint) :
  d <> Decimal.Nil ->
  native_parseInt (NilEmpty.string_of_uint d) = Fin (uint_value d 0).
Proof.
  intro Hd. destruct d; try contradiction;
    try (unfold native_parseInt; cbn -[digits];
         erewrite digits_step by reflexivity;
         rewrite digits_uint; reflexivity).
  destruct d; unfold native_parseInt; cbn -[digits];
    repeat (erewrite digits_step by reflexivity);
    try rewrite digits_uint; reflexivity.
Qed.

Lemma native_parseInt_neg_uint (d : Decimal.uint) :
  d <> Decimal.Nil ->
  native_parseInt (String "-" (NilEmpty.string_of_uint d))
  = Fin (- uint_value d 0).
Proof.
  intro Hd. destruct d; try contradiction;
    try (unfold native_parseInt; cbn -[digits];
         erewrite digits_step by reflexivity;
         rewrite digits_uint; reflexivity).
  destruct d; unfold native_parseInt; cbn -[digits];
    repeat (erewrite digits_step by reflexivity);
    try rewrite digits_uint; reflexivity.
Qed.

Lemma trim_start_uint (d : Decimal.uint) :
  trim_start (NilEmpty.string_of_uint d) = NilEmpty.string_of_uint d.
Proof. destruct d; reflexivity. Qed.

Lemma string_of_uint_nonnil (d : Decimal.uint) :
  d <> Decimal.Nil ->
  NilZero.string_of_uint d = NilEmpty.string_of_uint d.
Proof. destruct d; auto; contradiction. Qed.

Lemma native_parseInt_string_of_Z (z : Z) :
  native_parseInt (string_of_Z z) = Fin z.
Proof.
  unfold string_of_Z. destruct z as [|p|p]; simpl.
  - reflexivity.
  - rewrite string_of_uint_nonnil by apply DecimalPos.Unsigned.to_uint_nonnil.
    rewrite native_parseInt_uint by apply DecimalPos.Unsigned.to_uint_nonnil.
    now rewrite uint_value_0, DecimalPos.Unsigned.of_to.
  - rewrite string_of_uint_nonnil by apply DecimalPos.Unsigned.to_uint_nonnil.
    rewrite native_parseInt_neg_uint
      by apply DecimalPos.Unsigned.to_uint_nonnil.
    now rewrite uint_value_0, DecimalPos.Unsigned.of_to.
Qed.

Lemma trim_start_string_of_Z (z : Z) :
  trim_start (string_of_Z z) = string_of_Z z.
Proof.
  unfold string_of_Z. destruct z as [|p|p]; simpl; auto.
  rewrite string_of_uint_nonnil by apply DecimalPos.Unsigned.to_uint_nonnil.
  apply trim_start_uint.
Qed.

(** A decimal string and the number it prints are parsed alike. *)
Lemma parseInt_decimal (z : Z) :
  parseInt (VStr (string_of_Z z)) = Fin z /\ parseInt (VNum (Fin z)) = Fin z.
Proof.
  unfold parseInt; simpl.
  now rewrite trim_start_string_of_Z, native_parseInt_string_of_Z.
Qed.

(** ** The log of store calls only grows *)

Section Log.

Context {W : Type}.

Lemma appends_ret {A} (a : A) : appends (@ret W A a).
Proof. intro st. exists []. simpl. now rewrite app_nil_r. Qed.

Lemma appends_throw {A} (e : Error) : appends (@throw W A e).
Proof. intro st. exists []. simpl. now rewrite app_nil_r. Qed.

Lemma appends_never {A} : appends (@never W A).
Proof. intro st. exists []. simpl. now rewrite app_nil_r. Qed.

Lemma appends_call {A} (c : Call) (op : W -> outcome A * W) :
  appends (call c op).
Proof.
  intro st. exists [c]. unfold call. now destruct (op (fst st)).
Qed.

Lemma appends_bind {A B} (m : M W A) (k : A -> M W B) :
  appends m -> (forall a, appends (k a)) -> appends (bind m k).
Proof.
  intros Hm Hk st. unfold bind.
  destruct (Hm st) as [r1 H1].
  destruct (m st) as [[a|e|] st1]; simpl in *.
  - destruct (Hk a st1) as [r2 H2]. exists (r1 ++ r2).
    now rewrite H2, H1, app_assoc.
  - now exists r1.
  - now exists r1.
Qed.

Lemma appends_try_catch {A} (m : M W A) (h : Error -> M W A) :
  appends m -> (forall e, appends (h e)) -> appends (try_catch m h).
Proof.
  intros Hm Hh st. unfold try_catch.
  destruct (Hm st) as [r1 H1].
  destruct (m st) as [[a|e|] st1]; simpl in *.
  - now exists r1.
  - destruct (Hh e st1) as [r2 H2]. exists (r1 ++ r2).
    now rewrite H2, H1, app_assoc.
  - now exists r1.
Qed.

Lemma appends_promise_all {A} (ms : list (M W A)) :
  Forall appends ms -> appends (promise_all ms).
Proof.
  induction 1 as [|m ms Hm _ IH]; intro st; simpl.
  - exists []. simpl. now rewrite app_nil_r.
  - destruct (Hm st) as [r1 H1].
    destruct (m st) as [r st1]; simpl in *.
    destruct (IH st1) as [r2 H2].
    destruct (promise_all ms st1) as [rs st2]; simpl in *.
    exists (r1 ++ r2). now rewrite H2, H1, app_assoc.
Qed.

Lemma appends_getConfig (strapi : Strapi W) (helpers : Helpers)
  (p d : JsVal) (useLocal : bool) :
  appends (getConfig strapi helpers p d useLocal).
Proof.
  unfold getConfig. apply appends_bind.
  - intro st. exists []. destruct (store_get_config strapi (fst st)).
    simpl. now rewrite app_nil_r.
  - intro a. apply appends_ret.
Qed.

Lemma appends_thread_summary (strapi : Strapi W) (helpers : Helpers)
  (entry : Obj) :
  appends (thread_summary strapi helpers entry).
Proof.
  unfold thread_summary. apply appends_bind.
  - apply appends_call.
  - intros [l c]. apply appends_ret.
Qed.

Lemma appends_findRelatedEntitiesFor (strapi : Strapi W)
  (entities : list Obj) (helpers : Helpers) :
  appends (findRelatedEntitiesFor strapi helpers entities).
Proof.
  unfold findRelatedEntitiesFor.
  destruct (related_groups helpers entities) as [e|data];
    [apply appends_throw|].
  apply appends_bind.
  - apply appends_promise_all. apply Forall_forall. intros m Hm.
    apply in_map_iff in Hm. destruct Hm as [[uid ids] [<- _]].
    apply appends_bind; [apply appends_call | intro; apply appends_ret].
  - intro. apply appends_ret.
Qed.

End Log.

(** ** The course of findAllFlat *)

Section FindAllFlat.

Context {W : Type}.
Variable strapi : Strapi W.
Variable helpers : Helpers.
Variables (query populate : Obj) (sort : SortArg) (pagination : option Obj).
Variable relatedEntity : JsVal.

Let uid := getModelUid helpers "comment".
Let args := findMany_args helpers query populate sort pagination.
Let cargs : Obj := [("where", VObj (spread [] query))].

(** What follows the main query only adds to the log. *)
Lemma appends_after_entries (entries : list Obj) (meta : Obj) :
  appends
    (entriesWithThreads <-
       promise_all (map (thread_summary strapi helpers) entries) ;;
     relatedEntities <-
       match relatedEntity with
       | VNull | VUndefined =>
           found <- findRelatedEntitiesFor strapi helpers entries ;;
           ret (map VObj found)
       | _ => ret [relatedEntity]
       end ;;
     ret (respond (map (annotate helpers query entriesWithThreads) entries)
            relatedEntities meta)).
Proof.
  apply appends_bind.
  - apply appends_promise_all, Forall_forall. intros m Hm.
    apply in_map_iff in Hm. destruct Hm as [e [<- _]].
    apply appends_thread_summary.
  - intro ews. apply appends_bind; [|intro; apply appends_ret].
    destruct relatedEntity; try apply appends_ret;
      (apply appends_bind;
       [apply appends_findRelatedEntitiesFor | intro; apply appends_ret]).
Qed.

(** The first store call of [findAllFlat] is the main query. *)
Lemma findAllFlat_first_call (st : St W) :
  exists rest,
    snd (snd (findAllFlat strapi helpers query populate sort pagination
                relatedEntity st))
    = snd st ++ CFindMany uid args :: rest.
Proof.
  unfold findAllFlat. fold uid args cargs.
  unfold bind at 1. unfold call at 1.
  destruct (q_findMany (db strapi) uid args (fst st)) as [[entries|e|] w1];
    try (exists []; reflexivity).
  match goal with
  | |- exists rest, snd (snd (?k ?s)) = _ =>
      assert (Hk : appends k)
  end.
  { apply appends_bind.
    - destruct (withCount_requested pagination); [|apply appends_ret].
      apply appends_bind; [apply appends_call | intro; apply appends_ret].
    - intro meta. apply appends_after_entries. }
  destruct (Hk (w1, snd st ++ [CFindMany uid args])) as [rest Hrest].
  exists rest. rewrite Hrest. simpl. now rewrite <- app_assoc.
Qed.

(** When the main query resolves and a count is requested, the count is the
    next call, on the same criteria. *)
Lemma findAllFlat_count_call (st : St W) (entries : list Obj) (w1 : W) :
  q_findMany (db strapi) uid args (fst st) = (Resolved entries, w1) ->
  withCount_requested pagination = true ->
  exists rest,
    snd (snd (findAllFlat strapi helpers query populate sort pagination
                relatedEntity st))
    = snd st ++ CFindMany uid args :: CCount uid cargs :: rest.
Proof.
  intros Hfind Hwc.
  unfold findAllFlat. fold uid args cargs.
  unfold bind at 1. unfold call at 1. rewrite Hfind, Hwc.
  unfold bind at 1. unfold bind at 1. unfold call at 1. cbn [fst snd].
  destruct (q_count (db strapi) uid cargs w1) as [[total|e|] w2];
    try (exists []; cbn [fst snd]; now rewrite <- app_assoc).
  unfold ret at 1.
  match goal with
  | |- exists rest, snd (snd (?k ?s)) = _ =>
      destruct (appends_after_entries entries
                  (meta_with_count (meta_of pagination) total) s)
        as [rest Hrest]
  end.
  exists rest. rewrite Hrest. cbn [fst snd]. now rewrite <- !app_assoc.
Qed.

(** How a resolved [findAllFlat] came to its response. *)
Lemma findAllFlat_resolved (st st' : St W) (r : Obj) :
  findAllFlat strapi helpers query populate sort pagination relatedEntity st
  = (Resolved r, st') ->
  exists entries w1 meta entriesWithThreads relatedEntities,
    q_findMany (db strapi) uid args (fst st) = (Resolved entries, w1) /\
    (if withCount_requested pagination
     then exists total w2,
         q_count (db strapi) uid cargs w1 = (Resolved total, w2) /\
         meta = meta_with_count (meta_of pagination) total
     else meta = meta_of pagination) /\
    (if isNil relatedEntity
     then exists found, relatedEntities = map VObj found
     else relatedEntities = [relatedEntity]) /\
    r = respond (map (annotate helpers query entriesWithThreads) entries)
          relatedEntities meta.
Proof.
  unfold findAllFlat. fold uid args cargs.
  unfold bind at 1. unfold call at 1.
  destruct (q_findMany (db strapi) uid args (fst st)) as [[entries|e|] w1];
    try discriminate.
  intro H. exists entries, w1.
  unfold bind at 1 in H.
  destruct (withCount_requested pagination).
  - unfold bind at 1 in H. unfold call at 1 in H. cbn [fst snd] in H.
    destruct (q_count (db strapi) uid cargs w1) as [[total|e|] w2];
      try discriminate.
    unfold ret at 1 in H. unfold bind at 1 in H.
    match type of H with
    | context [promise_all ?ms ?s] =>
        destruct (promise_all ms s) as [[ews|e|] s1]; try discriminate
    end.
    exists (meta_with_count (meta_of pagination) total), ews.
    unfold bind at 1 in H.
    destruct relatedEntity;
      try (injection H as <- _; eexists; repeat split; eauto; fail);
      (unfold bind at 1 in H;
       match type of H with
       | context [findRelatedEntitiesFor ?a ?b ?c ?s] =>
           destruct (findRelatedEntitiesFor a b c s) as [[found|e|] s2];
           try discriminate
       end;
       injection H as <- _; exists (map VObj found);
       repeat split; simpl; eauto).
  - unfold ret at 1 in H. unfold bind at 1 in H.
    match type of H with
    | context [promise_all ?ms ?s] =>
        destruct (promise_all ms s) as [[ews|e|] s1]; try discriminate
    end.
    exists (meta_of pagination), ews.
    unfold bind at 1 in H.
    destruct relatedEntity;
      try (injection H as <- _; eexists; repeat split; eauto; fail);
      (unfold bind at 1 in H;
       match type of H with
       | context [findRelatedEntitiesFor ?a ?b ?c ?s] =>
           destruct (findRelatedEntitiesFor a b c s) as [[found|e|] s2];
           try discriminate
       end;
       injection H as <- _; exists (map VObj found);
       repeat split; simpl; eauto).
Qed.

End FindAllFlat.

(** ** Pagination *)

Lemma lookup_parsed_fold (p : Obj) (k : string) (ks : list string)
  (acc : Obj) :
  lookup k
    (fold_left
       (fun prev curr =>
          spread prev [(curr, VNum (parseInt (oprop p curr)))]) ks acc)
  = if existsb (String.eqb k) ks
    then Some (VNum (parseInt (oprop p k)))
    else lookup k acc.
Proof.
  revert acc. induction ks as [|k0 ks IH]; intro acc; simpl; auto.
  rewrite IH. unfold spread; simpl.
  destruct (existsb (String.eqb k) ks) eqn:E.
  - now rewrite orb_true_r.
  - rewrite orb_false_r. destruct (String.eqb k k0) eqn:E0.
    + apply String.eqb_eq in E0. subst k0. apply lookup_assign_same.
    + apply lookup_assign_other. intro Heq. subst k0.
      now rewrite String.eqb_refl in E0.
Qed.

Lemma oprop_parsedPagination (p : Obj) (k : string) :
  oprop (parsedPagination_of p) k
  = if has k p then VNum (parseInt (oprop p k)) else VUndefined.
Proof.
  unfold oprop at 1, prop, parsedPagination_of.
  rewrite lookup_parsed_fold, <- has_keys.
  now destruct (has k p).
Qed.

Lemma dflt_parsedPagination (p : Obj) (k : string) (d : Z) :
  dflt (oprop (parsedPagination_of p) k) (VNum (Fin d))
  = pagination_value p k d.
Proof.
  rewrite oprop_parsedPagination. unfold pagination_value.
  now destruct (has k p).
Qed.

Lemma paginationByPage_page_based (p : Obj) :
  paginationByPage_of (parsedPagination_of p) = page_based p.
Proof.
  unfold paginationByPage_of, page_based.
  rewrite !oprop_parsedPagination.
  now destruct (has "page" p), (has "pageSize" p).
Qed.

Lemma num_of_pagination_value (p : Obj) (k : string) (d : Z) :
  VNum (num_of (pagination_value p k d)) = pagination_value p k d.
Proof. unfold pagination_value. now destruct (has k p). Qed.

Lemma sort_extension_shape (helpers : Helpers) (sort : SortArg) :
  sort_extension helpers sort = []
  \/ exists v, sort_extension helpers sort = [("orderBy", v)].
Proof.
  destruct sort as [|s|l]; simpl; auto.
  - destruct (negb (String.eqb s "")); [right; eexists; reflexivity | auto].
  - right; eexists; reflexivity.
Qed.

(** The window of the main query. *)
Lemma findMany_args_window (helpers : Helpers) (query populate : Obj)
  (sort : SortArg) (p : Obj) :
  let args := findMany_args helpers query populate sort (Some p) in
  oprop args "offset"
  = (if page_based p
     then VNum (num_mul (num_sub (num_of (pagination_value p "page" 1))
                           (Fin 1))
                  (num_of (pagination_value p "pageSize" 10)))
     else pagination_value p "start" 0)
  /\ oprop args "limit"
     = (if page_based p
        then pagination_value p "pageSize" 10
        else pagination_value p "limit" 10)
  /\ oprop args "where" = VObj (spread [] query).
Proof.
  unfold findMany_args, queryExtension_of, pagination_extension.
  rewrite !dflt_parsedPagination, paginationByPage_page_based.
  generalize (pagination_value p "page" 1) (pagination_value p "pageSize" 10)
             (pagination_value p "start" 0) (pagination_value p "limit" 10).
  intros page pageSize start limit.
  generalize (spread (spread [] defaultPopulate) populate)
             (spread [] query).
  intros pop whr.
  destruct (sort_extension_shape helpers sort) as [-> | [v ->]];
    destruct (page_based p); repeat split; reflexivity.
Qed.

Lemma meta_of_pagination (p : Obj) :
  meta_of (Some p)
  = [("pagination",
      VObj (if page_based p
            then [("page", pagination_value p "page" 1);
                  ("pageSize", pagination_value p "pageSize" 10)]
            else [("start", pagination_value p "start" 0);
                  ("limit", pagination_value p "limit" 10)]))].
Proof.
  unfold meta_of.
  rewrite !dflt_parsedPagination, paginationByPage_page_based.
  now destruct (page_based p).
Qed.

(** The [meta] of a response is the metadata, when there is any. *)
Lemma respond_meta (result : list Obj) (relatedEntities : list JsVal)
  (meta : Obj) :
  oprop (respond result relatedEntities meta) "meta"
  = if isEmpty meta then VUndefined else VObj meta.
Proof. unfold respond. now destruct meta. Qed.

Lemma respond_data (result : list Obj) (relatedEntities : list JsVal)
  (meta : Obj) :
  oprop (respond result relatedEntities meta) "data"
  = VArr (map VObj
            (if Nat.ltb 0 (List.length (filter truthy relatedEntities))
             then map (fun e => mergeRelatedEntityTo e relatedEntities) result
             else result)).
Proof. unfold respond. now destruct meta. Qed.

Lemma pagination_value_string (p : Obj) (k : string) (d z : Z) :
  oprop p k = VStr (string_of_Z z) -> pagination_value p k d = VNum (Fin z).
Proof.
  intro H. unfold pagination_value, has.
  unfold oprop, prop in H.
  destruct (lookup k p) as [v|] eqn:E; [|discriminate].
  unfold oprop, prop. rewrite E, H.
  now destruct (parseInt_decimal z) as [-> _].
Qed.

(** The pagination part of the metadata, with or without a count. *)
Lemma meta_pagination_keys (p : Obj) (meta : Obj) :
  meta = meta_of (Some p)
  \/ (exists total, meta = meta_with_count (meta_of (Some p)) total) ->
  let pag := prop (VObj meta) "pagination" in
  if page_based p
  then prop pag "page" = pagination_value p "page" 1
       /\ prop pag "pageSize" = pagination_value p "pageSize" 10
       /\ prop pag "start" = VUndefined /\ prop pag "limit" = VUndefined
  else prop pag "start" = pagination_value p "start" 0
       /\ prop pag "limit" = pagination_value p "limit" 10
       /\ prop pag "page" = VUndefined /\ prop pag "pageSize" = VUndefined.
Proof.
  rewrite meta_of_pagination.
  generalize (pagination_value p "page" 1) (pagination_value p "pageSize" 10)
             (pagination_value p "start" 0) (pagination_value p "limit" 10).
  intros page pageSize start limit [-> | [total ->]];
    unfold meta_with_count; destruct (page_based p); cbn;
    repeat split; reflexivity.
Qed.

(** C4. Pagination in [findAllFlat], for every pagination object [p]: the
    first store call is the main query; with a [page] or [pageSize] key it
    asks for offset [(page - 1) * pageSize] and limit [pageSize] (missing
    values: page 1, pageSize 10), and the metadata of the response carries
    [page] and [pageSize]; otherwise it asks for offset [start] and limit
    [limit] (missing values: 0 and 10), and the metadata carries [start] and
    [limit].  Without a count the metadata is exactly that pair.  Every value
    goes through [parseInt], so a value given as the decimal string of an
    integer counts as that integer. *)
Theorem findAllFlat_pagination {W : Type} (strapi : Strapi W)
  (helpers : Helpers) (query populate : Obj) (sort : SortArg) (p : Obj)
  (relatedEntity : JsVal) (st : St W) :
  let args := findMany_args helpers query populate sort (Some p) in
  let run :=
    findAllFlat strapi helpers query populate sort (Some p) relatedEntity st in
  let page := pagination_value p "page" 1 in
  let pageSize := pagination_value p "pageSize" 10 in
  let start := pagination_value p "start" 0 in
  let limit := pagination_value p "limit" 10 in
  (exists rest,
      snd (snd run)
      = snd st ++ CFindMany (getModelUid helpers "comment") args :: rest)
  /\ oprop args "offset"
     = (if page_based p
        then VNum (num_mul (num_sub (num_of page) (Fin 1)) (num_of pageSize))
        else start)
  /\ oprop args "limit" = (if page_based p then pageSize else limit)
  /\ (forall r, fst run = Resolved r ->
        let pag := prop (oprop r "meta") "pagination" in
        (if page_based p
         then prop pag "page" = page /\ prop pag "pageSize" = pageSize
              /\ prop pag "start" = VUndefined /\ prop pag "limit" = VUndefined
         else prop pag "start" = start /\ prop pag "limit" = limit
              /\ prop pag "page" = VUndefined
              /\ prop pag "pageSize" = VUndefined)
        /\ (withCount_requested (Some p) = false ->
            oprop r "meta"
            = VObj [("pagination",
                     VObj (if page_based p
                           then [("page", page); ("pageSize", pageSize)]
                           else [("start", start); ("limit", limit)]))]))
  /\ (forall k d z,
        oprop p k = VStr (string_of_Z z) ->
        pagination_value p k d = VNum (Fin z)).
Proof.
  intros args run page pageSize start limit.
  split; [apply findAllFlat_first_call|].
  destruct (findMany_args_window helpers query populate sort p)
    as (Hoff & Hlim & _).
  split; [exact Hoff|]. split; [exact Hlim|].
  split; [|intros k d z; apply pagination_value_string].
  intros r Hr. subst run. 
  destruct (findAllFlat strapi helpers query populate sort (Some p)
              relatedEntity st) as [o st'] eqn:Hrun.
  simpl in Hr. subst o.
  apply findAllFlat_resolved in Hrun.
  destruct Hrun as (entries & w1 & meta & ews & rels & _ & Hmeta & _ & ->).
  rewrite respond_meta.
  assert (Hm : meta = meta_of (Some p)
               \/ exists total,
                    meta = meta_with_count (meta_of (Some p)) total).
  { destruct (withCount_requested (Some p)); auto.
    destruct Hmeta as (total & _ & _ & ->). eauto. }
  assert (Hne : isEmpty meta = false).
  { destruct Hm as [-> | [total ->]]; rewrite meta_of_pagination;
      reflexivity. }
  rewrite Hne. split.
  - apply (meta_pagination_keys p meta Hm).
  - intro Hwc. rewrite Hwc in Hmeta. subst meta.
    now rewrite meta_of_pagination.
Qed.

Lemma findAllFlat_pagination_witness :
  let p := [("page", VStr "2"); ("pageSize", VStr "5")] in
  let run :=
    findAllFlat MemStore.plain MemStore.helpers [] [] NoSort (Some p) VNull
      (MemStore.ten_comments, []) in
  exists r,
    fst run = Resolved r
    /\ oprop r "meta"
       = VObj [("pagination",
                VObj [("page", VNum (Fin 2)); ("pageSize", VNum (Fin 5))])]
    /\ map (fun c => oprop c "id") (objects_of (oprop r "data"))
       = map MemStore.num [6; 7; 8; 9; 10]%Z.
Proof.
  intros p run. eexists. split; [vm_compute; reflexivity|].
  split; [|vm_compute; reflexivity].
  destruct (findAllFlat_pagination MemStore.plain MemStore.helpers [] []
              NoSort p VNull (MemStore.ten_comments, []))
    as (_ & _ & _ & H & _).
  match goal with
  | |- oprop ?r _ = _ => destruct (H r eq_refl) as [_ Hmeta]
  end.
  exact (Hmeta eq_refl).
Defined.

(** ** The count *)

Lemma withCount_requested_iff (p : Obj) :
  withCount_requested (Some p) = true
  <-> oprop p "withCount" = VBool true \/ oprop p "withCount" = VStr "true".
Proof.
  unfold withCount_requested. split.
  - destruct (oprop p "withCount") as [| |[|]|n|s|l|o]; simpl;
      try discriminate; auto.
    + destruct n as [z| |b]; try destruct (negb (z =? 0)%Z); discriminate.
    + rewrite orb_false_r. intro H. apply andb_true_iff in H.
      destruct H as [_ H]. apply String.eqb_eq in H. subst. auto.
  - intros [-> | ->]; reflexivity.
Qed.

Lemma meta_with_count_keys (p : Obj) (total : JsNum) :
  let pag :=
    prop (VObj (meta_with_count (meta_of (Some p)) total)) "pagination" in
  let pageSize := num_of (pagination_value p "pageSize" 10) in
  let pageCount := num_floor_div total pageSize in
  prop pag "total" = VNum total
  /\ prop pag "pageCount"
     = (if page_based p
        then (if num_strict_eq (num_rem total pageSize) (Fin 0)
              then VNum pageCount
              else VNum (num_add pageCount (Fin 1)))
        else VUndefined).
Proof.
  rewrite meta_of_pagination. unfold meta_with_count.
  destruct (page_based p); cbn -[num_floor_div num_rem num_add num_strict_eq].
  - unfold pagination_value. destruct (has "page" p); split; reflexivity.
  - split; reflexivity.
Qed.

(** Floor of the quotient, and one more unless the division is exact. *)
Lemma pageCount_formula (t s : Z) :
  s <> 0%Z ->
  (if num_strict_eq (num_rem (Fin t) (Fin s)) (Fin 0)
   then VNum (num_floor_div (Fin t) (Fin s))
   else VNum (num_add (num_floor_div (Fin t) (Fin s)) (Fin 1)))
  = VNum (Fin (t / s + (if (t mod s =? 0)%Z then 0 else 1))).
Proof.
  intro Hs. simpl. apply Z.eqb_neq in Hs. rewrite Hs.
  apply Z.eqb_neq in Hs. simpl.
  destruct (Z.rem t s =? 0)%Z eqn:E1; destruct (t mod s =? 0)%Z eqn:E2;
    try (f_equal; f_equal; lia).
  - apply Z.eqb_eq in E1. apply Z.eqb_neq in E2.
    apply Z.rem_divide in E1; auto. apply Z.mod_divide in E1; auto.
    contradiction.
  - apply Z.eqb_neq in E1. apply Z.eqb_eq in E2.
    apply Z.mod_divide in E2; auto. apply Z.rem_divide in E2; auto.
    contradiction.
Qed.

(** C5. A count in [findAllFlat]: when [withCount] is [true] or ["true"] and
    the main query resolves, the next store call counts the comments under
    the criteria of the main query; a response then carries the total the
    count gave and, under page-based pagination, a [pageCount] that is the
    floor of total over pageSize, plus one unless the remainder is zero;
    under offset pagination [pageCount] is [undefined]. *)
Theorem findAllFlat_withCount {W : Type} (strapi : Strapi W)
  (helpers : Helpers) (query populate : Obj) (sort : SortArg) (p : Obj)
  (relatedEntity : JsVal) (st : St W) (entries : list Obj) (w1 : W) :
  let uid := getModelUid helpers "comment" in
  let args := findMany_args helpers query populate sort (Some p) in
  let run :=
    findAllFlat strapi helpers query populate sort (Some p) relatedEntity st in
  let pageSize := num_of (pagination_value p "pageSize" 10) in
  oprop p "withCount" = VBool true \/ oprop p "withCount" = VStr "true" ->
  q_findMany (db strapi) uid args (fst st) = (Resolved entries, w1) ->
  (exists rest,
      snd (snd run)
      = snd st ++ CFindMany uid args
               :: CCount uid [("where", oprop args "where")] :: rest)
  /\ (forall r, fst run = Resolved r ->
        exists total w2,
          q_count (db strapi) uid [("where", oprop args "where")] w1
          = (Resolved total, w2)
          /\ prop (prop (oprop r "meta") "pagination") "total" = VNum total
          /\ prop (prop (oprop r "meta") "pagination") "pageCount"
             = (if page_based p
                then (if num_strict_eq (num_rem total pageSize) (Fin 0)
                      then VNum (num_floor_div total pageSize)
                      else VNum (num_add (num_floor_div total pageSize)
                                   (Fin 1)))
                else VUndefined))
  /\ (forall t s,
        s <> 0%Z ->
        (if num_strict_eq (num_rem (Fin t) (Fin s)) (Fin 0)
         then VNum (num_floor_div (Fin t) (Fin s))
         else VNum (num_add (num_floor_div (Fin t) (Fin s)) (Fin 1)))
        = VNum (Fin (t / s + (if (t mod s =? 0)%Z then 0 else 1)))).
Proof.
  intros uid args run pageSize Hwc Hfind.
  apply withCount_requested_iff in Hwc.
  destruct (findMany_args_window helpers query populate sort p)
    as (_ & _ & Hwhere).
  fold args in Hwhere. rewrite Hwhere.
  split; [|split; [|apply pageCount_formula]].
  - apply (findAllFlat_count_call strapi helpers query populate sort
             (Some p) relatedEntity st entries w1 Hfind Hwc).
  - intros r Hr. subst run.
    destruct (findAllFlat strapi helpers query populate sort (Some p)
                relatedEntity st) as [o st'] eqn:Hrun.
    simpl in Hr. subst o.
    apply findAllFlat_resolved in Hrun.
    destruct Hrun as (entries' & w1' & meta & ews & rels & Hf & Hmeta & _ & ->).
    fold uid args in Hf. rewrite Hfind in Hf. injection Hf as <- <-.
    rewrite Hwc in Hmeta. destruct Hmeta as (total & w2 & Hcount & ->).
    exists total, w2. split; [exact Hcount|].
    rewrite respond_meta.
    replace (isEmpty (meta_with_count (meta_of (Some p)) total)) with false
      by (rewrite meta_of_pagination; reflexivity).
    apply meta_with_count_keys.
Qed.

Lemma findAllFlat_withCount_witness :
  let p := [("page", VStr "1"); ("pageSize", VStr "3");
            ("withCount", VStr "true")] in
  let run :=
    findAllFlat MemStore.plain MemStore.helpers [] [] NoSort (Some p) VNull
      (MemStore.ten_comments, []) in
  (exists r,
      fst run = Resolved r
      /\ prop (prop (oprop r "meta") "pagination") "total" = VNum (Fin 10)
      /\ prop (prop (oprop r "meta") "pagination") "pageCount" = VNum (Fin 4))
  /\ (if num_strict_eq (num_rem (Fin 11) (Fin 5)) (Fin 0)
      then VNum (num_floor_div (Fin 11) (Fin 5))
      else VNum (num_add (num_floor_div (Fin 11) (Fin 5)) (Fin 1)))
     = VNum (Fin 3)
  /\ (if num_strict_eq (num_rem (Fin 10) (Fin 5)) (Fin 0)
      then VNum (num_floor_div (Fin 10) (Fin 5))
      else VNum (num_add (num_floor_div (Fin 10) (Fin 5)) (Fin 1)))
     = VNum (Fin 2).
Proof.
  intros p run.
  destruct (findAllFlat_withCount MemStore.plain MemStore.helpers [] []
              NoSort p VNull (MemStore.ten_comments, [])
              (firstn 3 (MemStore.table MemStore.comments_uid
                           MemStore.ten_comments))
              MemStore.ten_comments (or_intror eq_refl) eq_refl)
    as (_ & Hmeta & Hformula).
  split.
  - eexists. split; [vm_compute; reflexivity|].
    match goal with
    | |- prop (prop (oprop ?r _) _) _ = _ /\ _ =>
        destruct (Hmeta r eq_refl) as (total & w2 & Hcount & Htotal & Hpc)
    end.
    vm_compute in Hcount. injection Hcount as <- <-.
    split; [exact Htotal | exact Hpc].
  - split.
    + exact (Hformula 11%Z 5%Z ltac:(discriminate)).
    + exact (Hformula 10%Z 5%Z ltac:(discriminate)).
Defined.

(** ** Merging the related entities *)

Lemma find_none_all {A} (f : A -> bool) (l : list A) :
  (forall x, In x l -> f x = false) -> find f l = None.
Proof.
  induction l as [|a l IH]; simpl; auto.
  intro H. rewrite (H a) by auto. apply IH. auto.
Qed.

Lemma merge_unmatched (entity : Obj) (relatedEntities : list JsVal) :
  (forall rel, In rel relatedEntities ->
     strict_eq (oprop entity "related")
       (VStr (js_ToString (prop rel "uid") ++ ":" ++
              js_ToString (prop rel "id"))) = false) ->
  oprop (mergeRelatedEntityTo entity relatedEntities) "related" = VUndefined.
Proof.
  intro H. unfold mergeRelatedEntityTo.
  rewrite find_none_all by exact H.
  apply (oprop_assign_same "related" VUndefined entity).
Qed.

(** How a resolved [findAllFlat] came to its response, step by step. *)
Lemma findAllFlat_course {W : Type} (strapi : Strapi W) (helpers : Helpers)
  (query populate : Obj) (sort : SortArg) (pagination : option Obj)
  (relatedEntity : JsVal) (st : St W) (r : Obj) :
  fst (findAllFlat strapi helpers query populate sort pagination
         relatedEntity st) = Resolved r ->
  exists entries entriesWithThreads relatedEntities meta,
    related_of strapi helpers query populate sort pagination relatedEntity st
      entries entriesWithThreads relatedEntities
    /\ r = respond (map (annotate helpers query entriesWithThreads) entries)
             relatedEntities meta.
Proof.
  unfold findAllFlat, related_of.
  set (uid := getModelUid helpers "comment").
  set (args := findMany_args helpers query populate sort pagination).
  set (cargs := [("where", VObj (spread [] query))]).
  unfold bind at 1.
  destruct (call (CFindMany uid args) (q_findMany (db strapi) uid args) st)
    as [[entries|e|] st1] eqn:Emain; try discriminate.
  unfold bind at 1.
  assert (Htail :
            forall meta st2,
              fst ((entriesWithThreads <-
                      promise_all
                        (map (thread_summary strapi helpers) entries) ;;
                    relatedEntities <-
                      match relatedEntity with
                      | VNull | VUndefined =>
                          found <-
                            findRelatedEntitiesFor strapi helpers entries ;;
                          ret (map VObj found)
                      | _ => ret [relatedEntity]
                      end ;;
                    ret (respond
                           (map (annotate helpers query entriesWithThreads)
                                entries)
                           relatedEntities meta)) st2)
              = Resolved r ->
              exists ews rels st3,
                promise_all (map (thread_summary strapi helpers) entries) st2
                = (Resolved ews, st3)
                /\ match relatedEntity with
                   | VNull | VUndefined =>
                       exists found st4,
                         findRelatedEntitiesFor strapi helpers entries st3
                         = (Resolved found, st4)
                         /\ rels = map VObj found
                   | _ => rels = [relatedEntity]
                   end
                /\ r = respond (map (annotate helpers query ews) entries)
                         rels meta).
  { intros meta st2. unfold bind at 1.
    destruct (promise_all (map (thread_summary strapi helpers) entries) st2)
      as [[ews|e|] st3]; try discriminate.
    unfold bind at 1.
    destruct relatedEntity;
      try (intros [= <-]; exists ews; eexists; exists st3;
           split; [reflexivity | split; reflexivity]);
      (unfold bind at 1;
       destruct (findRelatedEntitiesFor strapi helpers entries st3)
         as [[found|e|] st4] eqn:Efound; try discriminate;
       intros [= <-]; exists ews, (map VObj found), st3;
       split; [reflexivity | split; [|reflexivity]];
       exists found, st4; split; [exact Efound | reflexivity]). }
  destruct (withCount_requested pagination).
  - unfold bind at 1.
    destruct (call (CCount uid cargs) (q_count (db strapi) uid cargs) st1)
      as [[total|e|] st2] eqn:Ecount; try discriminate.
    unfold ret at 1. intro H.
    destruct (Htail _ _ H) as (ews & rels & st3 & Ht & Hrel & ->).
    exists entries, ews, rels,
      (meta_with_count (meta_of pagination) total).
    split; [|reflexivity].
    exists st1, st2, st3. repeat split; eauto.
  - unfold ret at 1. intro H.
    destruct (Htail _ _ H) as (ews & rels & st3 & Ht & Hrel & ->).
    exists entries, ews, rels, (meta_of pagination).
    split; [|reflexivity].
    exists st1, st1, st3. repeat split; eauto.
Qed.

(** C10. Whenever [findAllFlat] resolves and its merge step runs (one of the
    related entities is truthy), the comments it returns are the annotated
    entries of the main query, each merged with the related entities, and
    each of them whose [related] token is not the ["<uid>:<id>"] of any
    related entity has [related] set to [undefined].  The related entities
    are the records [findRelatedEntitiesFor] fetched for the entries, in
    the course of this very run, or the supplied one alone when one is
    supplied. *)
Theorem unmatched_related_is_undefined {W : Type} (strapi : Strapi W)
  (helpers : Helpers) (query populate : Obj) (sort : SortArg)
  (pagination : option Obj) (relatedEntity : JsVal) (st : St W) (r : Obj) :
  fst (findAllFlat strapi helpers query populate sort pagination
         relatedEntity st) = Resolved r ->
  exists (entries entriesWithThreads : list Obj)
         (relatedEntities : list JsVal),
    let result := map (annotate helpers query entriesWithThreads) entries in
    related_of strapi helpers query populate sort pagination relatedEntity st
      entries entriesWithThreads relatedEntities
    /\ (Nat.ltb 0 (List.length (filter truthy relatedEntities)) = true ->
        oprop r "data"
        = VArr (map VObj
                  (map (fun e => mergeRelatedEntityTo e relatedEntities)
                       result))
        /\ forall e, In e result ->
             (forall rel, In rel relatedEntities ->
                strict_eq (oprop e "related")
                  (VStr (js_ToString (prop rel "uid") ++ ":" ++
                         js_ToString (prop rel "id"))) = false) ->
             oprop (mergeRelatedEntityTo e relatedEntities) "related"
             = VUndefined).
Proof.
  intro Hr. apply findAllFlat_course in Hr.
  destruct Hr as (entries & ews & rels & meta & Hcourse & ->).
  exists entries, ews, rels. split; [exact Hcourse|].
  intro Hmerge. split.
  - now rewrite respond_data, Hmerge.
  - intros e _. apply merge_unmatched.
Qed.

Lemma unmatched_related_is_undefined_witness :
  let article := VObj [("id", VNum (Fin 1)); ("title", VStr "T");
                       ("uid", VStr "article")] in
  let supplied := VObj [("id", VNum (Fin 7)); ("uid", VStr "article")] in
  let st : St MemStore.World := (MemStore.two_comments, []) in
  exists fetched given,
    fst (findAllFlat MemStore.plain MemStore.helpers [] [] NoSort None
           VNull st) = Resolved fetched
    /\ map (fun c => oprop c "related") (objects_of (oprop fetched "data"))
       = [article; VUndefined]
    /\ fst (findAllFlat MemStore.plain MemStore.helpers [] [] NoSort None
              supplied st) = Resolved given
    /\ map (fun c => oprop c "related") (objects_of (oprop given "data"))
       = [VUndefined; supplied]
    /\ (exists entries entriesWithThreads relatedEntities,
          related_of MemStore.plain MemStore.helpers [] [] NoSort None VNull
            st entries entriesWithThreads relatedEntities
          /\ (Nat.ltb 0 (List.length (filter truthy relatedEntities)) = true
              -> oprop fetched "data"
                 = VArr (map VObj
                           (map (fun e =>
                                   mergeRelatedEntityTo e relatedEntities)
                                (map (annotate MemStore.helpers []
                                        entriesWithThreads) entries)))))
    /\ (exists entries entriesWithThreads relatedEntities,
          related_of MemStore.plain MemStore.helpers [] [] NoSort None
            supplied st entries entriesWithThreads relatedEntities
          /\ (Nat.ltb 0 (List.length (filter truthy relatedEntities)) = true
              -> oprop given "data"
                 = VArr (map VObj
                           (map (fun e =>
                                   mergeRelatedEntityTo e relatedEntities)
                                (map (annotate MemStore.helpers []
                                        entriesWithThreads) entries))))).
Proof.
  intros article supplied st. eexists. eexists.
  split; [vm_compute; reflexivity|].
  split; [vm_compute; reflexivity|].
  split; [vm_compute; reflexivity|].
  split; [vm_compute; reflexivity|].
  split.
  - destruct (unmatched_related_is_undefined MemStore.plain MemStore.helpers
                [] [] NoSort None VNull st _ eq_refl)
      as (entries & ews & rels & Hcourse & Hmerge).
    exists entries, ews, rels. split; [exact Hcourse|].
    intro H. exact (proj1 (Hmerge H)).
  - destruct (unmatched_related_is_undefined MemStore.plain MemStore.helpers
                [] [] NoSort None supplied st _ eq_refl)
      as (entries & ews & rels & Hcourse & Hmerge).
    exists entries, ews, rels. split; [exact Hcourse|].
    intro H. exact (proj1 (Hmerge H)).
Defined.

(** ** The moderation filter *)

(** C7. [checkBadWords], once the bad-words configuration has been read:
    the call fails, with a 400 error that carries the original and the
    cleaned text, exactly when the configuration is truthy, the content is
    truthy (present and not empty) and the filter finds it profane; in every
    other case it returns the content as it is.  Checking a text the filter
    finds clean, and then checking what that returned, gives the text
    again. *)
Theorem checkBadWords_spec {W : Type} (strapi : Strapi W) (helpers : Helpers)
  (content config : JsVal) (st st1 : St W) :
  getConfig strapi helpers (BAD_WORDS helpers) (VBool true) false st
  = (Resolved config, st1) ->
  let filter := if isObject config then config else VUndefined in
  let profane :=
    (truthy config && (truthy content && isProfane helpers filter content))%bool
  in
  checkBadWords strapi helpers content st
  = (if profane
     then Rejected
            (PluginError 400
               "Bad language used! Please polite your comment..."
               (VObj [("content",
                       VObj [("original", content);
                             ("filtered", clean helpers filter content)])]))
     else Resolved content,
     st1)
  /\ (forall config2 st2,
        (forall f, isProfane helpers f content = false) ->
        getConfig strapi helpers (BAD_WORDS helpers) (VBool true) false st1
        = (Resolved config2, st2) ->
        (c1 <- checkBadWords strapi helpers content ;;
         checkBadWords strapi helpers c1) st
        = (Resolved content, st2)).
Proof.
  intros Hcfg filter profane.
  assert (Hone : forall c s s' x,
             getConfig strapi helpers (BAD_WORDS helpers) (VBool true) false s
             = (Resolved c, s') ->
             (forall f, isProfane helpers f x = false) ->
             checkBadWords strapi helpers x s = (Resolved x, s')).
  { intros c s s' x Hc Hclean. unfold checkBadWords, bind. rewrite Hc.
    rewrite Hclean, andb_false_r. now destruct (truthy c). }
  split.
  - unfold checkBadWords, bind. rewrite Hcfg. subst profane filter.
    destruct (truthy config); simpl; auto.
    destruct (truthy content) eqn:Hc; simpl; auto.
    destruct (isProfane helpers _ content); auto.
    unfold js_and. now rewrite Hc.
  - intros config2 st2 Hclean Hcfg2. unfold bind at 1.
    rewrite (Hone config st st1 content Hcfg Hclean).
    apply (Hone config2 st1 st2 content Hcfg2 Hclean).
Qed.

Lemma checkBadWords_spec_witness :
  let st : St MemStore.World := ([], []) in
  checkBadWords MemStore.plain MemStore.helpers (VStr "a darn day") st
  = (Rejected
       (PluginError 400 "Bad language used! Please polite your comment..."
          (VObj [("content",
                  VObj [("original", VStr "a darn day");
                        ("filtered", VStr "****")])])),
     st)
  /\ checkBadWords MemStore.plain MemStore.helpers (VStr "a fine day") st
     = (Resolved (VStr "a fine day"), st)
  /\ checkBadWords MemStore.plain MemStore.helpers VUndefined st
     = (Resolved VUndefined, st)
  /\ checkBadWords MemStore.plain MemStore.helpers (VStr "") st
     = (Resolved (VStr ""), st).
Proof.
  intro st.
  pose proof (fun content =>
                proj1 (checkBadWords_spec MemStore.plain MemStore.helpers
                         content (VBool true) st st eq_refl)) as H.
  exact (conj (H (VStr "a darn day"))
           (conj (H (VStr "a fine day"))
              (conj (H VUndefined) (H (VStr ""))))).
Defined.

(** ** findOne *)

Lemma resolved_reports_removed_reports (item : Obj) :
  exists reports,
    oprop (resolved_reports_removed item) "reports" = VArr reports
    /\ reports
       = filter (fun report => negb (truthy (prop report "resolved")))
           match oprop item "reports" with VArr l => l | _ => [] end
    /\ (forall report, In report reports ->
          truthy (prop report "resolved") = false)
    /\ (forall k, k <> "reports" ->
          oprop (resolved_reports_removed item) k = oprop item k).
Proof.
  eexists. split; [|split; [reflexivity|split]].
  - unfold resolved_reports_removed.
    apply (oprop_assign_same "reports" _ item).
  - intros report Hin. apply filter_In in Hin. destruct Hin as [_ H].
    now apply negb_true_iff in H.
  - intros k Hk. unfold resolved_reports_removed.
    now apply (oprop_assign_other k "reports" _ item).
Qed.

(** C8. [findOne], for every criteria: one store call, the single-record
    lookup; when it yields no record the call fails with the 404 error, when
    it yields a record the call returns the sanitized record passed through
    the report filter, and what the store itself rejects with goes through
    unchanged.  So, the store raising no plugin errors of its own, the 404
    is raised exactly when the lookup yields no record.  With the report
    filter of the specification, the reports of the returned comment are
    those of the sanitized record that are not resolved, and nothing else
    changes. *)
Theorem findOne_spec {W : Type} (strapi : Strapi W) (helpers : Helpers)
  (criteria : JsVal) (st : St W) :
  let uid := getModelUid helpers "comment" in
  let args :=
    [("where", criteria);
     ("populate", VObj [("reports", VBool true); ("authorUser", VBool true)])]
  in
  let answer := q_findOne (db strapi) uid args (fst st) in
  let notFound :=
    PluginError 404 "Comment does not exist. Check your payload please."
      VUndefined in
  findOne strapi helpers criteria st
  = (match fst answer with
     | Resolved None => Rejected notFound
     | Resolved (Some entity) =>
         Resolved (filterOurResolvedReports helpers
                     (sanitizeCommentEntity helpers entity))
     | Rejected e => Rejected e
     | Pending => Pending
     end,
     (snd answer, snd st ++ [CFindOne uid args]))
  /\ ((forall status message payload,
          fst answer <> Rejected (PluginError status message payload)) ->
      (exists message payload,
          fst (findOne strapi helpers criteria st)
          = Rejected (PluginError 404 message payload))
      <-> fst answer = Resolved None)
  /\ (filterOurResolvedReports helpers = resolved_reports_removed ->
      forall entity,
        fst answer = Resolved (Some entity) ->
        exists r reports,
          fst (findOne strapi helpers criteria st) = Resolved r
          /\ oprop r "reports" = VArr reports
          /\ reports
             = filter (fun report => negb (truthy (prop report "resolved")))
                 match oprop (sanitizeCommentEntity helpers entity) "reports"
                 with
                 | VArr l => l
                 | _ => []
                 end
          /\ (forall report, In report reports ->
                truthy (prop report "resolved") = false)
          /\ (forall k, k <> "reports" ->
                oprop r k = oprop (sanitizeCommentEntity helpers entity) k)).
Proof.
  intros uid args answer notFound.
  assert (E : findOne strapi helpers criteria st
              = (match fst answer with
                 | Resolved None => Rejected notFound
                 | Resolved (Some entity) =>
                     Resolved (filterOurResolvedReports helpers
                                 (sanitizeCommentEntity helpers entity))
                 | Rejected e => Rejected e
                 | Pending => Pending
                 end,
                 (snd answer, snd st ++ [CFindOne uid args]))).
  { unfold findOne, bind, call. fold uid args answer.
    destruct answer as [[[entity|]|e|] w1]; reflexivity. }
  split; [exact E|]. rewrite E. cbn [fst]. split.
  - intro Hstore. split.
    + intros (message & payload & H).
      destruct (fst answer) as [[entity|]|e|]; try discriminate; auto.
      exfalso. apply (Hstore 404%Z message payload). now injection H as ->.
    + intros ->. unfold notFound. eauto.
  - intros Hfilter entity ->. rewrite Hfilter.
    destruct (resolved_reports_removed_reports
                (sanitizeCommentEntity helpers entity))
      as (reports & H1 & H2 & H3 & H4).
    exists (resolved_reports_removed (sanitizeCommentEntity helpers entity)),
      reports.
    auto.
Qed.

Lemma findOne_spec_witness :
  let reported : Obj :=
    [("id", VNum (Fin 1));
     ("reports",
      VArr [VObj [("id", VNum (Fin 11)); ("resolved", VBool true)];
            VObj [("id", VNum (Fin 12)); ("resolved", VBool false)]])] in
  let w : MemStore.World := [(MemStore.comments_uid, [reported])] in
  fst (findOne MemStore.plain MemStore.helpers (VObj [("id", VNum (Fin 2))])
         (w, []))
  = Rejected
      (PluginError 404 "Comment does not exist. Check your payload please."
         VUndefined)
  /\ exists r reports,
       fst (findOne MemStore.plain MemStore.helpers
              (VObj [("id", VNum (Fin 1))]) (w, [])) = Resolved r
       /\ oprop r "reports" = VArr reports
       /\ reports = [VObj [("id", VNum (Fin 12)); ("resolved", VBool false)]].
Proof.
  intros reported w. split.
  - destruct (findOne_spec MemStore.plain MemStore.helpers
                (VObj [("id", VNum (Fin 2))]) (w, [])) as (E & _ & _).
    rewrite E. reflexivity.
  - destruct (findOne_spec MemStore.plain MemStore.helpers
                (VObj [("id", VNum (Fin 1))]) (w, [])) as (_ & _ & H).
    destruct (H eq_refl reported eq_refl)
      as (r & reports & Hr & Hreports & Hfilter & _).
    exists r, reports. split; [exact Hr|]. split; [exact Hreports|].
    rewrite Hfilter. reflexivity.
Defined.

(** ** The cascading update *)

Section Cascade.

Context {W : Type}.
Variable strapi : Strapi W.
Variable helpers : Helpers.
Variables (id : JsVal) (fieldName : string) (value : JsVal).

Let uid := getModelUid helpers "comment".
Let fargs : Obj := [("where", VObj [("threadOf", id)])].
Let uargs (entitiesToChange : list Obj) : Obj :=
  [("where",
    VObj [("id", VArr (map (fun e => oprop e "id") entitiesToChange))]);
   ("data", VObj [(fieldName, value)])].

Lemma cascade_never_rejects (fuel : nat) (st : St W) (e : Error) :
  fst (modifiedNestedNestedComments strapi helpers fuel id fieldName value st)
  <> Rejected e.
Proof.
  destruct fuel as [|n]; [discriminate|].
  cbn [modifiedNestedNestedComments]. unfold try_catch.
  match goal with
  | |- fst (match ?m st with _ => _ end) <> _ =>
      destruct (m st) as [[b|e'|] st1]; discriminate
  end.
Qed.

Lemma cascade_without_bd (n : nat) (st : St W) :
  bd strapi = None ->
  modifiedNestedNestedComments strapi helpers (S n) id fieldName value st
  = (Resolved false, st).
Proof.
  intro H. cbn [modifiedNestedNestedComments]. now rewrite H.
Qed.

Lemma cascade_fetch_error (n : nat) (st : St W) (q : Db W) (e : Error)
  (w1 : W) :
  bd strapi = Some q ->
  q_findMany q uid fargs (fst st) = (Rejected e, w1) ->
  modifiedNestedNestedComments strapi helpers (S n) id fieldName value st
  = (Resolved false, (w1, snd st ++ [CFindMany uid fargs])).
Proof.
  intros Hq Hf. cbn [modifiedNestedNestedComments]. rewrite Hq.
  unfold try_catch, bind at 1, call at 1. fold uid fargs. now rewrite Hf.
Qed.

Lemma cascade_update_error (n : nat) (st : St W) (q : Db W)
  (entitiesToChange : list Obj) (e : Error) (w1 w2 : W) :
  bd strapi = Some q ->
  q_findMany q uid fargs (fst st) = (Resolved entitiesToChange, w1) ->
  q_updateMany q uid (uargs entitiesToChange) w1 = (Rejected e, w2) ->
  modifiedNestedNestedComments strapi helpers (S n) id fieldName value st
  = (Resolved false,
     (w2, snd st ++ [CFindMany uid fargs;
                     CUpdateMany uid (uargs entitiesToChange)])).
Proof.
  intros Hq Hf Hu. cbn [modifiedNestedNestedComments]. rewrite Hq.
  unfold try_catch, bind at 1, call at 1. fold uid fargs. rewrite Hf.
  unfold bind at 1, call at 1. cbn [fst snd].
  fold (uargs entitiesToChange). rewrite Hu.
  unfold ret. now rewrite <- app_assoc.
Qed.

Lemma cascade_count_mismatch (n : nat) (st : St W) (q : Db W)
  (entitiesToChange changedEntities : list Obj) (w1 w2 : W) :
  bd strapi = Some q ->
  q_findMany q uid fargs (fst st) = (Resolved entitiesToChange, w1) ->
  q_updateMany q uid (uargs entitiesToChange) w1
  = (Resolved changedEntities, w2) ->
  List.length entitiesToChange <> List.length changedEntities ->
  modifiedNestedNestedComments strapi helpers (S n) id fieldName value st
  = (Resolved true,
     (w2, snd st ++ [CFindMany uid fargs;
                     CUpdateMany uid (uargs entitiesToChange)])).
Proof.
  intros Hq Hf Hu Hlen. cbn [modifiedNestedNestedComments]. rewrite Hq.
  unfold try_catch, bind at 1, call at 1. fold uid fargs. rewrite Hf.
  unfold bind at 1, call at 1. cbn [fst snd].
  fold (uargs entitiesToChange). rewrite Hu.
  apply Nat.eqb_neq in Hlen. rewrite Hlen. cbn [andb].
  unfold ret. now rewrite <- app_assoc.
Qed.

End Cascade.

(** C2. [modifiedNestedNestedComments] never rejects, whatever the store
    does and however deep the recursion has gone.  A call that gets to run
    returns [false] when the host object has no [bd], when the fetch of the
    children is rejected and when the batch update is rejected; and when the
    update reports a number of records other than the number fetched, it
    returns [true] having made those two store calls and no other: it has
    not gone into any child. *)
Theorem cascade_local_recovery {W : Type} (strapi : Strapi W)
  (helpers : Helpers) (id : JsVal) (fieldName : string) (value : JsVal)
  (n : nat) (st : St W) :
  let uid := getModelUid helpers "comment" in
  let fargs : Obj := [("where", VObj [("threadOf", id)])] in
  let uargs (entitiesToChange : list Obj) : Obj :=
    [("where",
      VObj [("id", VArr (map (fun e => oprop e "id") entitiesToChange))]);
     ("data", VObj [(fieldName, value)])] in
  let run := modifiedNestedNestedComments strapi helpers (S n) id fieldName
               value st in
  (forall fuel st0 e,
      fst (modifiedNestedNestedComments strapi helpers fuel id fieldName value
             st0) <> Rejected e)
  /\ (bd strapi = None -> run = (Resolved false, st))
  /\ (forall q, bd strapi = Some q ->
        (forall e w1,
            q_findMany q uid fargs (fst st) = (Rejected e, w1) ->
            run = (Resolved false, (w1, snd st ++ [CFindMany uid fargs])))
        /\ (forall entitiesToChange w1,
              q_findMany q uid fargs (fst st)
              = (Resolved entitiesToChange, w1) ->
              (forall e w2,
                  q_updateMany q uid (uargs entitiesToChange) w1
                  = (Rejected e, w2) ->
                  run = (Resolved false,
                         (w2, snd st ++
                              [CFindMany uid fargs;
                               CUpdateMany uid (uargs entitiesToChange)])))
              /\ (forall changedEntities w2,
                    q_updateMany q uid (uargs entitiesToChange) w1
                    = (Resolved changedEntities, w2) ->
                    List.length entitiesToChange
                    <> List.length changedEntities ->
                    run = (Resolved true,
                           (w2, snd st ++
                                [CFindMany uid fargs;
                                 CUpdateMany uid (uargs entitiesToChange)]))))).
Proof.
  intros uid fargs uargs run. split; [|split].
  - intros fuel st0 e. apply cascade_never_rejects.
  - intro H. now apply cascade_without_bd.
  - intros q Hq. split.
    + intros e w1 Hf. now apply (cascade_fetch_error _ _ _ _ _ n st q e w1).
    + intros l w1 Hf. split.
      * intros e w2 Hu.
        now apply (cascade_update_error _ _ _ _ _ n st q l e w1 w2).
      * intros l' w2 Hu Hlen.
        now apply (cascade_count_mismatch _ _ _ _ _ n st q l l' w1 w2).
Qed.

Lemma cascade_local_recovery_witness :
  let uid := MemStore.comments_uid in
  let blocked : Obj := [("blockedThread", VBool true)] in
  exists w2,
    modifiedNestedNestedComments MemStore.lossy MemStore.helpers 5
      (MemStore.num 1) "blockedThread" (VBool true) (MemStore.thread, [])
    = (Resolved true,
       (w2,
        [CFindMany uid [("where", VObj [("threadOf", MemStore.num 1)])];
         CUpdateMany uid
           [("where", VObj [("id", VArr [MemStore.num 2; MemStore.num 3])]);
            ("data", VObj blocked)]]))
    /\ MemStore.select uid [("where", VObj blocked)] w2
       = [spread (MemStore.comment 2 (MemStore.num 1) "article:1") blocked;
          spread (MemStore.comment 3 (MemStore.num 1) "article:1") blocked].
Proof.
  intros uid blocked.
  destruct (cascade_local_recovery MemStore.lossy MemStore.helpers
              (MemStore.num 1) "blockedThread" (VBool true) 4
              (MemStore.thread, [])) as (_ & _ & H).
  destruct (H _ eq_refl) as [_ Hfound].
  destruct (Hfound _ _ eq_refl) as [_ Hmismatch].
  eexists. split.
  - apply (Hmismatch _ _ eq_refl). vm_compute. discriminate.
  - vm_compute. reflexivity.
Defined.

Lemma promise_all_length {W A : Type} (ms : list (M W A)) (st st' : St W)
  (l : list A) :
  promise_all ms st = (Resolved l, st') -> List.length l = List.length ms.
Proof.
  revert st st' l. induction ms as [|m ms IH]; intros st st' l; simpl.
  - unfold ret. now intros [= <- _].
  - destruct (m st) as [r st1].
    destruct (promise_all ms st1) as [rs st2] eqn:E.
    destruct r as [a|e|]; destruct rs as [l0|e0|]; try discriminate.
    intros [= <- _]. simpl. f_equal. eapply IH; eauto.
Qed.

(** X17. Once the counts agree and every child call has settled, the answer
    is [true], whatever the children answered: a child that answered
    [false] does not make its parent answer [false]. *)
Lemma cascade_children_ignored {W : Type} (strapi : Strapi W)
  (helpers : Helpers) (id : JsVal) (fieldName : string) (value : JsVal)
  (n : nat) (st st3 : St W) (q : Db W)
  (entitiesToChange changedEntities : list Obj) (w1 w2 : W)
  (nestedTransactions : list bool) :
  let uid := getModelUid helpers "comment" in
  let fargs : Obj := [("where", VObj [("threadOf", id)])] in
  let uargs : Obj :=
    [("where",
      VObj [("id", VArr (map (fun e => oprop e "id") entitiesToChange))]);
     ("data", VObj [(fieldName, value)])] in
  bd strapi = Some q ->
  q_findMany q uid fargs (fst st) = (Resolved entitiesToChange, w1) ->
  q_updateMany q uid uargs w1 = (Resolved changedEntities, w2) ->
  List.length entitiesToChange = List.length changedEntities ->
  (0 < List.length changedEntities)%nat ->
  promise_all
    (map (fun item =>
            modifiedNestedNestedComments strapi helpers n (oprop item "id")
              fieldName value) changedEntities)
    (w2, snd st ++ [CFindMany uid fargs; CUpdateMany uid uargs])
  = (Resolved nestedTransactions, st3) ->
  modifiedNestedNestedComments strapi helpers (S n) id fieldName value st
  = (Resolved true, st3).
Proof.
  intros uid fargs uargs Hq Hf Hu Hlen Hpos Hall.
  cbn [modifiedNestedNestedComments]. rewrite Hq.
  unfold try_catch, bind at 1, call at 1. fold uid fargs. rewrite Hf.
  unfold bind at 1, call at 1. cbn [fst snd]. fold uargs. rewrite Hu.
  apply Nat.eqb_eq in Hlen. rewrite Hlen.
  apply Nat.ltb_lt in Hpos. rewrite Hpos. cbn [andb].
  unfold bind at 1. rewrite <- app_assoc. cbn [app]. rewrite Hall.
  apply promise_all_length in Hall. rewrite length_map in Hall.
  unfold ret. now rewrite Hall, Nat.eqb_refl.
Qed.

(** X16. On a comment without children the cascade still issues the batch
    update, on an empty list of ids; when that reports no record the answer
    is [true], after those two store calls and no other. *)
Lemma cascade_no_children {W : Type} (strapi : Strapi W) (helpers : Helpers)
  (id : JsVal) (fieldName : string) (value : JsVal) (n : nat) (st : St W)
  (q : Db W) (w1 w2 : W) :
  let uid := getModelUid helpers "comment" in
  let fargs : Obj := [("where", VObj [("threadOf", id)])] in
  let uargs : Obj :=
    [("where", VObj [("id", VArr [])]); ("data", VObj [(fieldName, value)])]
  in
  bd strapi = Some q ->
  q_findMany q uid fargs (fst st) = (Resolved [], w1) ->
  q_updateMany q uid uargs w1 = (Resolved [], w2) ->
  modifiedNestedNestedComments strapi helpers (S n) id fieldName value st
  = (Resolved true, (w2, snd st ++ [CFindMany uid fargs;
                                    CUpdateMany uid uargs])).
Proof.
  intros uid fargs uargs Hq Hf Hu.
  cbn [modifiedNestedNestedComments]. rewrite Hq.
  unfold try_catch, bind at 1, call at 1. fold uid fargs. rewrite Hf.
  unfold bind at 1, call at 1. cbn [fst snd map]. fold uargs. rewrite Hu.
  cbn. now rewrite <- app_assoc.
Qed.

(** C1. Two runs of [modifiedNestedNestedComments] against what the
    specification says of it.  Over a store that rejects the fetch of the
    children of comment 2, the call on comment 2 answers [false], and still
    the call on its parent, comment 1, which goes into comment 2, answers
    [true], with comment 4, under comment 2, left as it was.  On a Strapi
    instance, which has [db] and no [bd], the call on comment 4, which has no
    children, answers [false], and no store call is made. *)
Theorem cascade_answers :
  let parent :=
    modifiedNestedNestedComments MemStore.flaky MemStore.helpers 5
      (MemStore.num 1) "blockedThread" (VBool true) (MemStore.thread, []) in
  (forall w log,
      fst (modifiedNestedNestedComments MemStore.flaky MemStore.helpers 5
             (MemStore.num 2) "blockedThread" (VBool true) (w, log))
      = Resolved false)
  /\ fst parent = Resolved true
  /\ map (fun c => oprop c "id")
       (MemStore.select MemStore.comments_uid
          [("where", VObj [("blockedThread", VBool false)])]
          (fst (snd parent)))
     = [MemStore.num 1; MemStore.num 4]
  /\ modifiedNestedNestedComments MemStore.plain MemStore.helpers 5
       (MemStore.num 4) "blockedThread" (VBool true) (MemStore.thread, [])
     = (Resolved false, (MemStore.thread, [])).
Proof.
  intro parent. split; [|split; [|split]].
  - intros w log. reflexivity.
  - vm_compute. reflexivity.
  - vm_compute. reflexivity.
  - reflexivity.
Qed.

(** ** Relation tokens *)

(** The id that [parseRelationString] returns is the number [parseInt]
    makes of the id part, and so is every id [findRelatedEntitiesFor]
    collects: never the id part itself. *)
Lemma relatedId_is_number {W : Type} (strapi : Strapi W) (helpers : Helpers)
  (relation : JsVal) (st st' : St W) (uid relatedId : JsVal) :
  parseRelationString strapi helpers relation st
  = (Resolved (uid, relatedId), st') ->
  uid = nth 0 (getRelatedGroups helpers relation) VUndefined
  /\ relatedId
     = VNum (parseInt (nth 1 (getRelatedGroups helpers relation) VUndefined)).
Proof.
  unfold parseRelationString, bind.
  destruct (getConfig strapi helpers (ENABLED_COLLECTIONS helpers) (VArr [])
              false st) as [[c|e|] st1]; try discriminate.
  destruct c; try discriminate.
  - destruct (is_substring _ s); [|discriminate].
    unfold ret. now intros [= <- <- _].
  - destruct (existsb _ l); [|discriminate].
    unfold ret. now intros [= <- <- _].
Qed.

(** An integer id comes back as that integer. *)
Lemma relatedId_of_integer (z : Z) :
  (if isNumber (VNum (parseInt (VStr (string_of_Z z))))
   then VNum (parseInt (VStr (string_of_Z z)))
   else VStr (string_of_Z z))
  = VNum (Fin z).
Proof. now destruct (parseInt_decimal z) as [-> _]. Qed.

Lemma split_on_nonempty (c : ascii) (s : string) : split_on c s <> [].
Proof.
  destruct s as [|a s]; simpl; [discriminate|].
  destruct (Ascii.eqb a c); [discriminate|].
  destruct (split_on c s); discriminate.
Qed.

Lemma split_on_app (c : ascii) (a b : string) :
  split_on c (a ++ String c b) = split_on c a ++ split_on c b.
Proof.
  induction a as [|x a IH]; simpl.
  - now rewrite Ascii.eqb_refl.
  - destruct (Ascii.eqb x c); rewrite IH; [reflexivity|].
    destruct (split_on c a) as [|w ws] eqn:E; [|reflexivity].
    now apply split_on_nonempty in E.
Qed.

Lemma join_cons (sep x : string) (l : list string) :
  l <> [] -> join sep (x :: l) = (x ++ sep ++ join sep l)%string.
Proof. destruct l; [contradiction | reflexivity]. Qed.

Lemma join_split_on (c : ascii) (s : string) :
  join (String c "") (split_on c s) = s.
Proof.
  induction s as [|x s IH]; cbn [split_on]; auto.
  destruct (Ascii.eqb x c) eqn:E.
  - apply Ascii.eqb_eq in E. subst x.
    rewrite join_cons by apply split_on_nonempty. now rewrite IH.
  - destruct (split_on c s) as [|w ws] eqn:Es.
    + now apply split_on_nonempty in Es.
    + rewrite <- IH. destruct ws; [reflexivity|].
      rewrite !join_cons by discriminate. reflexivity.
Qed.

Lemma split_on_colon_uint (d : Decimal.uint) :
  split_on ":" (NilEmpty.string_of_uint d) = [NilEmpty.string_of_uint d].
Proof. induction d; simpl; auto; now rewrite IHd. Qed.

Lemma split_on_colon_string_of_Z (z : Z) :
  split_on ":" (string_of_Z z) = [string_of_Z z].
Proof.
  unfold string_of_Z. destruct z as [|p|p]; simpl; auto;
    rewrite string_of_uint_nonnil by apply DecimalPos.Unsigned.to_uint_nonnil;
    now rewrite split_on_colon_uint.
Qed.

(** Cutting [`${uid}:${id}`] at its last colon gives back the collection and
    the digits of the id, and [parseInt] the id: an integer id survives the
    round trip as a number. *)
Lemma relation_roundtrip (uid : string) (z : Z) :
  let token :=
    VStr (js_ToString (VStr uid) ++ ":" ++ js_ToString (VNum (Fin z))) in
  relation_groups token = [VStr uid; VStr (string_of_Z z)]
  /\ VNum (parseInt (nth 1 (relation_groups token) VUndefined))
     = VNum (Fin z).
Proof.
  assert (E : relation_groups
                (VStr (js_ToString (VStr uid) ++ ":" ++
                       js_ToString (VNum (Fin z))))
              = [VStr uid; VStr (string_of_Z z)]).
  { cbn [js_ToString string_of_num relation_groups].
    change (uid ++ ":" ++ string_of_Z z)%string
      with (uid ++ String ":" (string_of_Z z))%string.
    rewrite split_on_app, split_on_colon_string_of_Z, rev_app_distr.
    cbn [rev app].
    destruct (rev (split_on ":" uid)) as [|w ws] eqn:E.
    - apply (f_equal (@rev string)) in E. rewrite rev_involutive in E.
      now apply split_on_nonempty in E.
    - rewrite <- E, rev_involutive.
      now rewrite (join_split_on ":" uid). }
  intro token. subst token. split; [exact E|].
  rewrite E. cbn [nth]. now destruct (parseInt_decimal z) as [-> _].
Qed.

(** C3. Decoding relation tokens, the collection [article] being enabled and
    tokens being cut at their last colon.  The token ["article:42"], which
    is [`${uid}:${id}`] for [uid = "article"] and [id = 42], decodes to
    [("article", 42)] with the number 42.  The token ["article:abc"], whose
    id part is no integer, decodes to [("article", NaN)]: the id part is not
    kept; and [findRelatedEntitiesFor] looks up the id [NaN] for it. *)
Theorem relation_decoding :
  (js_ToString (VStr "article") ++ ":" ++ js_ToString (VNum (Fin 42)))%string
  = "article:42"
  /\ fst (parseRelationString MemStore.configured MemStore.helpers
            (VStr "article:42") ([], []))
     = Resolved (VStr "article", VNum (Fin 42))
  /\ fst (parseRelationString MemStore.configured MemStore.helpers
            (VStr "article:abc") ([], []))
     = Resolved (VStr "article", VNum NaN)
  /\ related_groups MemStore.helpers
       [MemStore.comment 1 VNull "article:abc"]
     = inr [("article", VArr [VNum NaN])]
  /\ snd (snd (findRelatedEntitiesFor MemStore.configured MemStore.helpers
                 [MemStore.comment 1 VNull "article:abc"] ([], [])))
     = [CFindMany "article" [("where", VObj [("id", VArr [VNum NaN])])]].
Proof.
  split; [reflexivity|]. split; [reflexivity|]. split; [reflexivity|].
  split; reflexivity.
Qed.

(** ** The tree of comments *)

Lemma strict_eq_true (a b : JsVal) : strict_eq a b = true -> a = b.
Proof.
  destruct a as [| |x|x|x|x|x], b as [| |y|y|y|y|y]; simpl;
    try discriminate; auto.
  - intro H. apply Bool.eqb_prop in H. now subst.
  - destruct x as [x| |s], y as [y| |t]; simpl; try discriminate.
    + intro H. apply Z.eqb_eq in H. now subst.
    + intro H. apply Bool.eqb_prop in H. now subst.
  - intro H. apply String.eqb_eq in H. now subst.
Qed.

Lemma Forall2_right {A B} (R : A -> B -> Prop) (P : B -> Prop)
  (l : list A) (l' : list B) :
  Forall2 R l l' ->
  (forall a b, In a l -> R a b -> P b) ->
  Forall P l'.
Proof.
  induction 1 as [|a b l l' Hab _ IH]; intro H; constructor.
  - apply (H a b); simpl; auto.
  - apply IH. intros a' b' Hin. apply H. simpl; auto.
Qed.

Section Forest.

Variable entities : list Obj.
Variable field : string.
Variables dropBlockedThreads blockNestedThreads : bool.

(** One level of the builder, list by list. *)
Lemma buildNestedStructure_level (n : nat) (l forest : list Obj) :
  fold_right
    (fun entity acc =>
       match buildNestedStructure n entities (oprop entity "id") field
               dropBlockedThreads blockNestedThreads, acc with
       | Some children, Some rest =>
           Some (spread entity [("children", VArr (map VObj children))]
                   :: rest)
       | _, _ => None
       end)
    (Some []) l = Some forest ->
  Forall2
    (fun entity node =>
       exists children,
         buildNestedStructure n entities (oprop entity "id") field
           dropBlockedThreads blockNestedThreads = Some children
         /\ node = spread entity [("children", VArr (map VObj children))])
    l forest.
Proof.
  revert forest. induction l as [|e l IH]; intro forest; simpl.
  - intros [= <-]. constructor.
  - destruct (buildNestedStructure n entities (oprop e "id") field
                dropBlockedThreads blockNestedThreads) as [children|] eqn:E;
      [|discriminate].
    destruct (fold_right _ (Some []) l) as [rest|]; [|discriminate].
    intros [= <-]. constructor; eauto.
Qed.

Lemma buildNestedStructure_sound (fuel : nat) (id : JsVal)
  (forest : list Obj) :
  buildNestedStructure fuel entities id field dropBlockedThreads
    blockNestedThreads = Some forest ->
  forest_of entities field dropBlockedThreads id forest.
Proof.
  revert id forest. induction fuel as [|n IH]; intros id forest;
    [discriminate|].
  cbn [buildNestedStructure]. intro H.
  apply buildNestedStructure_level in H. constructor.
  eapply Forall2_impl; [|exact H].
  intros e node (children & Hc & ->). eauto.
Qed.

Lemma forest_of_nodes_inv (id : JsVal) (forest : list Obj) :
  forest_of entities field dropBlockedThreads id forest ->
  map (fun node => oprop node "id") forest
  = map (fun e => oprop e "id")
      (filter (child_of field dropBlockedThreads id) entities)
  /\ Forall
       (fun node =>
          (field <> "children" -> oprop node field = id)
          /\ (dropBlockedThreads = true ->
              truthy (oprop node "blockedThread") = false)
          /\ exists children,
               oprop node "children" = VArr (map VObj children)
               /\ forest_of entities field dropBlockedThreads
                    (oprop node "id") children)
       forest.
Proof.
  intros [forest' H]. split.
  - induction H as [|e node l l' (children & _ & ->) _ IH]; simpl; auto.
    f_equal; auto.
    apply (oprop_assign_other "id" "children"). discriminate.
  - eapply Forall2_right; [exact H|].
    intros e node Hin (children & Hc & ->).
    apply filter_In in Hin. destruct Hin as [_ Hin].
    unfold child_of in Hin. apply andb_true_iff in Hin.
    destruct Hin as [Heq Hdrop]. apply strict_eq_true in Heq.
    split; [|split].
    + intro Hf. rewrite <- Heq.
      now apply (oprop_assign_other field "children").
    + intros ->. simpl in Hdrop. apply negb_true_iff in Hdrop.
      rewrite spread_one, oprop_assign_other by discriminate. exact Hdrop.
    + exists children. split.
      * apply (oprop_assign_same "children").
      * replace (oprop (spread e [("children", VArr (map VObj children))])
                   "id") with (oprop e "id"); auto.
        symmetry. apply (oprop_assign_other "id" "children"). discriminate.
Qed.

(** With a measure on ids that goes down from parent to child, the recursion
    ends. *)
Lemma buildNestedStructure_ends (rank : JsVal -> nat) :
  (forall e, In e entities ->
     (rank (oprop e "id") < rank (oprop e field))%nat) ->
  forall fuel id,
    (rank id < fuel)%nat ->
    exists forest,
      buildNestedStructure fuel entities id field dropBlockedThreads
        blockNestedThreads = Some forest.
Proof.
  intros Hrank. induction fuel as [|n IH]; intros id Hlt; [lia|].
  cbn [buildNestedStructure].
  assert (Hin : forall e,
             In e (filter (child_of field dropBlockedThreads id) entities) ->
             (rank (oprop e "id") < n)%nat).
  { intros e He. apply filter_In in He. destruct He as [He Hc].
    unfold child_of in Hc. apply andb_true_iff in Hc. destruct Hc as [Hc _].
    apply strict_eq_true in Hc. specialize (Hrank e He).
    rewrite Hc in Hrank. lia. }
  revert Hin.
  fold (child_of field dropBlockedThreads id).
  induction (filter (child_of field dropBlockedThreads id) entities)
    as [|e l IHl]; intro Hin; cbn [fold_right].
  - eauto.
  - destruct (IH (oprop e "id")) as [children ->]; [apply Hin; simpl; auto|].
    destruct IHl as [rest ->]; [intros; apply Hin; simpl; auto|].
    eauto.
Qed.

End Forest.

Lemma findAllInHierarchy_course {W : Type} (strapi : Strapi W)
  (helpers : Helpers) (fuel : nat) (query populate : Obj) (sort : SortArg)
  (startingFromId : JsVal) (dropBlockedThreads : bool)
  (relatedEntity : JsVal) (st : St W) :
  findAllInHierarchy strapi helpers fuel query populate sort startingFromId
    dropBlockedThreads relatedEntity st
  = match findAllFlat strapi helpers query populate sort None relatedEntity
            st with
    | (Resolved entities, st') =>
        (match buildNestedStructure fuel
                 (objects_of (oprop entities "data"))
                 (dflt startingFromId VNull) "threadOf" dropBlockedThreads
                 false with
         | Some forest => Resolved forest
         | None => Rejected stack_overflow
         end, st')
    | (Rejected e, st') => (Rejected e, st')
    | (Pending, st') => (Pending, st')
    end.
Proof.
  unfold findAllInHierarchy, bind.
  destruct (findAllFlat strapi helpers query populate sort None relatedEntity
              st) as [[entities|e|] st']; auto.
  now destruct (buildNestedStructure fuel _ (dflt startingFromId VNull)
                  "threadOf" dropBlockedThreads false).
Qed.

(** C9. [findAllInHierarchy] over the flat list that [findAllFlat] returns.
    The forest starts under [startingFromId], under [null] (the roots) when
    no starting id is given.  A forest the call resolves with is the forest
    under that id: its nodes are, in the order of the flat list, the
    comments whose [threadOf] is that id, each with, as [children], the
    forest under its own id, and so on down; with [dropBlockedThreads] no
    node has a true [blockedThread], so a blocked comment is left out, and
    with it what would have been under it.  When a measure on ids goes down
    from each comment's [threadOf] to its id and the stack is deeper than
    the measure of the starting id, the call does resolve; it never stays
    pending once [findAllFlat] has resolved. *)
Theorem findAllInHierarchy_forest {W : Type} (strapi : Strapi W)
  (helpers : Helpers) (fuel : nat) (query populate : Obj) (sort : SortArg)
  (startingFromId : JsVal) (dropBlockedThreads : bool)
  (relatedEntity : JsVal) (st : St W) (r : Obj) :
  fst (findAllFlat strapi helpers query populate sort None relatedEntity st)
  = Resolved r ->
  let flat := objects_of (oprop r "data") in
  let start :=
    match startingFromId with VUndefined => VNull | _ => startingFromId end in
  let run :=
    findAllInHierarchy strapi helpers fuel query populate sort startingFromId
      dropBlockedThreads relatedEntity st in
  (forall forest,
      fst run = Resolved forest ->
      forest_of flat "threadOf" dropBlockedThreads start forest
      /\ map (fun node => oprop node "id") forest
         = map (fun e => oprop e "id")
             (filter (child_of "threadOf" dropBlockedThreads start) flat)
      /\ Forall
           (fun node =>
              oprop node "threadOf" = start
              /\ (dropBlockedThreads = true ->
                  truthy (oprop node "blockedThread") = false)
              /\ exists children,
                   oprop node "children" = VArr (map VObj children)
                   /\ forest_of flat "threadOf" dropBlockedThreads
                        (oprop node "id") children)
           forest)
  /\ (forall rank : JsVal -> nat,
        (forall e, In e flat ->
           (rank (oprop e "id") < rank (oprop e "threadOf"))%nat) ->
        (rank start < fuel)%nat ->
        exists forest, fst run = Resolved forest)
  /\ fst run <> Pending.
Proof.
  intros Hflat flat start run. subst run.
  rewrite findAllInHierarchy_course.
  destruct (findAllFlat strapi helpers query populate sort None relatedEntity
              st) as [o st'].
  simpl in Hflat. subst o. fold flat.
  change (dflt startingFromId VNull) with start. cbn [fst].
  split; [|split].
  - intros forest H.
    destruct (buildNestedStructure fuel flat start "threadOf"
                dropBlockedThreads false) as [f|] eqn:E; [|discriminate].
    injection H as ->.
    apply buildNestedStructure_sound in E. split; [exact E|].
    destruct (forest_of_nodes_inv _ _ _ _ _ E) as [Hids Hnodes].
    split; [exact Hids|].
    eapply Forall_impl; [|exact Hnodes].
    intros node (H1 & H2 & H3). split; [apply H1; discriminate | auto].
  - intros rank Hrank Hfuel.
    destruct (buildNestedStructure_ends flat "threadOf" dropBlockedThreads
                false rank Hrank fuel start Hfuel) as [forest ->].
    eauto.
  - now destruct (buildNestedStructure fuel flat start "threadOf"
                    dropBlockedThreads false).
Qed.

Lemma findAllInHierarchy_forest_witness :
  let st : St MemStore.World :=
    ([(MemStore.comments_uid, MemStore.chain true)], []) in
  exists r forest,
    fst (findAllFlat MemStore.plain MemStore.helpers [] [] NoSort None VNull
           st) = Resolved r
    /\ fst (findAllInHierarchy MemStore.plain MemStore.helpers 5 [] [] NoSort
              VUndefined true VNull st) = Resolved forest
    /\ map (fun node => (oprop node "id", oprop node "children")) forest
       = [(VNum (Fin 1), VArr [])]
    /\ forest_of (objects_of (oprop r "data")) "threadOf" true VNull forest
    /\ exists forest',
         fst (findAllInHierarchy MemStore.plain MemStore.helpers 5 [] []
                NoSort VUndefined true VNull st) = Resolved forest'.
Proof.
  intro st. eexists. eexists.
  split; [vm_compute; reflexivity|].
  split; [vm_compute; reflexivity|].
  split; [vm_compute; reflexivity|].
  match goal with
  | |- forest_of (objects_of (oprop ?r _)) _ _ _ ?forest /\ _ =>
      destruct (findAllInHierarchy_forest MemStore.plain MemStore.helpers 5
                  [] [] NoSort VUndefined true VNull st r eq_refl)
        as (Hsound & Hends & _);
      destruct (Hsound forest eq_refl) as [Hforest _]
  end.
  split; [exact Hforest|].
  apply (Hends chain_rank).
  - intros e He. vm_compute in He.
    destruct He as [<-|[<-|[<-|[]]]]; vm_compute; lia.
  - vm_compute. lia.
Defined.

(** ** Configuration *)

Section Config.

Context {W : Type}.
Variable strapi : Strapi W.
Variable helpers : Helpers.

Lemma getConfig_run (p d : JsVal) (useLocal : bool) (st : St W) (c : JsVal)
  (w : W) :
  store_get_config strapi (fst st) = (Resolved c, w) ->
  getConfig strapi helpers p d useLocal st
  = (Resolved
       (let queryProp := buildConfigQueryProp helpers p in
        let result :=
          if (truthy c && negb useLocal)%bool
          then (if truthy queryProp
                then lodash_get c (js_ToString queryProp) d
                else c)
          else getLocalConfig strapi helpers queryProp d in
        if isNil result then d else result),
     (w, snd st)).
Proof. intro H. unfold getConfig, bind. now rewrite H. Qed.

Lemma getLocalConfig_guard (p d : JsVal) :
  (if isNil (getLocalConfig strapi helpers p d) then d
   else getLocalConfig strapi helpers p d)
  = getLocalConfig strapi helpers p d.
Proof.
  unfold getLocalConfig.
  destruct (isNil (config_get strapi _)) eqn:E.
  - now destruct (isNil d).
  - now rewrite E.
Qed.

(** With no remote document and nothing in the local tree, the value is the
    default. *)
Lemma getConfig_nothing_configured (p d : JsVal) (st : St W) (c : JsVal)
  (w : W) :
  store_get_config strapi (fst st) = (Resolved c, w) ->
  truthy c = false ->
  (forall path, isNil (config_get strapi path) = true) ->
  getConfig strapi helpers p d false st = (Resolved d, (w, snd st)).
Proof.
  intros Hs Hc Hl. rewrite (getConfig_run p d false st c w Hs).
  rewrite Hc. cbn [andb]. cbv zeta. rewrite getLocalConfig_guard.
  unfold getLocalConfig. now rewrite Hl.
Qed.

End Config.

(** X1. [getConfig] chooses one side for each call.  With a remote document
    and [useLocal] off, the local tree has no say: the call gives the same
    over any other local tree.  With [useLocal] on, or without a remote
    document, the answer is [getLocalConfig] on the normalised path, whatever
    the remote document holds; the remote store is read all the same, so
    that when it rejects the call rejects, [useLocal] or not. *)
Theorem getConfig_selection {W : Type} (strapi : Strapi W)
  (helpers : Helpers) (p d : JsVal) (useLocal : bool) (st : St W) :
  (forall c w local,
      store_get_config strapi (fst st) = (Resolved c, w) ->
      truthy c = true ->
      getConfig (with_local strapi local) helpers p d false st
      = getConfig strapi helpers p d false st)
  /\ (forall c w,
        store_get_config strapi (fst st) = (Resolved c, w) ->
        useLocal = true \/ truthy c = false ->
        getConfig strapi helpers p d useLocal st
        = (Resolved (getLocalConfig strapi helpers
                       (buildConfigQueryProp helpers p) d),
           (w, snd st)))
  /\ (forall e w,
        store_get_config strapi (fst st) = (Rejected e, w) ->
        getConfig strapi helpers p d useLocal st = (Rejected e, (w, snd st))).
Proof.
  split; [|split].
  - intros c w local Hs Hc.
    rewrite (getConfig_run strapi helpers p d false st c w Hs).
    rewrite (getConfig_run (with_local strapi local) helpers p d false st c w
               Hs).
    rewrite Hc. reflexivity.
  - intros c w Hs Hside.
    rewrite (getConfig_run strapi helpers p d useLocal st c w Hs).
    replace (truthy c && negb useLocal)%bool with false
      by (destruct Hside as [-> | ->];
          [now rewrite andb_false_r | reflexivity]).
    cbv zeta. now rewrite getLocalConfig_guard.
  - intros e w Hs. unfold getConfig, bind. now rewrite Hs.
Qed.

Lemma getConfig_selection_witness :
  let remote := VObj [("badWords", VBool false)] in
  let local path :=
    if String.eqb path "plugin.comments.badWords" then VStr "local"
    else VUndefined in
  let strapi :=
    with_local (MemStore.strapi_of (MemStore.mem_db MemStore.never_fails
                                      MemStore.all_reported) remote) local in
  let st : St MemStore.World := ([], []) in
  getConfig strapi MemStore.helpers (VStr "badWords") (VBool true) false st
  = (Resolved (VBool false), st)
  /\ getConfig (with_local strapi (fun _ => VUndefined)) MemStore.helpers
       (VStr "badWords") (VBool true) false st
     = getConfig strapi MemStore.helpers (VStr "badWords") (VBool true) false
         st
  /\ getConfig strapi MemStore.helpers (VStr "badWords") (VBool true) true st
     = (Resolved (VStr "local"), st).
Proof.
  intros remote local strapi st.
  destruct (getConfig_selection strapi MemStore.helpers (VStr "badWords")
              (VBool true) true st) as (Hremote & Hlocal & _).
  split; [reflexivity|]. split.
  - exact (Hremote remote [] (fun _ => VUndefined) eq_refl eq_refl).
  - exact (Hlocal remote [] eq_refl (or_introl eq_refl)).
Defined.

(** X2. [parseRelationString] makes no store call, whatever the configuration;
    and when no collection is enabled anywhere (no remote document, nothing
    in the local tree), every relation is refused with the 403 error, whose
    message then lists no collection. *)
Theorem parseRelationString_default_deny {W : Type} (strapi : Strapi W)
  (helpers : Helpers) (relation : JsVal) (st : St W) :
  snd (snd (parseRelationString strapi helpers relation st)) = snd st
  /\ (forall c w,
        store_get_config strapi (fst st) = (Resolved c, w) ->
        truthy c = false ->
        (forall path, isNil (config_get strapi path) = true) ->
        parseRelationString strapi helpers relation st
        = (Rejected
             (PluginError 403
                ("Action not allowed for collection '" ++
                 js_ToString (nth 0 (getRelatedGroups helpers relation)
                                VUndefined) ++
                 "'. Use one of: ")
                VUndefined),
           (w, snd st))).
Proof.
  split.
  - unfold parseRelationString, bind, getConfig, bind.
    destruct (store_get_config strapi (fst st)) as [[c|e|] w]; auto.
    unfold ret.
    match goal with
    | |- snd (snd (match ?v with _ => _ end _)) = _ => destruct v
    end; try reflexivity.
    + now destruct (is_substring _ s).
    + now destruct (existsb _ l).
  - intros c w Hs Hc Hl. unfold parseRelationString, bind.
    now rewrite (getConfig_nothing_configured strapi helpers _ _ st c w Hs Hc
                   Hl).
Qed.

Lemma parseRelationString_default_deny_witness :
  parseRelationString MemStore.plain MemStore.helpers (VStr "article:42")
    ([], [])
  = (Rejected
       (PluginError 403
          "Action not allowed for collection 'article'. Use one of: "
          VUndefined),
     ([], [])).
Proof.
  exact (proj2 (parseRelationString_default_deny MemStore.plain
                  MemStore.helpers (VStr "article:42") ([], []))
           VNull [] eq_refl eq_refl (fun _ => eq_refl)).
Defined.

(** X3. The moderation filter is on by default: when the flag is configured
    nowhere (no remote document, nothing in the local tree), [checkBadWords]
    runs the filter with its default word list, refuses the content the
    filter finds profane and returns any other content as it is. *)
Theorem checkBadWords_default_on {W : Type} (strapi : Strapi W)
  (helpers : Helpers) (content c : JsVal) (st : St W) (w : W) :
  store_get_config strapi (fst st) = (Resolved c, w) ->
  truthy c = false ->
  (forall path, isNil (config_get strapi path) = true) ->
  checkBadWords strapi helpers content st
  = (if (truthy content && isProfane helpers VUndefined content)%bool
     then Rejected
            (PluginError 400
               "Bad language used! Please polite your comment..."
               (VObj [("content",
                       VObj [("original", content);
                             ("filtered",
                              clean helpers VUndefined content)])]))
     else Resolved content,
     (w, snd st)).
Proof.
  intros Hs Hc Hl. unfold checkBadWords, bind.
  rewrite (getConfig_nothing_configured strapi helpers _ _ st c w Hs Hc Hl).
  cbn [truthy isObject].
  destruct (truthy content) eqn:E; cbn [andb]; auto.
  destruct (isProfane helpers VUndefined content); auto.
  unfold js_and. now rewrite E.
Qed.

Lemma checkBadWords_default_on_witness :
  fst (checkBadWords MemStore.plain MemStore.helpers (VStr "darn it")
         ([], []))
  = Rejected
      (PluginError 400 "Bad language used! Please polite your comment..."
         (VObj [("content",
                 VObj [("original", VStr "darn it");
                       ("filtered", VStr "****")])])).
Proof.
  rewrite (checkBadWords_default_on MemStore.plain MemStore.helpers
             (VStr "darn it") VNull ([], []) [] eq_refl eq_refl
             (fun _ => eq_refl)).
  reflexivity.
Defined.

(** ** Grouping the relations of a batch *)

Lemma lookup_none_keys (k : string) (o : Obj) :
  lookup k o = None <-> ~ In k (keys o).
Proof.
  induction o as [|[k' v'] o IH]; simpl.
  - tauto.
  - destruct (String.eqb k k') eqn:E.
    + apply String.eqb_eq in E. subst. split; [discriminate | tauto].
    + apply String.eqb_neq in E. rewrite IH. split.
      * intros H [H1 | H1]; [congruence | tauto].
      * tauto.
Qed.

Lemma keys_assign (k : string) (v : JsVal) (o : Obj) :
  keys (assign k v o) = if has k o then keys o else keys o ++ [k].
Proof.
  unfold has. induction o as [|[k' v'] o IH]; simpl; auto.
  destruct (String.eqb k k') eqn:E; simpl; auto.
  rewrite IH. now destruct (lookup k o).
Qed.

Lemma NoDup_keys_assign (k : string) (v : JsVal) (o : Obj) :
  NoDup (keys o) -> NoDup (keys (assign k v o)).
Proof.
  intro H. rewrite keys_assign. unfold has.
  destruct (lookup k o) eqn:E; auto.
  apply lookup_none_keys in E.
  apply NoDup_app; auto.
  - constructor; [tauto | constructor].
  - intros x Hx [<- | []]. contradiction.
Qed.

Lemma lookup_in (k : string) (v : JsVal) (o : Obj) :
  NoDup (keys o) -> In (k, v) o -> lookup k o = Some v.
Proof.
  induction o as [|[k' v'] o IH]; simpl; [tauto|].
  intros Hnd [H | H].
  - injection H as -> ->. now rewrite String.eqb_refl.
  - inversion Hnd as [|? ? Hnot Hnd']. subst.
    destruct (String.eqb k k') eqn:E; auto.
    apply String.eqb_eq in E. subst. exfalso. apply Hnot.
    change k' with (fst (k', v)). now apply in_map.
Qed.

(** *** Array indices are told apart by their value *)

Lemma digits_decimal (s : string) :
  all_chars is_digit s = true -> exists d, s = NilEmpty.string_of_uint d.
Proof.
  induction s as [|c s IH]; [now exists Decimal.Nil|].
  cbn [all_chars]. intro H. apply andb_true_iff in H. destruct H as [Hc Hs].
  destruct (IH Hs) as [d ->].
  destruct c as [[] [] [] [] [] [] [] []]; try discriminate Hc;
    first [ now exists (Decimal.D0 d) | now exists (Decimal.D1 d)
          | now exists (Decimal.D2 d) | now exists (Decimal.D3 d)
          | now exists (Decimal.D4 d) | now exists (Decimal.D5 d)
          | now exists (Decimal.D6 d) | now exists (Decimal.D7 d)
          | now exists (Decimal.D8 d) | now exists (Decimal.D9 d) ].
Qed.

Lemma canonical_decimal (s : string) :
  canonical_uint s = true ->
  exists d,
    s = NilEmpty.string_of_uint d /\ Decimal.unorm d = d /\ d <> Decimal.Nil.
Proof.
  destruct s as [|c s]; [discriminate|]. unfold canonical_uint.
  destruct c as [[] [] [] [] [] [] [] []]; try discriminate;
    try (intro H; apply andb_true_iff in H; destruct H as [_ H];
         destruct (digits_decimal s H) as [d ->];
         first [ exists (Decimal.D1 d); now repeat split
               | exists (Decimal.D2 d); now repeat split
               | exists (Decimal.D3 d); now repeat split
               | exists (Decimal.D4 d); now repeat split
               | exists (Decimal.D5 d); now repeat split
               | exists (Decimal.D6 d); now repeat split
               | exists (Decimal.D7 d); now repeat split
               | exists (Decimal.D8 d); now repeat split
               | exists (Decimal.D9 d); now repeat split ]).
  destruct s; [|discriminate]. intros _.
  exists (Decimal.D0 Decimal.Nil). now repeat split.
Qed.

Lemma uint_of_decimal (d : Decimal.uint) :
  d <> Decimal.Nil ->
  uint_of (NilEmpty.string_of_uint d) = Z.of_N (N.of_uint d).
Proof.
  intro Hd. unfold uint_of, N.of_uint. rewrite <- uint_value_0.
  destruct d; try contradiction;
    cbn [NilEmpty.string_of_uint];
    erewrite digits_step by reflexivity;
    rewrite digits_uint; reflexivity.
Qed.

Lemma uint_of_inj (a b : string) :
  canonical_uint a = true -> canonical_uint b = true ->
  uint_of a = uint_of b -> a = b.
Proof.
  intros Ha Hb E.
  destruct (canonical_decimal a Ha) as (da & -> & Hna & Hda).
  destruct (canonical_decimal b Hb) as (db & -> & Hnb & Hdb).
  rewrite !uint_of_decimal in E by assumption.
  apply N2Z.inj in E.
  rewrite <- Hna, <- Hnb, <- !DecimalN.Unsigned.to_of. now rewrite E.
Qed.

Lemma array_index_inj (a b : string) :
  is_array_index a = true -> is_array_index b = true ->
  uint_of a = uint_of b -> a = b.
Proof.
  unfold is_array_index, array_index. intros Ha Hb.
  apply uint_of_inj.
  - destruct (canonical_uint a); [reflexivity | discriminate].
  - destruct (canonical_uint b); [reflexivity | discriminate].
Qed.

(** *** Where [define] puts a key *)

Lemma array_index_value (k : string) (i : Z) :
  array_index k = Some i -> i = uint_of k.
Proof.
  unfold array_index.
  destruct (canonical_uint k && Z.leb (uint_of k) 4294967294)%bool;
    [now intros [= <-] | discriminate].
Qed.

Lemma keys_insert_index (i : Z) (k : string) (v : JsVal) (o : Obj) :
  array_index k = Some i ->
  ~ In k (keys o) ->
  exists before after,
    keys o = before ++ after
    /\ keys (insert_index i k v o) = before ++ k :: after
    /\ Forall (fun k' => is_array_index k' = true /\ (uint_of k' < i)%Z)
              before
    /\ match after with
       | [] => True
       | k' :: _ => is_array_index k' = true -> (i < uint_of k')%Z
       end.
Proof.
  intros Hk. pose proof (array_index_value _ _ Hk) as Hi.
  induction o as [|[k' v'] o IH]; simpl; intro Hout.
  - exists [], []. repeat split; auto.
  - destruct (array_index k') as [j|] eqn:E.
    + pose proof (array_index_value _ _ E) as Hj.
      destruct (Z.ltb i j) eqn:Hlt.
      * exists [], (k' :: keys o). repeat split; auto.
        intros _. apply Z.ltb_lt in Hlt. lia.
      * destruct IH as (before & after & Hkeys & Hins & Hb & Ha); [tauto|].
        exists (k' :: before), after. simpl. rewrite Hkeys, Hins.
        repeat split; auto. constructor; auto.
        assert (Hidx : is_array_index k' = true)
          by (unfold is_array_index; now rewrite E).
        split; auto.
        apply Z.ltb_ge in Hlt.
        assert (Hne : uint_of k' <> uint_of k).
        { intro Heq. apply Hout. left.
          apply array_index_inj; auto.
          unfold is_array_index. now rewrite Hk. }
        lia.
    + exists [], (k' :: keys o). repeat split; auto.
      unfold is_array_index. rewrite E. discriminate.
Qed.

Lemma lookup_insert_index_other (i : Z) (k k' : string) (v : JsVal)
  (o : Obj) :
  k' <> k -> lookup k' (insert_index i k v o) = lookup k' o.
Proof.
  intro Hne. apply String.eqb_neq in Hne.
  induction o as [|[k0 v0] o IH]; simpl.
  - now rewrite Hne.
  - destruct (array_index k0) as [j|].
    + destruct (Z.ltb i j); simpl; [now rewrite Hne|].
      now rewrite IH.
    + simpl. now rewrite Hne.
Qed.

Lemma lookup_insert_index_same (i : Z) (k : string) (v : JsVal) (o : Obj) :
  lookup k o = None -> lookup k (insert_index i k v o) = Some v.
Proof.
  induction o as [|[k0 v0] o IH]; simpl.
  - now rewrite String.eqb_refl.
  - destruct (String.eqb k k0) eqn:E; [discriminate|]. intro H.
    destruct (array_index k0) as [j|].
    + destruct (Z.ltb i j); simpl.
      * now rewrite String.eqb_refl.
      * rewrite E. auto.
    + simpl. now rewrite String.eqb_refl.
Qed.

Lemma lookup_define (k k' : string) (v : JsVal) (o : Obj) :
  lookup k' (define k v o)
  = if String.eqb k' k then Some v else lookup k' o.
Proof.
  unfold define, has.
  destruct (String.eqb k' k) eqn:E.
  - apply String.eqb_eq in E. subst k'.
    destruct (array_index k) as [i|]; [|apply lookup_assign_same].
    destruct (lookup k o) eqn:L; [apply lookup_assign_same|].
    now apply lookup_insert_index_same.
  - apply String.eqb_neq in E.
    destruct (array_index k) as [i|]; [|now apply lookup_assign_other].
    destruct (lookup k o); [now apply lookup_assign_other|].
    now apply lookup_insert_index_other.
Qed.

(** The keys after [define]: as they were when the key was there, and with
    the key in its place when it is new. *)
Lemma keys_define (k : string) (v : JsVal) (o : Obj) :
  if has k o then keys (define k v o) = keys o
  else if is_array_index k
  then exists before after,
      keys o = before ++ after
      /\ keys (define k v o) = before ++ k :: after
      /\ Forall (fun k' => is_array_index k' = true
                           /\ (uint_of k' < uint_of k)%Z) before
      /\ match after with
         | [] => True
         | k' :: _ => is_array_index k' = true -> (uint_of k < uint_of k')%Z
         end
  else keys (define k v o) = keys o ++ [k].
Proof.
  unfold define, is_array_index.
  destruct (has k o) eqn:H.
  - destruct (array_index k); rewrite keys_assign, H; reflexivity.
  - destruct (array_index k) as [i|] eqn:E.
    + pose proof (array_index_value _ _ E) as Hi. rewrite <- Hi.
      apply keys_insert_index; auto.
      apply lookup_none_keys. unfold has in H. now destruct (lookup k o).
    + now rewrite keys_assign, H.
Qed.

Lemma in_keys_lookup (k : string) (o : Obj) :
  In k (keys o) <-> lookup k o <> None.
Proof.
  destruct (lookup k o) eqn:E.
  - split; [discriminate|]. intros _.
    destruct (in_dec string_dec k (keys o)) as [Hin|Hout]; auto.
    apply lookup_none_keys in Hout. congruence.
  - split; [|congruence]. intro H. apply lookup_none_keys in E.
    contradiction.
Qed.

Lemma in_keys_define (k k' : string) (v : JsVal) (o : Obj) :
  In k' (keys (define k v o)) <-> k' = k \/ In k' (keys o).
Proof.
  rewrite !in_keys_lookup, lookup_define.
  destruct (String.eqb k' k) eqn:E.
  - apply String.eqb_eq in E. split; [now left | discriminate].
  - apply String.eqb_neq in E. split; [now right | intros [H|H]; congruence].
Qed.

Lemma NoDup_keys_define (k : string) (v : JsVal) (o : Obj) :
  NoDup (keys o) -> NoDup (keys (define k v o)).
Proof.
  intro Hnd. pose proof (keys_define k v o) as H.
  destruct (has k o) eqn:Hhas; [now rewrite H|].
  assert (Hout : ~ In k (keys o)).
  { apply lookup_none_keys. unfold has in Hhas.
    now destruct (lookup k o). }
  destruct (is_array_index k).
  - destruct H as (before & after & Hk & -> & _).
    rewrite Hk in Hnd, Hout. now apply NoDup_Add with (a := k) (l := before ++ after);
      [apply Add_app | constructor].
  - rewrite H. apply NoDup_app; auto.
    + constructor; [tauto | constructor].
    + intros x Hx [<- | []]. contradiction.
Qed.

(** *** The order of the keys *)

Lemma enumerated_snoc (ks : list string) (k : string) :
  is_array_index k = false -> enumerated ks -> enumerated (ks ++ [k]).
Proof.
  intros Hk H. induction H as [|k0 rest H0 Hrest _ IH|k0 rest H0 Hrest]; simpl.
  - apply enumerated_other; auto.
  - apply enumerated_index; auto.
    apply Forall_app. split; auto. constructor; auto. congruence.
  - apply enumerated_other; auto.
    apply Forall_app. split; auto.
Qed.

Lemma enumerated_insert (before after : list string) (k : string) :
  is_array_index k = true ->
  Forall (fun k' => is_array_index k' = true /\ (uint_of k' < uint_of k)%Z)
         before ->
  match after with
  | [] => True
  | k' :: _ => is_array_index k' = true -> (uint_of k < uint_of k')%Z
  end ->
  enumerated (before ++ after) ->
  enumerated (before ++ k :: after).
Proof.
  intros Hk Hb Ha. induction Hb as [|b bs [Hb1 Hb2] _ IH]; simpl; intro H.
  - apply enumerated_index; auto.
    destruct after as [|h t]; constructor.
    + intro Hh. specialize (Ha Hh). lia.
    + inversion H as [|? ? Hh Ht _|? ? Hh Ht]; subst.
      * specialize (Ha Hh).
        eapply Forall_impl; [|exact Ht]. simpl. intros a Hlt Hidx.
        specialize (Hlt Hidx). lia.
      * eapply Forall_impl; [|exact Ht]. simpl. congruence.
  - inversion H as [|? ? _ Hrest Hen|? ? Hno _]; subst; [|congruence].
    apply enumerated_index; auto.
    apply Forall_app in Hrest. destruct Hrest as [H1 H2].
    apply Forall_app. split; auto.
Qed.

Lemma enumerated_define (k : string) (v : JsVal) (o : Obj) :
  enumerated (keys o) -> enumerated (keys (define k v o)).
Proof.
  intro Hen. pose proof (keys_define k v o) as H.
  destruct (has k o); [now rewrite H|].
  destruct (is_array_index k) eqn:Hk.
  - destruct H as (before & after & Hkeys & -> & Hb & Ha).
    rewrite Hkeys in Hen. now apply enumerated_insert.
  - rewrite H. now apply enumerated_snoc.
Qed.

(** The keys that are no index keep the order in which they were added. *)
Lemma others_define (k : string) (v : JsVal) (o : Obj) :
  filter nonindex (keys (define k v o))
  = if (has k o || is_array_index k)%bool
    then filter nonindex (keys o)
    else filter nonindex (keys o) ++ [k].
Proof.
  pose proof (keys_define k v o) as H.
  destruct (has k o); [now rewrite H|]. simpl.
  destruct (is_array_index k) eqn:Hk.
  - destruct H as (before & after & -> & -> & _).
    rewrite !filter_app. simpl. unfold nonindex at 2. now rewrite Hk.
  - rewrite H, filter_app. simpl. unfold nonindex at 2. now rewrite Hk.
Qed.

(** An enumeration is its indices, in order, then the other keys. *)
Lemma enumerated_parts (ks : list string) :
  enumerated ks ->
  ks = filter is_array_index ks ++ filter nonindex ks
  /\ ascending (filter is_array_index ks).
Proof.
  induction 1 as [|k rest Hk Hrest _ [IH1 IH2]|k rest Hk Hrest]; simpl.
  - split; constructor.
  - unfold nonindex at 1. rewrite Hk. simpl. split; [now f_equal|].
    constructor; auto.
    apply Forall_forall. intros x Hx. apply filter_In in Hx.
    destruct Hx as [Hx1 Hx2]. rewrite Forall_forall in Hrest. auto.
  - unfold nonindex at 1. rewrite Hk. simpl.
    assert (E1 : filter is_array_index rest = []).
    { clear Hk. induction Hrest as [|a l Ha _ IH]; simpl; auto.
      now rewrite Ha. }
    assert (E2 : filter nonindex rest = rest).
    { clear Hk E1. induction Hrest as [|a l Ha _ IH]; simpl; auto.
      unfold nonindex at 1. rewrite Ha. simpl. now f_equal. }
    rewrite E1, E2. split; [reflexivity | constructor].
Qed.

Lemma first_seen_snoc (l : list string) (k : string) :
  first_seen (l ++ [k])
  = if existsb (String.eqb k) l then first_seen l else first_seen l ++ [k].
Proof.
  induction l as [|a l IH]; simpl; auto.
  rewrite IH. destruct (String.eqb k a) eqn:E; simpl.
  - destruct (existsb (String.eqb k) l); auto.
    rewrite filter_app. simpl. rewrite E. simpl. now rewrite app_nil_r.
  - destruct (existsb (String.eqb k) l); auto.
    rewrite filter_app. simpl. now rewrite E.
Qed.

Lemma in_first_seen (l : list string) (k : string) :
  In k (first_seen l) <-> In k l.
Proof.
  induction l as [|a l IH]; simpl; [tauto|].
  rewrite filter_In, IH, negb_true_iff, String.eqb_neq.
  destruct (string_dec a k); [subst|]; intuition congruence.
Qed.

Section Groups.

Variable helpers : Helpers.

Lemma related_groups_snoc (entities : list Obj) (e : Obj) :
  related_groups helpers (entities ++ [e])
  = match related_groups helpers entities with
    | inl err => inl err
    | inr acc =>
        match match member acc (relation_key helpers e) with
              | Own v => spread_elements (js_or v (VArr []))
              | Inherited => inl not_iterable
              | Absent => inr []
              end with
        | inl err => inl err
        | inr ids =>
            inr (define (relation_key helpers e)
                   (VArr (ids ++ [relation_id helpers e])) acc)
        end
    end.
Proof. unfold related_groups. now rewrite fold_left_app. Qed.

Lemma ids_under_snoc (entities : list Obj) (e : Obj) (k : string) :
  ids_under helpers (entities ++ [e]) k
  = ids_under helpers entities k
    ++ (if String.eqb (relation_key helpers e) k
        then [relation_id helpers e] else []).
Proof.
  unfold ids_under. rewrite filter_app, map_app. cbn [filter].
  now destruct (String.eqb (relation_key helpers e) k).
Qed.

Lemma ids_under_named (entities : list Obj) (k : string) :
  ids_under helpers entities k <> []
  <-> In k (map (relation_key helpers) entities).
Proof.
  unfold ids_under. induction entities as [|e entities IH]; simpl.
  - tauto.
  - destruct (String.eqb (relation_key helpers e) k) eqn:E; simpl.
    + apply String.eqb_eq in E. split; [now left | discriminate].
    + apply String.eqb_neq in E. rewrite IH. tauto.
Qed.

Lemma named_existsb (l : list string) (k : string) :
  existsb (String.eqb k) l = true <-> In k l.
Proof.
  rewrite existsb_exists. split.
  - intros (x & Hx & E). apply String.eqb_eq in E. now subst.
  - intro H. exists k. split; auto. apply String.eqb_refl.
Qed.

(** The reducer either throws, at a collection named like a member of
    [Object.prototype], or has grouped the batch. *)
Lemma related_groups_inv (entities : list Obj) :
  match related_groups helpers entities with
  | inl err =>
      err = not_iterable
      /\ exists entity,
           In entity entities
           /\ inherited (relation_key helpers entity) = true
  | inr groups => grouped helpers entities groups
  end.
Proof.
  induction entities as [|e entities IH] using rev_ind.
  - split; [intros entity []|].
    split; [apply enumerated_nil|]. split; [constructor|].
    split; reflexivity.
  - rewrite related_groups_snoc.
    destruct (related_groups helpers entities) as [err|acc].
    { destruct IH as (-> & entity & Hin & Hentity). split; auto.
      exists entity. split; auto. apply in_or_app. now left. }
    destruct IH as (Hown & Henum & Hnd & Hlookup & Hothers).
    set (k := relation_key helpers e).
    set (id := relation_id helpers e).
    assert (Hnamed : lookup k acc <> None
                     <-> In k (map (relation_key helpers) entities)).
    { rewrite <- ids_under_named, Hlookup.
      destruct (ids_under helpers entities k); split; congruence. }
    assert (Hgrouped :
              forall ids,
                inherited k = false ->
                ids = ids_under helpers entities k ->
                grouped helpers (entities ++ [e])
                  (define k (VArr (ids ++ [id])) acc)).
    { intros ids Hk ->. split; [|split; [|split; [|split]]].
      - intros entity Hin. apply in_app_or in Hin.
        destruct Hin as [Hin | [<- | []]]; auto.
      - now apply enumerated_define.
      - now apply NoDup_keys_define.
      - intro k'. rewrite lookup_define, ids_under_snoc. fold k id.
        destruct (String.eqb k' k) eqn:E.
        + apply String.eqb_eq in E. subst k'. rewrite String.eqb_refl.
          now destruct (ids_under helpers entities k).
        + rewrite String.eqb_sym, E. cbv iota. rewrite app_nil_r.
          apply Hlookup.
      - rewrite others_define, Hothers, map_app, filter_app. cbn [map filter].
        fold k. change (nonindex k) with (negb (is_array_index k)).
        unfold has.
        destruct (is_array_index k) eqn:Hidx; cbn [negb]; cbv iota.
        + rewrite orb_true_r. now rewrite app_nil_r.
        + rewrite orb_false_r, first_seen_snoc.
          assert (Hin : lookup k acc <> None
                        <-> In k (filter nonindex
                                    (map (relation_key helpers) entities))).
          { rewrite Hnamed, filter_In. unfold nonindex. rewrite Hidx.
            cbn [negb]. tauto. }
          destruct (lookup k acc) eqn:L.
          * replace (existsb _ _) with true; auto.
            symmetry. apply named_existsb. apply Hin. discriminate.
          * replace (existsb _ _) with false; auto.
            symmetry. apply not_true_is_false. rewrite named_existsb.
            intro H. apply Hin in H. congruence. }
    unfold member. destruct (lookup k acc) as [v|] eqn:L.
    + assert (Hin : In k (map (relation_key helpers) entities))
        by (apply Hnamed; congruence).
      rewrite Hlookup in L.
      destruct (ids_under helpers entities k) as [|x l] eqn:Hids;
        [discriminate|].
      injection L as <-. cbn [js_or truthy spread_elements].
      apply Hgrouped; auto.
      apply in_map_iff in Hin. destruct Hin as (entity & <- & Hentity).
      auto.
    + destruct (inherited k) eqn:Hk.
      * split; auto. exists e. split; auto. apply in_or_app. right. now left.
      * apply Hgrouped; auto. rewrite Hlookup in L.
        now destruct (ids_under helpers entities k).
Qed.

Lemma related_groups_entry (entities : list Obj) (groups : Obj)
  (k : string) (v : JsVal) :
  related_groups helpers entities = inr groups ->
  In (k, v) groups ->
  v = VArr (ids_under helpers entities k).
Proof.
  intros Hgroups H. pose proof (related_groups_inv entities) as Hinv.
  rewrite Hgroups in Hinv. destruct Hinv as (_ & _ & Hnd & Hlookup & _).
  apply lookup_in in H; auto. rewrite Hlookup in H.
  destruct (ids_under helpers entities k); [discriminate|].
  now injection H as <-.
Qed.

End Groups.

(** X4. The grouping step of [findRelatedEntitiesFor].  It throws, a
    [TypeError], exactly when a comment of the batch names a collection like
    a member of [Object.prototype].  Otherwise each collection key appears
    once, and under a key stand the ids of exactly the comments of the batch
    whose relation names that collection, in the order of the batch, each as
    the number [parseInt] makes of it; a key that no comment names is not
    there. *)
Theorem related_groups_complete (helpers : Helpers) (entities : list Obj) :
  match related_groups helpers entities with
  | inl err =>
      err = not_iterable
      /\ exists entity,
           In entity entities
           /\ inherited (relation_key helpers entity) = true
  | inr groups =>
      (forall entity, In entity entities ->
         inherited (relation_key helpers entity) = false)
      /\ NoDup (keys groups)
      /\ (forall k,
            lookup k groups
            = match ids_under helpers entities k with
              | [] => None
              | _ :: _ => Some (VArr (ids_under helpers entities k))
              end)
      /\ (forall e, In e entities ->
            exists ids,
              lookup (relation_key helpers e) groups = Some (VArr ids)
              /\ In (relation_id helpers e) ids)
  end.
Proof.
  pose proof (related_groups_inv helpers entities) as Hinv.
  destruct (related_groups helpers entities) as [err|groups]; [exact Hinv|].
  destruct Hinv as (Hown & _ & Hnd & Hlookup & _).
  split; [exact Hown|]. split; [exact Hnd|]. split; [exact Hlookup|].
  intros e He. rewrite Hlookup.
  assert (Hin : In (relation_id helpers e)
                  (ids_under helpers entities (relation_key helpers e))).
  { unfold ids_under. apply in_map. apply filter_In.
    split; [exact He | apply String.eqb_refl]. }
  destruct (ids_under helpers entities (relation_key helpers e)) as [|x l];
    [contradiction|].
  eauto.
Qed.

Lemma related_groups_complete_witness :
  let batch :=
    [MemStore.comment 1 VNull "article:1"; MemStore.comment 2 VNull "page:7";
     MemStore.comment 3 VNull "article:1"] in
  let groups :=
    [("article", VArr [VNum (Fin 1); VNum (Fin 1)]);
     ("page", VArr [VNum (Fin 7)])] in
  related_groups MemStore.helpers batch = inr groups
  /\ (exists ids,
        lookup "page" groups = Some (VArr ids) /\ In (VNum (Fin 7)) ids)
  /\ related_groups MemStore.helpers
       [MemStore.comment 1 VNull "constructor:1"]
     = inl not_iterable.
Proof.
  intros batch groups. split; [reflexivity|]. split; [|reflexivity].
  pose proof (related_groups_complete MemStore.helpers batch) as H.
  change (related_groups MemStore.helpers batch)
    with (@inr Error Obj groups) in H.
  destruct H as (_ & _ & _ & H).
  exact (H (MemStore.comment 2 VNull "page:7")
           (or_intror (or_introl eq_refl))).
Defined.

(** ** The store calls of the relation lookup *)

Section Logs.

Context {W : Type}.

Lemma logs_call_ret {A B} (c : Call) (op : W -> outcome A * W)
  (f : A -> B) :
  logs (r <- call c op ;; ret (f r)) [c].
Proof.
  intro st. unfold bind, call, ret.
  now destruct (op (fst st)) as [[a|e|] w].
Qed.

Lemma logs_bind_ret {A B} (m : M W A) (f : A -> B) (cs : list Call) :
  logs m cs -> logs (r <- m ;; ret (f r)) cs.
Proof.
  intros H st. unfold bind, ret. specialize (H st).
  now destruct (m st) as [[a|e|] st1].
Qed.

Lemma logs_promise_all_map {A X} (f : X -> M W A) (c : X -> Call)
  (l : list X) :
  (forall x, logs (f x) [c x]) ->
  logs (promise_all (map f l)) (map c l).
Proof.
  intro H. induction l as [|x l IH]; intro st; simpl.
  - now rewrite app_nil_r.
  - specialize (H x st). destruct (f x st) as [r st1].
    specialize (IH st1). destruct (promise_all (map f l) st1) as [rs st2].
    simpl in *. rewrite IH, H. now rewrite <- app_assoc.
Qed.

Lemma logs_findRelatedEntitiesFor (strapi : Strapi W) (helpers : Helpers)
  (entities : list Obj) :
  logs (findRelatedEntitiesFor strapi helpers entities)
       (relation_calls helpers entities).
Proof.
  unfold findRelatedEntitiesFor, relation_calls.
  destruct (related_groups helpers entities) as [err|groups].
  { intro st. unfold throw. cbn [snd]. now rewrite app_nil_r. }
  apply logs_bind_ret.
  apply (logs_promise_all_map
           (fun entry : string * JsVal =>
              let (relatedUid, relatedStringIds) := entry in
              relatedEntities <-
                call (CFindMany relatedUid
                        [("where",
                          VObj [("id",
                                 VArr (dedup match relatedStringIds with
                                             | VArr l => l
                                             | _ => []
                                             end))])])
                     (q_findMany (db strapi) relatedUid
                        [("where",
                          VObj [("id",
                                 VArr (dedup match relatedStringIds with
                                             | VArr l => l
                                             | _ => []
                                             end))])]) ;;
              ret (map (fun e => spread e [("uid", VStr relatedUid)])
                       relatedEntities))).
  intros [uid ids]. apply logs_call_ret.
Qed.

Lemma logs_thread_summaries (strapi : Strapi W) (helpers : Helpers)
  (entries : list Obj) :
  logs (promise_all (map (thread_summary strapi helpers) entries))
       (thread_calls helpers entries).
Proof.
  unfold thread_calls. apply logs_promise_all_map.
  intros entry st. unfold thread_summary, bind, call, ret.
  now destruct (q_findWithCount (db strapi) _ _ (fst st))
    as [[[l c]|e|] w].
Qed.

(** What [Promise.all] resolves with, value by value. *)
Lemma promise_all_resolved {A} (ms : list (M W A)) (st st' : St W)
  (l : list A) :
  promise_all ms st = (Resolved l, st') ->
  Forall2 (fun m a => exists s s', m s = (Resolved a, s')) ms l.
Proof.
  revert st st' l. induction ms as [|m ms IH]; intros st st' l; simpl.
  - unfold ret. intros [= <- _]. constructor.
  - destruct (m st) as [r st1] eqn:Em.
    destruct (promise_all ms st1) as [rs st2] eqn:E.
    destruct r as [a|e|]; destruct rs as [l0|e0|]; try discriminate.
    intros [= <- _]. constructor; eauto.
Qed.

End Logs.

(** The numbers among the values, compared as [Set] compares them. *)
Lemma same_value_zero_numbers (x y : JsVal) :
  isNumber x = true -> isNumber y = true ->
  same_value_zero x y = true <-> x = y.
Proof.
  destruct x as [| | |a| | |]; try discriminate.
  destruct y as [| | |b| | |]; try discriminate.
  intros _ _. simpl.
  destruct a as [a| |s], b as [b| |t]; simpl;
    try (split; [discriminate | intro H; discriminate H]);
    try (split; reflexivity).
  - rewrite Z.eqb_eq. split; [now intros -> | now intros [= ->]].
  - split.
    + intro H. apply Bool.eqb_prop in H. now subst.
    + intros [= ->]. apply Bool.eqb_reflx.
Qed.

Lemma dedup_from_numbers (seen l : list JsVal) :
  Forall (fun x => isNumber x = true) seen ->
  Forall (fun x => isNumber x = true) l ->
  NoDup (dedup_from seen l)
  /\ forall x, In x (dedup_from seen l) <-> In x l /\ ~ In x seen.
Proof.
  intros Hseen Hl. revert seen Hseen.
  induction Hl as [|a l Ha Hl IH]; intros seen Hseen; simpl.
  - split; [constructor | tauto].
  - assert (Hex : existsb (same_value_zero a) seen = true <-> In a seen).
    { rewrite existsb_exists. split.
      - intros (y & Hy & E).
        apply same_value_zero_numbers in E; auto.
        + now subst.
        + rewrite Forall_forall in Hseen. auto.
      - intro Hin. exists a. split; auto.
        now apply same_value_zero_numbers. }
    destruct (existsb (same_value_zero a) seen) eqn:E.
    + destruct (IH seen Hseen) as [Hnd Hin]. split; auto.
      intro x. rewrite Hin. split; [tauto|].
      intros [[<- | H] Hn]; [|tauto].
      exfalso. apply Hn. now apply Hex.
    + destruct (IH (a :: seen)) as [Hnd Hin]; [now constructor|].
      assert (Hna : ~ In a seen)
        by (intro H; apply Hex in H; discriminate).
      split.
      * constructor; auto. rewrite Hin. simpl. tauto.
      * intro x. simpl. rewrite Hin. simpl. split.
        -- intros [<- | [H1 H2]]; tauto.
        -- intros [[<- | H1] H2]; [tauto|].
           assert (Hx : isNumber x = true)
             by (rewrite Forall_forall in Hl; auto).
           destruct (same_value_zero a x) eqn:Es.
           ++ apply same_value_zero_numbers in Es; auto.
           ++ right. split; auto. intros [<- | H3]; [|tauto].
              rewrite (proj2 (same_value_zero_numbers a a Ha Ha) eq_refl)
                in Es.
              discriminate.
Qed.

Lemma ids_under_numbers (helpers : Helpers) (entities : list Obj)
  (k : string) :
  Forall (fun x => isNumber x = true) (ids_under helpers entities k).
Proof.
  unfold ids_under. apply Forall_forall. intros x Hx.
  apply in_map_iff in Hx. now destruct Hx as (e & <- & _).
Qed.

Lemma relation_calls_by_key (helpers : Helpers) (entities : list Obj)
  (groups : Obj) :
  related_groups helpers entities = inr groups ->
  relation_calls helpers entities
  = map (fun k =>
           CFindMany k
             [("where",
               VObj [("id", VArr (dedup (ids_under helpers entities k)))])])
        (keys groups).
Proof.
  intro Hgroups. unfold relation_calls, keys. rewrite Hgroups, map_map.
  apply map_ext_in.
  intros [k v] Hin. apply (related_groups_entry _ _ _ _ _ Hgroups) in Hin.
  now subst v.
Qed.

(** X5. The store calls of [findRelatedEntitiesFor], whatever the store
    answers.  When the grouping throws, the call is rejected with that
    error and no call is made.  Otherwise there is one [findMany] for each
    collection the batch names, each collection once, asking for the ids
    under that collection with every repetition removed; the collections
    come in the order an object lists its keys: first those that are array
    indices, in ascending order, then the others in the order the batch
    first names them.  All of the calls are made, also when one of them is
    rejected. *)
Theorem findRelatedEntitiesFor_calls {W : Type} (strapi : Strapi W)
  (helpers : Helpers) (entities : list Obj) (st : St W) :
  match related_groups helpers entities with
  | inl err =>
      findRelatedEntitiesFor strapi helpers entities st = (Rejected err, st)
  | inr groups =>
      snd (snd (findRelatedEntitiesFor strapi helpers entities st))
      = snd st ++
        map (fun k =>
               CFindMany k
                 [("where",
                   VObj [("id",
                          VArr (dedup (ids_under helpers entities k)))])])
            (keys groups)
      /\ NoDup (keys groups)
      /\ (exists indices,
            keys groups
            = indices ++
              first_seen
                (filter nonindex (map (relation_key helpers) entities))
            /\ ascending indices
            /\ forall k,
                 In k indices
                 <-> is_array_index k = true
                     /\ In k (map (relation_key helpers) entities))
      /\ (forall k,
            NoDup (dedup (ids_under helpers entities k))
            /\ forall x,
                 In x (dedup (ids_under helpers entities k))
                 <-> In x (ids_under helpers entities k))
  end.
Proof.
  pose proof (related_groups_inv helpers entities) as Hinv.
  pose proof (logs_findRelatedEntitiesFor strapi helpers entities st) as Hlog.
  destruct (related_groups helpers entities) as [err|groups] eqn:Hgroups.
  { unfold findRelatedEntitiesFor. now rewrite Hgroups. }
  destruct Hinv as (_ & Henum & Hnd & Hlookup & Hothers).
  split; [|split; [exact Hnd|split]].
  - rewrite Hlog. f_equal. now apply relation_calls_by_key.
  - destruct (enumerated_parts _ Henum) as [Hparts Hsorted].
    exists (filter is_array_index (keys groups)).
    split; [now rewrite <- Hothers|]. split; [exact Hsorted|].
    intro k. rewrite filter_In, in_keys_lookup, Hlookup.
    rewrite <- (ids_under_named helpers entities k).
    destruct (ids_under helpers entities k); split; intros [H1 H2];
      split; congruence.
  - intro k.
    destruct (dedup_from_numbers [] (ids_under helpers entities k))
      as [Hnd' Hin]; [constructor | apply ids_under_numbers|].
    split; [exact Hnd'|]. intro x. unfold dedup. rewrite Hin. simpl. tauto.
Qed.

Lemma relation_lookups_resolved {W : Type} (strapi : Strapi W)
  (groups : Obj) (results : list (list Obj)) :
  Forall2 (fun (m : M W (list Obj)) a => exists s s', m s = (Resolved a, s'))
    (map (fun entry : string * JsVal =>
            let (relatedUid, relatedStringIds) := entry in
            let args :=
              [("where",
                VObj [("id",
                       VArr (dedup match relatedStringIds with
                                   | VArr l => l
                                   | _ => []
                                   end))])] in
            relatedEntities <-
              call (CFindMany relatedUid args)
                   (q_findMany (db strapi) relatedUid args) ;;
            ret (map (fun e => spread e [("uid", VStr relatedUid)])
                     relatedEntities))
         groups)
    results ->
  Forall2
    (fun (entry : string * JsVal) tagged =>
       exists fetched w w',
         q_findMany (db strapi) (fst entry)
           [("where",
             VObj [("id",
                    VArr (dedup match snd entry with
                                | VArr l => l
                                | _ => []
                                end))])] w
         = (Resolved fetched, w')
         /\ tagged = map (fun e => assign "uid" (VStr (fst entry)) e) fetched)
    groups results.
Proof.
  revert results. induction groups as [|[k v] groups IH]; intros results H;
    inversion H as [|m a ms l (s & s' & Hm) Hrest]; subst; constructor.
  - unfold bind, call, ret in Hm. cbn [fst snd].
    destruct (q_findMany (db strapi) k _ (fst s)) as [[fetched|e|] w'] eqn:E;
      try discriminate.
    injection Hm as <- _. eauto.
  - now apply IH.
Qed.

(** X6. What [findRelatedEntitiesFor] resolves with: the records the store
    gave for each collection, collection after collection, each record with
    its [uid] set to the collection it was fetched from (in place of any
    [uid] of its own). *)
Theorem findRelatedEntitiesFor_tagged {W : Type} (strapi : Strapi W)
  (helpers : Helpers) (entities : list Obj) (st st' : St W)
  (found : list Obj) :
  findRelatedEntitiesFor strapi helpers entities st = (Resolved found, st') ->
  exists groups,
    related_groups helpers entities = inr groups
    /\ (exists results,
          found = List.concat results
          /\ Forall2
               (fun (entry : string * JsVal) tagged =>
                  exists fetched w w',
                    q_findMany (db strapi) (fst entry)
                      [("where",
                        VObj [("id",
                               VArr (dedup match snd entry with
                                           | VArr l => l
                                           | _ => []
                                           end))])] w
                    = (Resolved fetched, w')
                    /\ tagged
                       = map (fun e => assign "uid" (VStr (fst entry)) e)
                           fetched)
               groups results)
    /\ Forall
         (fun record =>
            exists k, In k (keys groups) /\ oprop record "uid" = VStr k)
         found.
Proof.
  unfold findRelatedEntitiesFor.
  destruct (related_groups helpers entities) as [err|groups];
    [discriminate|].
  unfold bind.
  match goal with
  | |- context [promise_all ?ms st] =>
      destruct (promise_all ms st) as [[results|e|] s1] eqn:E;
      try discriminate
  end.
  unfold ret. intros [= <- _]. exists groups. split; [reflexivity|].
  apply promise_all_resolved, relation_lookups_resolved in E.
  split; [eauto|].
  apply Forall_forall. intros record Hin.
  apply in_concat in Hin. destruct Hin as (tagged & Ht & Hr).
  assert (H : Forall
                (fun tagged =>
                   forall record, In record tagged ->
                     exists k,
                       In k (keys groups) /\ oprop record "uid" = VStr k)
                results).
  { eapply Forall2_right; [exact E|].
    intros [k v] tg Hentry (fetched & w & w' & _ & ->) rec Hrec.
    apply in_map_iff in Hrec. destruct Hrec as (e0 & <- & _).
    exists k. split.
    - change k with (fst (k, v)). now apply in_map.
    - apply oprop_assign_same. }
  rewrite Forall_forall in H. exact (H tagged Ht record Hr).
Qed.

Lemma findRelatedEntitiesFor_tagged_witness :
  let w : MemStore.World :=
    [("article", [[("id", VNum (Fin 1)); ("uid", VStr "own")]])] in
  exists found,
    fst (findRelatedEntitiesFor MemStore.plain MemStore.helpers
           [MemStore.comment 1 VNull "article:1"] (w, []))
    = Resolved found
    /\ found = [[("id", VNum (Fin 1)); ("uid", VStr "article")]]
    /\ exists groups,
         related_groups MemStore.helpers
           [MemStore.comment 1 VNull "article:1"] = inr groups
         /\ Forall
              (fun record =>
                 exists k,
                   In k (keys groups) /\ oprop record "uid" = VStr k)
              found.
Proof.
  intro w. eexists. split; [reflexivity|]. split; [reflexivity|].
  destruct (findRelatedEntitiesFor_tagged MemStore.plain MemStore.helpers
              [MemStore.comment 1 VNull "article:1"] (w, []) _ _ eq_refl)
    as (groups & Hgroups & _ & Htagged).
  exists groups. split; [exact Hgroups | exact Htagged].
Defined.

(** ** Merging, when there is a match *)




(** ** The store calls of findAllFlat *)

Section FlatCalls.

Context {W : Type}.
Variable strapi : Strapi W.
Variable helpers : Helpers.
Variables (query populate : Obj) (sort : SortArg) (pagination : option Obj).
Variable relatedEntity : JsVal.

(** After the main query (and the count): one thread query for each entry,
    then the relation lookups, unless a related entity was supplied or a
    thread query did not resolve. *)
Lemma calls_after_entries (entries : list Obj) (meta : Obj) (st : St W) :
  exists rest,
    snd (snd
           ((entriesWithThreads <-
               promise_all (map (thread_summary strapi helpers) entries) ;;
             relatedEntities <-
               match relatedEntity with
               | VNull | VUndefined =>
                   found <- findRelatedEntitiesFor strapi helpers entries ;;
                   ret (map VObj found)
               | _ => ret [relatedEntity]
               end ;;
             ret (respond
                    (map (annotate helpers query entriesWithThreads) entries)
                    relatedEntities meta)) st))
    = snd st ++ thread_calls helpers entries ++ rest
    /\ (rest = [] \/ rest = relation_calls helpers entries)
    /\ (isNil relatedEntity = false -> rest = []).
Proof.
  unfold bind at 1.
  pose proof (logs_thread_summaries strapi helpers entries st) as Hthreads.
  destruct (promise_all (map (thread_summary strapi helpers) entries) st)
    as [[ews|e|] st1]; cbn [snd] in *.
  2, 3: exists []; rewrite app_nil_r;
    split; [exact Hthreads | split; [now left | reflexivity]].
  assert (Hsupplied :
            forall v : JsVal,
              snd (snd ((relatedEntities <- ret [v] ;;
                         ret (respond
                                (map (annotate helpers query ews) entries)
                                relatedEntities meta)) st1))
              = snd st ++ thread_calls helpers entries ++ [])
    by (intro v; cbn; now rewrite app_nil_r).
  assert (Hfetched :
            snd (snd ((relatedEntities <-
                         (found <-
                            findRelatedEntitiesFor strapi helpers entries ;;
                          ret (map VObj found)) ;;
                       ret (respond
                              (map (annotate helpers query ews) entries)
                              relatedEntities meta)) st1))
            = snd st ++ thread_calls helpers entries ++
              relation_calls helpers entries).
  { rewrite (logs_bind_ret _ _ _
               (logs_bind_ret _ _ _
                  (logs_findRelatedEntitiesFor strapi helpers entries)) st1).
    now rewrite Hthreads, <- app_assoc. }
  destruct relatedEntity;
    try (exists []; split; [apply Hsupplied | split; [now left | reflexivity]]);
    (exists (relation_calls helpers entries);
     split; [exact Hfetched | split; [now right | discriminate]]).
Qed.

End FlatCalls.

(** X8. The store calls of [findAllFlat] once the main query has resolved
    (and the count, when one is requested): the main query, the count if
    requested, then one [findWithCount] for each entry, in order, on
    [threadOf] equal to the entry's id; after them the relation lookups of
    [findRelatedEntitiesFor], or nothing; and nothing when a related entity
    was supplied, which is then never looked up. *)
Theorem findAllFlat_calls {W : Type} (strapi : Strapi W) (helpers : Helpers)
  (query populate : Obj) (sort : SortArg) (pagination : option Obj)
  (relatedEntity : JsVal) (st : St W) (entries : list Obj) (w1 : W) :
  let uid := getModelUid helpers "comment" in
  let args := findMany_args helpers query populate sort pagination in
  let cargs : Obj := [("where", VObj (spread [] query))] in
  q_findMany (db strapi) uid args (fst st) = (Resolved entries, w1) ->
  (withCount_requested pagination = true ->
   exists total w2, q_count (db strapi) uid cargs w1 = (Resolved total, w2)) ->
  exists rest,
    snd (snd (findAllFlat strapi helpers query populate sort pagination
                relatedEntity st))
    = snd st ++
      CFindMany uid args
        :: (if withCount_requested pagination then [CCount uid cargs] else [])
        ++ map (fun entry =>
                  CFindWithCount uid
                    [("where", VObj [("threadOf", oprop entry "id")])])
               entries
        ++ rest
    /\ (rest = [] \/ rest = relation_calls helpers entries)
    /\ (isNil relatedEntity = false -> rest = []).
Proof.
  intros uid args cargs Hfind Hcount.
  unfold findAllFlat. fold uid args cargs.
  unfold bind at 1, call at 1. rewrite Hfind. unfold bind at 1.
  destruct (withCount_requested pagination).
  - destruct (Hcount eq_refl) as (total & w2 & Hc).
    unfold bind at 1, call at 1. cbn [fst snd]. rewrite Hc. unfold ret at 1.
    match goal with
    | |- exists rest, snd (snd (?k ?s)) = _ /\ _ =>
        destruct (calls_after_entries strapi helpers query relatedEntity
                    entries (meta_with_count (meta_of pagination) total) s)
          as (rest & Hlog & Hrest)
    end.
    exists rest. split; [|exact Hrest].
    rewrite Hlog. cbn [snd app]. rewrite <- !app_assoc. reflexivity.
  - unfold ret at 1.
    match goal with
    | |- exists rest, snd (snd (?k ?s)) = _ /\ _ =>
        destruct (calls_after_entries strapi helpers query relatedEntity
                    entries (meta_of pagination) s)
          as (rest & Hlog & Hrest)
    end.
    exists rest. split; [|exact Hrest].
    rewrite Hlog. cbn [snd app]. rewrite <- !app_assoc. reflexivity.
Qed.

Lemma findAllFlat_calls_witness :
  let supplied := VObj [("id", VNum (Fin 1)); ("uid", VStr "article")] in
  let uid := MemStore.comments_uid in
  snd (snd (findAllFlat MemStore.plain MemStore.helpers [] [] NoSort None
              supplied (MemStore.two_comments, [])))
  = [CFindMany uid
       [("where", VObj []); ("populate", VObj [("authorUser", VBool true)])];
     CFindWithCount uid [("where", VObj [("threadOf", VNum (Fin 1))])];
     CFindWithCount uid [("where", VObj [("threadOf", VNum (Fin 2))])]].
Proof.
  intros supplied uid.
  destruct (findAllFlat_calls MemStore.plain MemStore.helpers [] [] NoSort
              None supplied (MemStore.two_comments, [])
              (MemStore.table uid MemStore.two_comments)
              MemStore.two_comments eq_refl
              (fun H : false = true => ltac:(discriminate H)))
    as (rest & Hlog & _ & Hnone).
  rewrite Hlog, (Hnone eq_refl). reflexivity.
Defined.

(** X9. When there is nothing to merge, [findAllFlat] returns the annotated
    entries as they are, [related] tokens included: so it is when the
    relation lookup of the run finds no record at all, and when the related
    entity supplied is falsy ([false], [0], the empty string). *)
Theorem findAllFlat_unmerged {W : Type} (strapi : Strapi W)
  (helpers : Helpers) (query populate : Obj) (sort : SortArg)
  (pagination : option Obj) (relatedEntity : JsVal) (st : St W) (r : Obj) :
  fst (findAllFlat strapi helpers query populate sort pagination
         relatedEntity st) = Resolved r ->
  exists (entries entriesWithThreads : list Obj)
         (relatedEntities : list JsVal),
    related_of strapi helpers query populate sort pagination relatedEntity st
      entries entriesWithThreads relatedEntities
    /\ (relatedEntities = []
        \/ (isNil relatedEntity = false /\ truthy relatedEntity = false) ->
        oprop r "data"
        = VArr (map VObj
                  (map (annotate helpers query entriesWithThreads) entries))).
Proof.
  intro Hr. apply findAllFlat_course in Hr.
  destruct Hr as (entries & ews & rels & meta & Hcourse & ->).
  exists entries, ews, rels. split; [exact Hcourse|].
  intro Hnone. rewrite respond_data.
  replace (filter truthy rels) with (@nil JsVal); [reflexivity|].
  destruct Hnone as [-> | [Hnil Hfalsy]]; [reflexivity|].
  destruct Hcourse as (st1 & st2 & st3 & _ & _ & _ & Hrels).
  destruct relatedEntity; try discriminate; subst rels;
    cbn [filter]; now rewrite Hfalsy.
Qed.

Lemma findAllFlat_unmerged_witness :
  let w : MemStore.World :=
    [(MemStore.comments_uid, [MemStore.comment 1 VNull "article:7"])] in
  exists looked_up falsy,
    fst (findAllFlat MemStore.plain MemStore.helpers [] [] NoSort None
           VNull (w, [])) = Resolved looked_up
    /\ map (fun c => oprop c "related") (objects_of (oprop looked_up "data"))
       = [VStr "article:7"]
    /\ fst (findAllFlat MemStore.plain MemStore.helpers [] [] NoSort None
              (VBool false) (w, [])) = Resolved falsy
    /\ map (fun c => oprop c "related") (objects_of (oprop falsy "data"))
       = [VStr "article:7"]
    /\ (exists entries entriesWithThreads,
          oprop looked_up "data"
          = VArr (map VObj
                    (map (annotate MemStore.helpers [] entriesWithThreads)
                         entries)))
    /\ (exists entries entriesWithThreads,
          oprop falsy "data"
          = VArr (map VObj
                    (map (annotate MemStore.helpers [] entriesWithThreads)
                         entries))).
Proof.
  intro w. eexists. eexists.
  split; [vm_compute; reflexivity|].
  split; [vm_compute; reflexivity|].
  split; [vm_compute; reflexivity|].
  split; [vm_compute; reflexivity|].
  split.
  - destruct (findAllFlat_unmerged MemStore.plain MemStore.helpers [] []
                NoSort None VNull (w, []) _ eq_refl)
      as (entries & ews & rels & Hcourse & H).
    exists entries, ews. apply H. left.
    destruct Hcourse as (st1 & st2 & st3 & Hmain & Hcount & Hthreads & Hrel).
    vm_compute in Hmain. injection Hmain as <- Hst1.
    change (st2 = st1) in Hcount. subst st2.
    subst st1. vm_compute in Hthreads. injection Hthreads as <- <-.
    destruct Hrel as (found & st4 & Hfound & ->).
    vm_compute in Hfound. now injection Hfound as <- _.
  - destruct (findAllFlat_unmerged MemStore.plain MemStore.helpers [] []
                NoSort None (VBool false) (w, []) _ eq_refl)
      as (entries & ews & rels & _ & H).
    exists entries, ews. apply H. right. split; reflexivity.
Defined.

(** ** What pagination looks at *)

Lemma has_assign_other (k k' : string) (v : JsVal) (o : Obj) :
  k <> k' -> has k (assign k' v o) = has k o.
Proof. intro H. unfold has. now rewrite lookup_assign_other. Qed.

Lemma pagination_value_assign_other (p : Obj) (k k' : string) (v : JsVal)
  (d : Z) :
  k <> k' ->
  pagination_value (assign k' v p) k d = pagination_value p k d.
Proof.
  intro H. unfold pagination_value.
  now rewrite has_assign_other, oprop_assign_other.
Qed.

Lemma pagination_extension_closed (queryExtension p : Obj) :
  pagination_extension queryExtension (Some p)
  = assign "limit"
      (if page_based p
       then pagination_value p "pageSize" 10
       else pagination_value p "limit" 10)
      (assign "offset"
         (if page_based p
          then VNum (num_mul
                       (num_sub (num_of (pagination_value p "page" 1)) (Fin 1))
                       (num_of (pagination_value p "pageSize" 10)))
          else pagination_value p "start" 0)
         queryExtension).
Proof.
  unfold pagination_extension.
  now rewrite !dflt_parsedPagination, paginationByPage_page_based.
Qed.

(** X10. Pagination reads four keys and, under page-based pagination, two:
    setting any other key of the pagination object ([withCount] included)
    changes neither the main query nor the metadata, and when a [page] or
    [pageSize] key is there, neither does setting [start] or [limit]. *)
Theorem pagination_keys_read (helpers : Helpers) (query populate : Obj)
  (sort : SortArg) (p : Obj) (k : string) (v : JsVal) :
  (k <> "page" -> k <> "pageSize" ->
   (k <> "start" /\ k <> "limit") \/ page_based p = true ->
   findMany_args helpers query populate sort (Some (assign k v p))
   = findMany_args helpers query populate sort (Some p)
   /\ meta_of (Some (assign k v p)) = meta_of (Some p)).
Proof.
  intros Hpage HpageSize Hother.
  assert (Hmode : page_based (assign k v p) = page_based p).
  { unfold page_based. now rewrite !has_assign_other by congruence. }
  assert (Hp : pagination_value (assign k v p) "page" 1
               = pagination_value p "page" 1)
    by (apply pagination_value_assign_other; congruence).
  assert (Hps : pagination_value (assign k v p) "pageSize" 10
                = pagination_value p "pageSize" 10)
    by (apply pagination_value_assign_other; congruence).
  unfold findMany_args, queryExtension_of.
  rewrite !pagination_extension_closed, !meta_of_pagination.
  rewrite Hmode, Hp, Hps.
  destruct Hother as [[Hstart Hlimit] | Hbased].
  - rewrite !(pagination_value_assign_other p _ k v) by congruence.
    split; reflexivity.
  - rewrite Hbased. split; reflexivity.
Qed.

Lemma pagination_keys_read_witness :
  let p := [("page", VStr "2"); ("pageSize", VStr "5")] in
  findMany_args MemStore.helpers [] [] NoSort
    (Some (assign "start" (VNum (Fin 40)) p))
  = findMany_args MemStore.helpers [] [] NoSort (Some p)
  /\ meta_of (Some (assign "start" (VNum (Fin 40)) p)) = meta_of (Some p).
Proof.
  intro p.
  apply (pagination_keys_read MemStore.helpers [] [] NoSort p "start"
           (VNum (Fin 40))).
  - discriminate.
  - discriminate.
  - right. reflexivity.
Defined.



(** X12. Without a pagination object nothing is windowed and nothing is
    said about pages: the main query of [findAllFlat] has no [offset] and
    no [limit], and the response has [data] as its only key.  That is the
    query [findAllInHierarchy] makes first, whatever it is asked. *)
Theorem findAllFlat_unpaginated {W : Type} (strapi : Strapi W)
  (helpers : Helpers) (query populate : Obj) (sort : SortArg)
  (relatedEntity : JsVal) (st : St W) :
  let args := findMany_args helpers query populate sort None in
  has "offset" args = false /\ has "limit" args = false
  /\ (forall r,
        fst (findAllFlat strapi helpers query populate sort None
               relatedEntity st) = Resolved r ->
        keys r = ["data"])
  /\ (forall fuel startingFromId dropBlockedThreads,
        exists rest,
          snd (snd (findAllInHierarchy strapi helpers fuel query populate
                      sort startingFromId dropBlockedThreads relatedEntity
                      st))
          = snd st ++ CFindMany (getModelUid helpers "comment") args :: rest).
Proof.
  intro args. subst args.
  split; [|split; [|split]].
  - unfold findMany_args, queryExtension_of, pagination_extension.
    now destruct (sort_extension_shape helpers sort) as [-> | [v ->]].
  - unfold findMany_args, queryExtension_of, pagination_extension.
    now destruct (sort_extension_shape helpers sort) as [-> | [v ->]].
  - intros r Hr.
    destruct (findAllFlat strapi helpers query populate sort None
                relatedEntity st) as [o st'] eqn:Hrun.
    simpl in Hr. subst o.
    apply findAllFlat_resolved in Hrun.
    destruct Hrun as (entries & w1 & meta & ews & rels & _ & Hmeta & _ & ->).
    cbn in Hmeta. subst meta. reflexivity.
  - intros fuel startingFromId dropBlockedThreads.
    rewrite findAllInHierarchy_course.
    destruct (findAllFlat_first_call strapi helpers query populate sort None
                relatedEntity st) as [rest Hrest].
    exists rest. rewrite <- Hrest.
    destruct (findAllFlat strapi helpers query populate sort None
                relatedEntity st) as [[r|e|] st']; reflexivity.
Qed.

Lemma findAllFlat_unpaginated_witness :
  exists r,
    fst (findAllFlat MemStore.plain MemStore.helpers [] [] NoSort None VNull
           (MemStore.ten_comments, [])) = Resolved r
    /\ keys r = ["data"]
    /\ List.length (objects_of (oprop r "data")) = 10%nat.
Proof.
  eexists. split; [vm_compute; reflexivity|]. split; [|vm_compute; reflexivity].
  exact (proj1 (proj2 (proj2 (findAllFlat_unpaginated MemStore.plain
                                MemStore.helpers [] [] NoSort VNull
                                (MemStore.ten_comments, []))))
           _ eq_refl).
Defined.

(** ** What parseInt makes of text that is not a number *)

Lemma digits_uint_then (d : Decimal.uint) (c : ascii) (rest : string)
  (acc : Z) :
  digit_of 10 c = None ->
  digits 10 (NilEmpty.string_of_uint d ++ String c rest) (Some acc)
  = Some (uint_value d acc).
Proof.
  intro Hc. revert acc. induction d; intro acc;
    cbn [NilEmpty.string_of_uint uint_value String.append];
    try (erewrite digits_step by reflexivity; rewrite IHd; reflexivity).
  cbn [digits]. now rewrite Hc.
Qed.

Lemma strip_hex_prefix_other (c : ascii) (rest : string) :
  c <> "x"%char -> c <> "X"%char ->
  strip_hex_prefix (String "0" (String c rest))
  = (10%Z, String "0" (String c rest)).
Proof.
  intros Hx HX.
  destruct c as [[|] [|] [|] [|] [|] [|] [|] [|]]; try reflexivity;
    contradiction.
Qed.

Lemma native_parseInt_uint_then (d : Decimal.uint) (c : ascii)
  (rest : string) (negative : bool) :
  d <> Decimal.Nil ->
  digit_of 10 c = None -> c <> "x"%char -> c <> "X"%char ->
  native_parseInt
    ((if negative then String "-" (NilEmpty.string_of_uint d)
      else NilEmpty.string_of_uint d) ++ String c rest)
  = Fin (if negative then - uint_value d 0 else uint_value d 0).
Proof.
  intros Hd Hc Hx HX.
  assert (Hzero : forall d',
             strip_hex_prefix
               (String "0" (NilEmpty.string_of_uint d' ++ String c rest))
             = (10%Z,
                String "0" (NilEmpty.string_of_uint d' ++ String c rest))).
  { intro d'. destruct d'; cbn [NilEmpty.string_of_uint String.append];
      try reflexivity.
    now apply strip_hex_prefix_other. }
  destruct negative; destruct d; try contradiction;
    cbn [NilEmpty.string_of_uint String.append uint_value];
    unfold native_parseInt;
    cbn [trim_start is_space N_of_ascii N.eqb N.leb orb andb strip_sign];
    try (cbn -[digits]; erewrite digits_step by reflexivity;
         rewrite digits_uint_then by assumption; reflexivity);
    cbn -[digits strip_hex_prefix]; rewrite Hzero;
    erewrite digits_step by reflexivity;
    rewrite digits_uint_then by assumption; reflexivity.
Qed.

Lemma trim_start_nonspace (a : ascii) (s : string) :
  is_space a = false -> trim_start (String a s) = String a s.
Proof. intro H. cbn [trim_start]. now rewrite H. Qed.

Lemma parseInt_space (a : ascii) (s : string) :
  is_space a = true -> parseInt (VStr (String a s)) = parseInt (VStr s).
Proof.
  intro H. unfold parseInt. cbn [lodash_toString baseToString js_ToString].
  cbn [trim_start]. now rewrite H.
Qed.

(** X13. [parseInt], through which every pagination value and every
    relation id goes, reads the leading integer and lets the rest be: the
    decimal digits of [z] followed by text that starts with no digit (and
    no [x], which after a lone [0] would announce a hexadecimal number) give
    [z], and white space in front changes nothing.  So a page size of
    ["5px"] is 5. *)
Theorem parseInt_leading_integer (z : Z) (c : ascii) (rest : string) :
  digit_of 10 c = None -> c <> "x"%char -> c <> "X"%char ->
  parseInt (VStr (string_of_Z z ++ String c rest)) = Fin z
  /\ parseInt (VStr (String " " (string_of_Z z ++ String c rest))) = Fin z
  /\ forall p k d,
       oprop p k = VStr (string_of_Z z ++ String c rest) ->
       pagination_value p k d = VNum (Fin z).
Proof.
  intros Hc Hx HX.
  assert (E : parseInt (VStr (string_of_Z z ++ String c rest)) = Fin z).
  { unfold parseInt. cbn [lodash_toString baseToString js_ToString].
    unfold string_of_Z. destruct z as [|p|p];
      cbn [Z.to_int NilZero.string_of_int].
    - cbn [NilZero.string_of_uint].
      replace (trim_start (NilEmpty.string_of_uint (Decimal.D0 Decimal.Nil)
                           ++ String c rest))
        with (NilEmpty.string_of_uint (Decimal.D0 Decimal.Nil)
              ++ String c rest)%string by reflexivity.
      apply (native_parseInt_uint_then (Decimal.D0 Decimal.Nil) c rest false);
        auto; discriminate.
    - rewrite string_of_uint_nonnil by apply DecimalPos.Unsigned.to_uint_nonnil.
      pose proof (native_parseInt_uint_then (Pos.to_uint p) c rest false
                    (DecimalPos.Unsigned.to_uint_nonnil p) Hc Hx HX) as H.
      cbv beta iota in H.
      replace (trim_start (NilEmpty.string_of_uint (Pos.to_uint p) ++
                           String c rest))
        with (NilEmpty.string_of_uint (Pos.to_uint p) ++ String c rest)%string.
      + rewrite H. now rewrite uint_value_0, DecimalPos.Unsigned.of_to.
      + pose proof (DecimalPos.Unsigned.to_uint_nonnil p) as Hn.
        now destruct (Pos.to_uint p).
    - rewrite string_of_uint_nonnil by apply DecimalPos.Unsigned.to_uint_nonnil.
      pose proof (native_parseInt_uint_then (Pos.to_uint p) c rest true
                    (DecimalPos.Unsigned.to_uint_nonnil p) Hc Hx HX) as H.
      cbv beta iota in H. cbn [String.append] in *.
      rewrite trim_start_nonspace by reflexivity.
      rewrite H. now rewrite uint_value_0, DecimalPos.Unsigned.of_to. }
  split; [exact E|]. split.
  - now rewrite parseInt_space.
  - intros p k d H. unfold pagination_value, has.
    unfold oprop, prop in H.
    destruct (lookup k p) as [v|] eqn:El; [|discriminate].
    unfold oprop, prop. now rewrite El, H, E.
Qed.

Lemma parseInt_leading_integer_witness :
  parseInt (VStr "5px") = Fin 5
  /\ pagination_value [("pageSize", VStr "5px")] "pageSize" 10 = VNum (Fin 5).
Proof.
  destruct (parseInt_leading_integer 5 "p" "x" eq_refl
              ltac:(discriminate) ltac:(discriminate)) as (E & _ & H).
  split; [exact E|].
  exact (H [("pageSize", VStr "5px")] "pageSize" 10%Z eq_refl).
Defined.

Lemma parseInt_no_digit (c : ascii) (rest : string) :
  digit_of 10 c = None -> is_space c = false ->
  c <> "+"%char -> c <> "-"%char ->
  parseInt (VStr (String c rest)) = NaN.
Proof.
  intros Hc Hs Hp Hm.
  destruct c as [[|] [|] [|] [|] [|] [|] [|] [|]];
    first [reflexivity | discriminate Hc | discriminate Hs
          | contradiction].
Qed.

(** X14. Pagination values are parsed, not checked.  A [page] that
    [parseInt] makes [NaN] of (text that starts with no digit, say) puts
    [NaN] into the query as its offset; and page 0 with a page size [s] puts
    the negative offset [- s] there. *)
Theorem pagination_unchecked (helpers : Helpers) (query populate : Obj)
  (sort : SortArg) (p : Obj) :
  (has "page" p = true ->
   parseInt (oprop p "page") = NaN ->
   oprop (findMany_args helpers query populate sort (Some p)) "offset"
   = VNum NaN)
  /\ (forall c rest,
        oprop p "page" = VStr (String c rest) ->
        digit_of 10 c = None -> is_space c = false ->
        c <> "+"%char -> c <> "-"%char ->
        oprop (findMany_args helpers query populate sort (Some p)) "offset"
        = VNum NaN)
  /\ (forall s,
        oprop p "page" = VStr "0" ->
        oprop p "pageSize" = VStr (string_of_Z s) ->
        oprop (findMany_args helpers query populate sort (Some p)) "offset"
        = VNum (Fin (- s))).
Proof.
  destruct (findMany_args_window helpers query populate sort p)
    as (Hoff & _ & _).
  cbv zeta in Hoff. rewrite Hoff.
  assert (Hhas : forall k v, oprop p k = VStr v -> has k p = true).
  { intros k v H. unfold has. unfold oprop, prop in H.
    now destruct (lookup k p). }
  assert (Hnan : has "page" p = true ->
                 parseInt (oprop p "page") = NaN ->
                 (if page_based p
                  then VNum (num_mul
                               (num_sub
                                  (num_of (pagination_value p "page" 1))
                                  (Fin 1))
                               (num_of (pagination_value p "pageSize" 10)))
                  else pagination_value p "start" 0)
                 = VNum NaN).
  { intros Hp Hparse. unfold page_based, pagination_value.
    rewrite Hp, Hparse. reflexivity. }
  split; [exact Hnan|]. split.
  - intros c rest Hpage Hc Hs Hplus Hminus. apply Hnan.
    + now apply (Hhas "page" (String c rest)).
    + rewrite Hpage. now apply parseInt_no_digit.
  - intros s Hpage Hsize. unfold page_based, pagination_value.
    rewrite (Hhas "page" "0" Hpage), (Hhas "pageSize" _ Hsize).
    rewrite Hpage, Hsize.
    destruct (parseInt_decimal s) as [-> _].
    change (parseInt (VStr "0")) with (Fin 0).
    cbn [orb num_of num_sub num_mul]. apply f_equal, f_equal. lia.
Qed.

Lemma pagination_unchecked_witness :
  oprop (findMany_args MemStore.helpers [] [] NoSort
           (Some [("page", VStr "first")])) "offset" = VNum NaN
  /\ oprop (findMany_args MemStore.helpers [] [] NoSort
              (Some [("page", VStr "0"); ("pageSize", VStr "5")])) "offset"
     = VNum (Fin (-5)).
Proof.
  split.
  - exact (proj1 (proj2 (pagination_unchecked MemStore.helpers [] [] NoSort
                           [("page", VStr "first")]))
             "f"%char "irst" eq_refl eq_refl eq_refl
             ltac:(discriminate) ltac:(discriminate)).
  - exact (proj2 (proj2 (pagination_unchecked MemStore.helpers [] [] NoSort
                           [("page", VStr "0"); ("pageSize", VStr "5")]))
             5%Z eq_refl eq_refl).
Defined.

(** ** Sorting *)

Lemma assign_absent (k : string) (v : JsVal) (o : Obj) :
  lookup k o = None -> assign k v o = o ++ [(k, v)].
Proof.
  induction o as [|[k' v'] o IH]; simpl; auto.
  destruct (String.eqb k k'); [discriminate|].
  intro H. now rewrite IH.
Qed.

Lemma spread_fresh (a b : Obj) :
  NoDup (keys (a ++ b)) -> spread a b = a ++ b.
Proof.
  revert a. induction b as [|[k v] b IH]; intros a H.
  - unfold spread. simpl. now rewrite app_nil_r.
  - change (spread a ((k, v) :: b)) with (spread (assign k v a) b).
    assert (Hk : lookup k a = None).
    { apply lookup_none_keys. intro Hin. unfold keys in H.
      rewrite map_app in H. apply NoDup_remove_2 in H. apply H.
      apply in_or_app. now left. }
    rewrite assign_absent by exact Hk.
    rewrite IH; rewrite <- app_assoc; [reflexivity | exact H].
Qed.

(** *** Plain field names *)

Lemma all_chars_impl (p q : ascii -> bool) (s : string) :
  (forall c, p c = true -> q c = true) ->
  all_chars p s = true -> all_chars q s = true.
Proof.
  intro H. induction s as [|c s IH]; simpl; auto.
  intro Hs. apply andb_true_iff in Hs. destruct Hs as [Hc Hs].
  now rewrite (H c Hc), IH.
Qed.

Lemma plain_key_inv (k : string) :
  plain_key k = true ->
  k <> ""
  /\ all_chars (fun c => negb (is_path_special c)) k = true
  /\ all_chars (fun c => negb (Ascii.eqb c ":")) k = true
  /\ unsafe_key k = false
  /\ inherited k = false
  /\ isIndex k = false.
Proof.
  unfold plain_key. intro H.
  repeat (apply andb_true_iff in H; destruct H as [H ?]).
  repeat match goal with
         | H : negb _ = true |- _ => apply negb_true_iff in H
         end.
  split; [now apply String.eqb_neq|].
  split; [|split; [|auto]].
  - eapply all_chars_impl; [|eassumption]. intros c Hc. simpl in Hc.
    now destruct (is_path_special c).
  - eapply all_chars_impl; [|eassumption]. intros c Hc. simpl in Hc.
    destruct (Ascii.eqb c ":"); auto. now rewrite orb_true_r in Hc.
Qed.

Lemma split_on_absent (c : ascii) (s : string) :
  all_chars (fun a => negb (Ascii.eqb a c)) s = true -> split_on c s = [s].
Proof.
  induction s as [|a s IH]; simpl; auto.
  intro H. apply andb_true_iff in H. destruct H as [Ha Hs].
  apply negb_true_iff in Ha. now rewrite Ha, IH.
Qed.

Lemma array_index_isIndex (k : string) :
  isIndex k = false -> array_index k = None.
Proof.
  unfold isIndex, array_index.
  destruct (canonical_uint k); simpl; auto.
  intro H. apply Z.ltb_ge in H.
  destruct (Z.leb (uint_of k) 4294967294) eqn:E; auto.
  apply Z.leb_le in E. lia.
Qed.

Lemma not_deep_plain (s : string) :
  all_chars (fun c => negb (is_path_special c)) s = true ->
  reIsDeepProp s = false.
Proof.
  unfold reIsDeepProp. induction s as [|c s IH]; simpl; auto.
  intro H. apply andb_true_iff in H. destruct H as [Hc Hs].
  apply negb_true_iff in Hc. unfold is_path_special in Hc.
  apply orb_false_iff in Hc. destruct Hc as [Hc H3].
  apply orb_false_iff in Hc. destruct Hc as [H1 H2].
  specialize (IH Hs). apply orb_false_iff in IH. destruct IH as [IH1 IH2].
  now rewrite H1, H2, IH1, IH2.
Qed.

Lemma castPath_key (value : string) (object : Obj) :
  reIsDeepProp value = false -> castPath value object = [value].
Proof.
  intro H. unfold castPath, isKey. rewrite H.
  now destruct (reIsPlainProp value).
Qed.

Lemma take_name_alone (name : string) :
  all_chars (fun c => negb (is_path_special c)) name = true ->
  take_name name = (name, EmptyString).
Proof.
  induction name as [|c name IH]; simpl; auto.
  intro H. apply andb_true_iff in H. destruct H as [Hc Hs].
  apply negb_true_iff in Hc. now rewrite Hc, IH.
Qed.

Lemma take_name_dot (name rest : string) :
  all_chars (fun c => negb (is_path_special c)) name = true ->
  take_name (name ++ String "." rest) = (name, String "." rest).
Proof.
  induction name as [|c name IH]; simpl; auto.
  intro H. apply andb_true_iff in H. destruct H as [Hc Hs].
  apply negb_true_iff in Hc. now rewrite Hc, IH.
Qed.

Lemma path_keys_empty (fuel : nat) : path_keys fuel "" = [].
Proof. now destruct fuel. Qed.

Lemma path_special_not (c : ascii) :
  is_path_special c = false ->
  Ascii.eqb c "." = false /\ Ascii.eqb c "[" = false
  /\ Ascii.eqb c "]" = false.
Proof.
  unfold is_path_special. intro H.
  apply orb_false_iff in H. destruct H as [H H3].
  apply orb_false_iff in H. tauto.
Qed.

Lemma separator_ahead_name (c : ascii) (s : string) :
  is_path_special c = false -> separator_ahead (String c s) = false.
Proof.
  intro H. apply path_special_not in H. destruct H as (H1 & H2 & _).
  destruct c as [[] [] [] [] [] [] [] []]; try reflexivity; discriminate.
Qed.

Lemma length_append (a b : string) :
  String.length (a ++ b) = (String.length a + String.length b)%nat.
Proof. induction a as [|c a IH]; simpl; auto. Qed.

(** The keys of a path of plain names joined by dots are those names. *)
Lemma path_keys_joined (path : list string) :
  Forall (fun k => k <> ""
                   /\ all_chars (fun c => negb (is_path_special c)) k = true)
         path ->
  path <> [] ->
  forall fuel,
    (String.length (join "." path) <= fuel)%nat ->
    path_keys fuel (join "." path) = path.
Proof.
  induction 1 as [|k rest [Hk Hchars] Hrest IH]; [contradiction|].
  intros _ fuel Hfuel.
  destruct k as [|c k]; [contradiction|].
  pose proof Hchars as Hc. cbn [all_chars] in Hc.
  apply andb_true_iff in Hc. destruct Hc as [Hc _].
  apply negb_true_iff in Hc.
  destruct (path_special_not c Hc) as (H1 & H2 & H3).
  destruct rest as [|k' rest].
  - cbn [join] in *. destruct fuel as [|n]; [simpl in Hfuel; lia|].
    cbn [path_keys]. rewrite H1, H2, H3.
    rewrite take_name_alone by exact Hchars. now rewrite path_keys_empty.
  - rewrite join_cons in * by discriminate.
    destruct fuel as [|n]; [simpl in Hfuel; lia|].
    change ((String c k ++ "." ++ join "." (k' :: rest))%string)
      with (String c (k ++ String "." (join "." (k' :: rest)))) in *.
    cbn [path_keys]. rewrite H1, H2, H3.
    change (String c (k ++ String "." (join "." (k' :: rest))))
      with ((String c k ++ String "." (join "." (k' :: rest)))%string).
    rewrite take_name_dot by exact Hchars. f_equal.
    cbn [String.length] in Hfuel. rewrite length_append in Hfuel.
    cbn [String.length] in Hfuel.
    destruct n as [|n]; [lia|].
    cbn [path_keys]. rewrite Ascii.eqb_refl.
    assert (Hhead : exists c' t, join "." (k' :: rest) = String c' t
                                 /\ is_path_special c' = false).
    { inversion Hrest as [|? ? [Hk' Hchars'] _]; subst.
      destruct k' as [|c' k']; [contradiction|].
      cbn [all_chars] in Hchars'. apply andb_true_iff in Hchars'.
      destruct Hchars' as [Hc' _]. apply negb_true_iff in Hc'.
      destruct rest; [exists c', k'; now split|].
      rewrite join_cons by discriminate.
      exists c'. eexists. split; [reflexivity | exact Hc']. }
    destruct Hhead as (c' & t & Ehead & Hc').
    rewrite Ehead at 1. rewrite separator_ahead_name by exact Hc'.
    apply IH; [discriminate | lia].
Qed.

Lemma stringToPath_joined (path : list string) :
  Forall (fun k => k <> ""
                   /\ all_chars (fun c => negb (is_path_special c)) k = true)
         path ->
  path <> [] ->
  stringToPath (join "." path) = path.
Proof.
  intros Hpath Hne. unfold stringToPath.
  rewrite path_keys_joined by auto.
  destruct path as [|k rest]; [contradiction|].
  inversion Hpath as [|? ? [Hk Hchars] _]; subst.
  destruct k as [|c k]; [contradiction|].
  cbn [all_chars] in Hchars. apply andb_true_iff in Hchars.
  destruct Hchars as [Hc _]. apply negb_true_iff in Hc.
  apply path_special_not in Hc. destruct Hc as [Hc _].
  assert (E : exists t, join "." (String c k :: rest) = String c t).
  { destruct rest; [now exists k|].
    rewrite join_cons by discriminate. eexists. reflexivity. }
  destruct E as [t ->].
  destruct c as [[] [] [] [] [] [] [] []]; try reflexivity; discriminate.
Qed.

Lemma contains_char_append (c : ascii) (a b : string) :
  contains_char c (a ++ String c b) = true.
Proof.
  induction a as [|x a IH]; simpl.
  - now rewrite Ascii.eqb_refl.
  - rewrite IH. apply orb_true_r.
Qed.

Lemma not_plain_with_dot (s : string) :
  contains_char "." s = true -> reIsPlainProp s = false.
Proof.
  unfold reIsPlainProp. induction s as [|c s IH]; simpl; [discriminate|].
  intro H. apply orb_true_iff in H. destruct H as [H | H].
  - apply Ascii.eqb_eq in H. subst c. reflexivity.
  - rewrite IH by exact H. apply andb_false_r.
Qed.

(** The path lodash makes of plain names joined by dots, on an object that
    has no key of that very spelling. *)
Lemma castPath_joined (path : list string) (object : Obj) :
  Forall (fun k => plain_key k = true) path ->
  path <> [] ->
  has (join "." path) object = false ->
  castPath (join "." path) object = path.
Proof.
  intros Hplain Hne Hhas.
  assert (Hpath : Forall
                    (fun k =>
                       k <> ""
                       /\ all_chars (fun c => negb (is_path_special c)) k
                          = true) path).
  { eapply Forall_impl; [|exact Hplain]. intros k Hk.
    apply plain_key_inv in Hk. tauto. }
  destruct path as [|k [|k' rest]]; [contradiction| |].
  - inversion Hpath as [|? ? [_ Hchars] _]; subst.
    apply castPath_key. now apply not_deep_plain.
  - unfold castPath, isKey. rewrite Hhas.
    assert (Hdot : contains_char "." (join "." (k :: k' :: rest)) = true).
    { rewrite join_cons by discriminate. apply contains_char_append. }
    rewrite (not_plain_with_dot _ Hdot). unfold reIsDeepProp. rewrite Hdot.
    cbn [orb negb]. now apply stringToPath_joined.
Qed.

(** *** What [set] builds *)

Lemma define_fresh (k : string) (v : JsVal) (o : Obj) :
  array_index k = None -> lookup k o = None -> define k v o = o ++ [(k, v)].
Proof.
  intros Hk Ho. unfold define. rewrite Hk. now apply assign_absent.
Qed.

Lemma baseSet_fresh (path : list string) (direction : string) :
  Forall (fun k => plain_key k = true) path ->
  path <> [] ->
  baseSet (VObj []) path (VStr direction)
  = Some (VObj (ordering_on path direction)).
Proof.
  induction 1 as [|k rest Hk Hrest IH]; [contradiction|]. intros _.
  apply plain_key_inv in Hk.
  destruct Hk as (_ & _ & _ & Hunsafe & Hinherited & Hindex).
  cbn [baseSet]. rewrite Hunsafe.
  destruct rest as [|k' rest].
  - cbn [write_member ordering_on].
    now rewrite define_fresh by (auto using array_index_isIndex).
  - cbn [read_member]. unfold member. cbn [lookup]. rewrite Hinherited.
    cbn [isObject].
    inversion Hrest as [|? ? Hk' _]; subst.
    apply plain_key_inv in Hk'.
    destruct Hk' as (_ & _ & _ & _ & _ & Hindex').
    rewrite Hindex'. rewrite IH by discriminate.
    cbn [write_member].
    now rewrite define_fresh by (auto using array_index_isIndex).
Qed.

Section Sorting.

Variable helpers : Helpers.

(** [set] on the empty object, along a path of plain names. *)
Lemma lodash_set_fresh (path : list string) (direction : string) :
  Forall (fun k => plain_key k = true) path ->
  path <> [] ->
  lodash_set helpers [] (join "." path) (VStr direction)
  = ordering_on path direction.
Proof.
  intros Hplain Hne. unfold lodash_set.
  rewrite castPath_joined by auto. now rewrite baseSet_fresh.
Qed.

(** [set] of one more plain field on an object that does not have it. *)
Lemma lodash_set_field (prev : Obj) (field : string) (value : JsVal) :
  plain_key field = true ->
  lookup field prev = None ->
  lodash_set helpers prev field value = prev ++ [(field, value)].
Proof.
  intros Hplain Hfresh. apply plain_key_inv in Hplain.
  destruct Hplain as (_ & Hchars & _ & Hunsafe & _ & Hindex).
  unfold lodash_set.
  rewrite castPath_key by now apply not_deep_plain.
  cbn [baseSet write_member]. rewrite Hunsafe.
  now rewrite define_fresh by (auto using array_index_isIndex).
Qed.

(** One step of the reducer of lines 64 to 67. *)
Lemma reducer_suffixed (prev : Obj) (s direction : string) :
  split_on ":" direction = [direction] ->
  match rev (split_on ":" (s ++ ":" ++ direction)) with
  | type :: parts =>
      spread [] (lodash_set helpers prev (join "." (rev parts)) (VStr type))
  | [] => spread [] (lodash_set helpers prev "" (VStr "asc"))
  end
  = spread []
      (lodash_set helpers prev (join "." (split_on ":" s)) (VStr direction)).
Proof.
  intro Hd.
  change (s ++ ":" ++ direction)%string with (s ++ String ":" direction)%string.
  rewrite split_on_app, Hd, rev_app_distr. cbn [rev app].
  now rewrite rev_involutive.
Qed.

Lemma orderBy_of_unrecognised (s : string) :
  REGEX_sorting helpers s = false ->
  orderBy_of helpers [s]
  = spread []
      (lodash_set helpers [] (join "." (split_on ":" s)) (VStr "asc")).
Proof.
  intro Hno. unfold orderBy_of. cbn [map fold_left]. rewrite Hno.
  now apply (reducer_suffixed [] s "asc").
Qed.

Lemma orderBy_of_recognised (s direction : string) :
  split_on ":" direction = [direction] ->
  REGEX_sorting helpers (s ++ ":" ++ direction) = true ->
  orderBy_of helpers [(s ++ ":" ++ direction)%string]
  = spread []
      (lodash_set helpers [] (join "." (split_on ":" s)) (VStr direction)).
Proof.
  intros Hd Hyes. unfold orderBy_of. cbn [map fold_left]. rewrite Hyes.
  now apply reducer_suffixed.
Qed.

Lemma spread_ordering (path : list string) (direction : string) :
  spread [] (ordering_on path direction) = ordering_on path direction.
Proof. now destruct path as [|k [|k' rest]]. Qed.

Lemma joined_no_colon (path : list string) :
  Forall (fun k => plain_key k = true) path ->
  split_on ":" (join "." path) = [join "." path].
Proof.
  intro H. apply split_on_absent.
  induction H as [|k rest Hk _ IH]; [reflexivity|].
  apply plain_key_inv in Hk. destruct Hk as (_ & _ & Hcolon & _).
  destruct rest as [|k' rest]; [exact Hcolon|].
  rewrite join_cons by discriminate.
  clear - Hcolon IH. induction k as [|c k IHk]; [exact IH|].
  cbn [all_chars String.append] in *.
  apply andb_true_iff in Hcolon. destruct Hcolon as [Hc Hcolon].
  now rewrite Hc, IHk.
Qed.

(** The ordering a path of plain names compiles to. *)
Lemma orderBy_of_path (path : list string) (direction : string) :
  Forall (fun k => plain_key k = true) path ->
  path <> [] ->
  (REGEX_sorting helpers (join "." path) = false ->
   orderBy_of helpers [join "." path] = ordering_on path "asc")
  /\ (split_on ":" direction = [direction] ->
      REGEX_sorting helpers (join "." path ++ ":" ++ direction) = true ->
      orderBy_of helpers [(join "." path ++ ":" ++ direction)%string]
      = ordering_on path direction).
Proof.
  intros Hplain Hne. split.
  - intro Hno. rewrite orderBy_of_unrecognised by exact Hno.
    rewrite joined_no_colon by exact Hplain. cbn [join].
    now rewrite lodash_set_fresh, spread_ordering.
  - intros Hd Hyes. rewrite orderBy_of_recognised by assumption.
    rewrite joined_no_colon by exact Hplain. cbn [join].
    now rewrite lodash_set_fresh, spread_ordering.
Qed.

Lemma get_path_ordering (path : list string) (direction : string) :
  path <> [] ->
  get_path (VObj (ordering_on path direction)) path = VStr direction.
Proof.
  induction path as [|k rest IH]; [contradiction|]. intros _.
  destruct rest as [|k' rest].
  - cbn. now rewrite String.eqb_refl.
  - cbn [ordering_on get_path prop lookup]. rewrite String.eqb_refl.
    apply IH. discriminate.
Qed.

End Sorting.
Lemma orderBy_of_default (helpers : Helpers) (s : string)
  (before after : list string) :
  REGEX_sorting helpers s = false ->
  REGEX_sorting helpers (s ++ ":asc") = true ->
  orderBy_of helpers (before ++ s :: after)
  = orderBy_of helpers (before ++ (s ++ ":asc")%string :: after).
Proof.
  intros Hno Hyes. unfold orderBy_of.
  rewrite !map_app. simpl. now rewrite Hno, Hyes.
Qed.

Lemma truthy_with_suffix (s direction : string) :
  truthy (VStr (s ++ ":" ++ direction)) = true.
Proof. now destruct s. Qed.

Lemma truthy_nonempty (s : string) : s <> "" -> truthy (VStr s) = true.
Proof. destruct s; [contradiction | reflexivity]. Qed.

Lemma joined_nonempty (path : list string) :
  Forall (fun k => plain_key k = true) path ->
  path <> [] ->
  join "." path <> "".
Proof.
  intros H Hne. destruct path as [|k rest]; [contradiction|].
  inversion H as [|? ? Hk _]; subst. apply plain_key_inv in Hk.
  destruct Hk as [Hk _]. destruct k as [|c k]; [contradiction|].
  destruct rest; [discriminate|]. rewrite join_cons; discriminate.
Qed.

Lemma sorting_pattern_asc (s : string) :
  sorting_pattern (s ++ ":asc") = true.
Proof.
  unfold sorting_pattern.
  assert (H : ends_with ":asc" (s ++ ":asc") = true).
  { induction s as [|c s IH]; [reflexivity|].
    change (String c s ++ ":asc")%string with (String c (s ++ ":asc")).
    cbn [ends_with]. rewrite IH. apply orb_true_r. }
  now rewrite H.
Qed.

(** C6. Sort compilation in [findAllFlat].  A sort string [s] the sorting
    pattern does not recognise is compiled as the ascending ordering on it:
    its [orderBy] is what lodash [set] makes of the direction [asc] on the
    path of the colon-separated parts of [s].  That is what the string with
    [:asc] appended compiles to where the pattern recognises the latter, and
    then the two are compiled, and queried, alike, alone (when [s] is not
    the empty string, which is no sort at all) or anywhere in a sequence;
    where the pattern does not recognise the string with [:asc] appended
    either, that string gets an [asc] of its own and is the ascending
    ordering on a path one part longer.  A path of plain field names joined
    by dots compiles to the nested ordering on that path: an object for each
    field on the way and the direction at the end, [asc] when the string is
    not recognised and the direction after the colon when it is.  With the
    pattern as the specification describes it ([sorting_pattern]: a sort
    string is recognised when it ends in [:asc] or [:desc]) the string with
    [:asc] appended is always recognised, so that every string without such
    a suffix is compiled as the string with [:asc] appended is. *)
Theorem sort_compilation (helpers : Helpers) :
  (forall s,
      REGEX_sorting helpers s = false ->
      orderBy_of helpers [s]
      = spread []
          (lodash_set helpers [] (join "." (split_on ":" s)) (VStr "asc"))
      /\ (REGEX_sorting helpers (s ++ ":asc") = true ->
          orderBy_of helpers [s] = orderBy_of helpers [(s ++ ":asc")%string]
          /\ (forall before after,
                sort_extension helpers (SortArr (before ++ s :: after))
                = sort_extension helpers
                    (SortArr (before ++ (s ++ ":asc")%string :: after)))
          /\ (s <> "" ->
              sort_extension helpers (SortStr s)
              = sort_extension helpers (SortStr (s ++ ":asc")))
          /\ forall W (strapi : Strapi W) query populate pagination
                    relatedEntity,
               (forall before after,
                   findAllFlat strapi helpers query populate
                     (SortArr (before ++ s :: after)) pagination relatedEntity
                   = findAllFlat strapi helpers query populate
                       (SortArr (before ++ (s ++ ":asc")%string :: after))
                       pagination relatedEntity)
               /\ (s <> "" ->
                   findAllFlat strapi helpers query populate (SortStr s)
                     pagination relatedEntity
                   = findAllFlat strapi helpers query populate
                       (SortStr (s ++ ":asc")) pagination relatedEntity))
      /\ (REGEX_sorting helpers (s ++ ":asc") = false ->
          orderBy_of helpers [(s ++ ":asc")%string]
          = spread []
              (lodash_set helpers []
                 (join "." (split_on ":" s ++ ["asc"])) (VStr "asc"))))
  /\ (forall path direction,
        path <> [] ->
        Forall (fun k => plain_key k = true) path ->
        (REGEX_sorting helpers (join "." path) = false ->
         sort_extension helpers (SortStr (join "." path))
         = [("orderBy", VObj (ordering_on path "asc"))]
         /\ sort_extension helpers (SortArr [join "." path])
            = [("orderBy", VObj (ordering_on path "asc"))])
        /\ (split_on ":" direction = [direction] ->
            REGEX_sorting helpers (join "." path ++ ":" ++ direction) = true ->
            sort_extension helpers
              (SortStr (join "." path ++ ":" ++ direction))
            = [("orderBy", VObj (ordering_on path direction))]
            /\ sort_extension helpers
                 (SortArr [(join "." path ++ ":" ++ direction)%string])
               = [("orderBy", VObj (ordering_on path direction))])
        /\ get_path (VObj (ordering_on path direction)) path
           = VStr direction)
  /\ ((forall s, REGEX_sorting helpers s = sorting_pattern s) ->
      forall s,
        sorting_pattern s = false ->
        (forall before after,
            sort_extension helpers (SortArr (before ++ s :: after))
            = sort_extension helpers
                (SortArr (before ++ (s ++ ":asc")%string :: after)))
        /\ (s <> "" ->
            sort_extension helpers (SortStr s)
            = sort_extension helpers (SortStr (s ++ ":asc")))).
Proof.
  split; [|split].
  - intros s Hno. split; [now apply orderBy_of_unrecognised|]. split.
    + intro Hyes.
      assert (Harr : forall before after,
                 sort_extension helpers (SortArr (before ++ s :: after))
                 = sort_extension helpers
                     (SortArr (before ++ (s ++ ":asc")%string :: after))).
      { intros before after. unfold sort_extension.
        now rewrite (orderBy_of_default helpers s before after Hno Hyes). }
      assert (Hstr : s <> "" ->
                     sort_extension helpers (SortStr s)
                     = sort_extension helpers (SortStr (s ++ ":asc"))).
      { intro Hs. unfold sort_extension.
        rewrite (truthy_with_suffix s "asc"
                 : truthy (VStr (s ++ ":asc")) = true),
          truthy_nonempty by assumption.
        change [s] with ([] ++ s :: []).
        rewrite (orderBy_of_default helpers s [] [] Hno Hyes).
        reflexivity. }
      split; [exact (orderBy_of_default helpers s [] [] Hno Hyes)|].
      split; [exact Harr|]. split; [exact Hstr|].
      intros. split.
      * intros before after.
        unfold findAllFlat, findMany_args, queryExtension_of.
        now rewrite Harr.
      * intro Hs. unfold findAllFlat, findMany_args, queryExtension_of.
        now rewrite Hstr.
    + intro Hno'. rewrite orderBy_of_unrecognised by exact Hno'.
      change (s ++ ":asc")%string with (s ++ String ":" "asc")%string.
      now rewrite split_on_app.
  - intros path direction Hne Hplain.
    destruct (orderBy_of_path helpers path direction Hplain Hne)
      as [Hasc Hdir].
    split; [|split].
    + intro Hno. unfold sort_extension.
      rewrite truthy_nonempty by now apply joined_nonempty.
      now rewrite Hasc.
    + intros Hd Hyes. unfold sort_extension.
      rewrite truthy_with_suffix. now rewrite Hdir.
    + now apply get_path_ordering.
  - intros Hpattern s Hno.
    assert (Hno' : REGEX_sorting helpers s = false)
      by now rewrite Hpattern.
    assert (Hyes : REGEX_sorting helpers (s ++ ":asc") = true)
      by (rewrite Hpattern; apply sorting_pattern_asc).
    split.
    + intros before after. unfold sort_extension.
      now rewrite (orderBy_of_default helpers s before after Hno' Hyes).
    + intro Hs. unfold sort_extension.
      rewrite (truthy_with_suffix s "asc"
               : truthy (VStr (s ++ ":asc")) = true),
        truthy_nonempty by assumption.
      change [s] with ([] ++ s :: []).
      rewrite (orderBy_of_default helpers s [] [] Hno' Hyes).
      reflexivity.
Qed.

Lemma sort_compilation_witness :
  sort_extension MemStore.helpers (SortStr "createdAt")
  = [("orderBy", VObj [("createdAt", VStr "asc")])]
  /\ sort_extension MemStore.helpers (SortStr "createdAt")
     = sort_extension MemStore.helpers (SortStr "createdAt:asc")
  /\ sort_extension MemStore.helpers (SortArr ["author.name:desc"])
     = [("orderBy", VObj [("author", VObj [("name", VStr "desc")])])]
  /\ sort_extension MemStore.helpers (SortArr ["created at"; "id:desc"])
     = sort_extension MemStore.helpers (SortArr ["created at:asc"; "id:desc"]).
Proof.
  destruct (sort_compilation MemStore.helpers) as (Hdefault & Hpath & Hspec).
  destruct (Hdefault "createdAt" eq_refl) as (_ & Hsame & _).
  destruct (Hsame eq_refl) as (_ & _ & Hstr & _).
  destruct (Hpath ["createdAt"] "asc" ltac:(discriminate)
              ltac:(repeat constructor)) as (Hfield & _).
  destruct (Hpath ["author"; "name"] "desc" ltac:(discriminate)
              ltac:(repeat constructor)) as (_ & Hnested & _).
  split; [exact (proj1 (Hfield eq_refl))|].
  split; [exact (Hstr ltac:(discriminate))|].
  split; [exact (proj2 (Hnested eq_refl eq_refl))|].
  exact (proj1 (Hspec (fun s => eq_refl) "created at" eq_refl) []
           ["id:desc"]).
Defined.

(** *** Sorting on several fields *)

Section SortOrder.

Variable helpers : Helpers.

Lemma orderBy_fold (entries : list (string * option string)) (prev : Obj) :
  (forall entry, In entry entries ->
     REGEX_sorting helpers (sort_string entry)
     = (match snd entry with Some _ => true | None => false end)
     /\ plain_key (fst entry) = true
     /\ split_on ":" (sort_direction entry) = [sort_direction entry]) ->
  NoDup (keys prev ++ map fst entries) ->
  fold_left
    (fun prev curr =>
       match rev (split_on ":" curr) with
       | type :: parts =>
           spread []
             (lodash_set helpers prev (join "." (rev parts)) (VStr type))
       | [] => spread [] (lodash_set helpers prev "" (VStr "asc"))
       end)
    (map (fun s => if REGEX_sorting helpers s then s else (s ++ ":asc")%string)
         (map sort_string entries))
    prev
  = prev ++ map (fun entry => (fst entry, VStr (sort_direction entry)))
              entries.
Proof.
  revert prev. induction entries as [|[f o] entries IH]; intros prev H Hnd.
  - simpl. now rewrite app_nil_r.
  - cbn [map fold_left].
    destruct (H (f, o) (or_introl eq_refl)) as (Hre & Hplain & Hd).
    cbn [fst snd] in *.
    assert (Hnorm : (if REGEX_sorting helpers (sort_string (f, o))
                     then sort_string (f, o)
                     else (sort_string (f, o) ++ ":asc")%string)
                    = (f ++ ":" ++ sort_direction (f, o))%string).
    { rewrite Hre. unfold sort_string, sort_direction.
      now destruct o. }
    rewrite Hnorm.
    assert (Hfresh : lookup f prev = None).
    { apply lookup_none_keys. intro Hin.
      apply NoDup_remove_2 in Hnd. apply Hnd. apply in_or_app. now left. }
    assert (Hnd' : NoDup (keys (prev ++ [(f, VStr (sort_direction (f, o)))])
                          ++ map fst entries)).
    { unfold keys. rewrite map_app. cbn [map fst].
      rewrite <- app_assoc. exact Hnd. }
    rewrite reducer_suffixed by exact Hd.
    pose proof (plain_key_inv f Hplain) as (_ & _ & Hcolon & _).
    rewrite (split_on_absent ":" f Hcolon). cbn [join].
    rewrite lodash_set_field by assumption.
    rewrite (spread_fresh [] (prev ++ [(f, VStr (sort_direction (f, o)))]))
      by (apply NoDup_app_remove_r in Hnd'; exact Hnd').
    cbn [app]. rewrite IH.
    + now rewrite <- app_assoc.
    + intros entry Hin. apply H. now right.
    + exact Hnd'.
Qed.

End SortOrder.

(** X15. Sorting on several plain fields keeps their order: for sort
    strings on distinct plain fields (no dot, bracket or colon in the name,
    and the name neither an index nor one lodash [set] refuses), each
    either recognised with its direction or not recognised and bare, the
    [orderBy] of the main query lists the fields in the order of the sort
    strings, each with its direction, [asc] for the bare ones. *)
Theorem orderBy_keeps_order (helpers : Helpers)
  (entries : list (string * option string)) :
  (forall entry, In entry entries ->
     REGEX_sorting helpers (sort_string entry)
     = (match snd entry with Some _ => true | None => false end)
     /\ plain_key (fst entry) = true
     /\ split_on ":" (sort_direction entry) = [sort_direction entry]) ->
  NoDup (map fst entries) ->
  sort_extension helpers (SortArr (map sort_string entries))
  = [("orderBy",
      VObj (map (fun entry => (fst entry, VStr (sort_direction entry)))
              entries))].
Proof.
  intros H Hnd. unfold sort_extension, orderBy_of.
  now rewrite (orderBy_fold helpers entries [] H Hnd).
Qed.

Lemma orderBy_keeps_order_witness :
  sort_extension MemStore.helpers
    (SortArr ["createdAt:desc"; "id"; "approvalStatus:asc"])
  = [("orderBy",
      VObj [("createdAt", VStr "desc"); ("id", VStr "asc");
            ("approvalStatus", VStr "asc")])].
Proof.
  apply (orderBy_keeps_order MemStore.helpers
           [("createdAt", Some "desc"); ("id", None);
            ("approvalStatus", Some "asc")]).
  - intros entry [<- | [<- | [<- | []]]]; repeat split; reflexivity.
  - repeat constructor; simpl; intuition discriminate.
Defined.

Lemma cascade_no_children_witness :
  modifiedNestedNestedComments mirrored MemStore.helpers 3 (MemStore.num 4)
    "blockedThread" (VBool true) (MemStore.thread, [])
  = (Resolved true,
     (MemStore.thread,
      [CFindMany MemStore.comments_uid
         [("where", VObj [("threadOf", MemStore.num 4)])];
       CUpdateMany MemStore.comments_uid
         [("where", VObj [("id", VArr [])]);
          ("data", VObj [("blockedThread", VBool true)])]])).
Proof.
  exact (cascade_no_children mirrored MemStore.helpers (MemStore.num 4)
           "blockedThread" (VBool true) 2 (MemStore.thread, [])
           (MemStore.mem_db MemStore.never_fails MemStore.all_reported)
           MemStore.thread MemStore.thread eq_refl eq_refl eq_refl).
Defined.

Lemma cascade_children_ignored_witness :
  exists nestedTransactions st3,
    modifiedNestedNestedComments MemStore.flaky MemStore.helpers 5
      (MemStore.num 1) "blockedThread" (VBool true) (MemStore.thread, [])
    = (Resolved true, st3)
    /\ nestedTransactions = [false; true]
    /\ promise_all
         (map (fun item =>
                 modifiedNestedNestedComments MemStore.flaky MemStore.helpers
                   4 (oprop item "id") "blockedThread" (VBool true))
              (MemStore.select MemStore.comments_uid
                 [("where", VObj [("threadOf", MemStore.num 1)])]
                 MemStore.thread))
         (MemStore.patch MemStore.comments_uid
            [("where", VObj [("id", VArr [MemStore.num 2; MemStore.num 3])]);
             ("data", VObj [("blockedThread", VBool true)])]
            MemStore.thread,
          [CFindMany MemStore.comments_uid
             [("where", VObj [("threadOf", MemStore.num 1)])];
           CUpdateMany MemStore.comments_uid
             [("where",
               VObj [("id", VArr [MemStore.num 2; MemStore.num 3])]);
              ("data", VObj [("blockedThread", VBool true)])]])
       = (Resolved nestedTransactions, st3).
Proof.
  pose proof (cascade_children_ignored MemStore.flaky MemStore.helpers
                (MemStore.num 1) "blockedThread" (VBool true) 4
                (MemStore.thread, [])) as H.
  cbv zeta in H.
  eexists. eexists. split; [|split]; cycle 1.
  - reflexivity.
  - vm_compute. reflexivity.
  - eapply H.
    + reflexivity.
    + reflexivity.
    + vm_compute. reflexivity.
    + reflexivity.
    + vm_compute. lia.
    + vm_compute. reflexivity.
Defined.

(** ** Where the rejections of findAllFlat come from *)

Lemma promise_all_rejected {W A : Type} (ms : list (M W A)) (st st' : St W)
  (e : Error) :
  promise_all ms st = (Rejected e, st') ->
  exists m s s', In m ms /\ m s = (Rejected e, s').
Proof.
  revert st st'. induction ms as [|m ms IH]; intros st st'; simpl.
  - discriminate.
  - destruct (m st) as [r st1] eqn:Em.
    destruct (promise_all ms st1) as [rs st2] eqn:E.
    destruct r as [a|e1|]; destruct rs as [l0|e0|]; try discriminate;
      intros [= <- _];
      try (exists m, st, st1; split; [now left | exact Em]);
      (destruct (IH st1 st2 E) as (m' & s & s' & Hin & Hm');
       exists m', s, s'; split; [now right | exact Hm']).
Qed.

Section Traces.

Context {W : Type}.
Variable strapi : Strapi W.

Lemma world_after_app (cs1 cs2 : list Call) (w : W) :
  world_after strapi (cs1 ++ cs2) w
  = world_after strapi cs2 (world_after strapi cs1 w).
Proof. apply fold_left_app. Qed.

Lemma from_store_early (w : W) (cs1 cs2 : list Call) (e : Error) :
  from_store strapi w cs1 e -> from_store strapi w (cs1 ++ cs2) e.
Proof.
  intros (before & c & after & -> & H).
  exists before, c, (after ++ cs2). split; [|exact H].
  now rewrite <- app_assoc.
Qed.

Lemma from_store_late (w : W) (cs1 cs2 : list Call) (e : Error) :
  from_store strapi (world_after strapi cs1 w) cs2 e ->
  from_store strapi w (cs1 ++ cs2) e.
Proof.
  intros (before & c & after & -> & H).
  exists (cs1 ++ before), c, after. split.
  - now rewrite <- app_assoc.
  - now rewrite world_after_app.
Qed.

Variable own : Error -> Prop.

Lemma traced_ret {A} (a : A) : traced strapi own (ret a).
Proof.
  intro st. exists []. cbn. rewrite app_nil_r.
  repeat split. discriminate.
Qed.

Lemma traced_throw {A} (e : Error) :
  own e -> traced strapi own (@throw W A e).
Proof.
  intros He st. exists []. cbn. rewrite app_nil_r.
  repeat split. intros e' [= <-]. now left.
Qed.

Lemma traced_call {A} (c : Call) (op : W -> outcome A * W) :
  (forall w, snd (op w) = call_leaves strapi c w) ->
  (forall w e, fst (op w) = Rejected e -> call_rejected strapi c w e) ->
  traced strapi own (call c op).
Proof.
  intros Hleaves Hrejected st. exists [c]. unfold call.
  specialize (Hleaves (fst st)). specialize (Hrejected (fst st)).
  destruct (op (fst st)) as [r w]. cbn in *.
  split; [reflexivity|]. split; [exact Hleaves|].
  intros e ->. right. exists [], c, []. split; [reflexivity|].
  now apply Hrejected.
Qed.

Lemma traced_bind {A B} (m : M W A) (k : A -> M W B) :
  traced strapi own m -> (forall a, traced strapi own (k a)) ->
  traced strapi own (bind m k).
Proof.
  intros Hm Hk st. unfold bind.
  destruct (Hm st) as (cs1 & Hlog1 & Hworld1 & Hrej1).
  destruct (m st) as [[a|e|] st1]; cbn [fst snd] in *.
  - destruct (Hk a st1) as (cs2 & Hlog2 & Hworld2 & Hrej2).
    exists (cs1 ++ cs2).
    split; [now rewrite Hlog2, Hlog1, app_assoc|].
    split; [now rewrite Hworld2, Hworld1, world_after_app|].
    intros e He. destruct (Hrej2 e He) as [Hown | Hstore]; [now left|].
    right. apply from_store_late. rewrite <- Hworld1. exact Hstore.
  - exists cs1. split; [exact Hlog1|]. split; [exact Hworld1|].
    intros e' [= <-]. now apply Hrej1.
  - exists cs1. split; [exact Hlog1|]. split; [exact Hworld1|].
    discriminate.
Qed.

Lemma traced_promise_all {A} (ms : list (M W A)) :
  Forall (traced strapi own) ms -> traced strapi own (promise_all ms).
Proof.
  induction 1 as [|m ms Hm _ IH]; [apply traced_ret|].
  intro st. cbn [promise_all].
  destruct (Hm st) as (cs1 & Hlog1 & Hworld1 & Hrej1).
  destruct (m st) as [r st1]; cbn [fst snd] in *.
  destruct (IH st1) as (cs2 & Hlog2 & Hworld2 & Hrej2).
  destruct (promise_all ms st1) as [rs st2]; cbn [fst snd] in *.
  exists (cs1 ++ cs2).
  split; [now rewrite Hlog2, Hlog1, app_assoc|].
  split; [now rewrite Hworld2, Hworld1, world_after_app|].
  intros e He.
  assert (Hfrom : r = Rejected e \/ rs = Rejected e).
  { destruct r, rs; try discriminate; injection He as <-; auto. }
  destruct Hfrom as [-> | ->].
  - destruct (Hrej1 e eq_refl) as [Hown | Hstore]; [now left|].
    right. now apply from_store_early.
  - destruct (Hrej2 e eq_refl) as [Hown | Hstore]; [now left|].
    right. apply from_store_late. rewrite <- Hworld1. exact Hstore.
Qed.

Variable helpers : Helpers.

Lemma traced_thread_summary (entry : Obj) :
  traced strapi own (thread_summary strapi helpers entry).
Proof.
  unfold thread_summary. apply traced_bind.
  - apply traced_call; [reflexivity|]. intros w e H. exact H.
  - intros [nestedEntries count_]. apply traced_ret.
Qed.

Lemma traced_findRelatedEntitiesFor (entities : list Obj) :
  own not_iterable ->
  traced strapi own (findRelatedEntitiesFor strapi helpers entities).
Proof.
  intro Hown. unfold findRelatedEntitiesFor.
  pose proof (related_groups_inv helpers entities) as Hinv.
  destruct (related_groups helpers entities) as [err|data].
  { destruct Hinv as [-> _]. now apply traced_throw. }
  apply traced_bind; [|intro; apply traced_ret].
  apply traced_promise_all, Forall_forall. intros m Hm.
  apply in_map_iff in Hm. destruct Hm as ([uid ids] & <- & _).
  apply traced_bind; [|intro; apply traced_ret].
  apply traced_call; [reflexivity|]. intros w e H. exact H.
Qed.

End Traces.

(** X18. Where the rejections of [findAllFlat] come from.  Whatever it
    rejects with is what the store rejected one of the queries of this run
    with (the main query, the count, a thread query or a relation lookup,
    each in the state of the world the calls before it had left),
    unchanged; or it is the [TypeError] of the grouping step of
    [findRelatedEntitiesFor], which only runs when no related entity is
    supplied.  The calls the run logs are all the calls it makes: they take
    the world from the state the run starts in to the state it ends in. *)
Theorem findAllFlat_rejections {W : Type} (strapi : Strapi W)
  (helpers : Helpers) (query populate : Obj) (sort : SortArg)
  (pagination : option Obj) (relatedEntity : JsVal) (st : St W) :
  let run :=
    findAllFlat strapi helpers query populate sort pagination relatedEntity
      st in
  exists calls,
    snd (snd run) = snd st ++ calls
    /\ fst (snd run) = world_after strapi calls (fst st)
    /\ forall e,
         fst run = Rejected e ->
         (e = not_iterable /\ isNil relatedEntity = true)
         \/ from_store strapi (fst st) calls e.
Proof.
  set (own := fun e => e = not_iterable /\ isNil relatedEntity = true).
  assert (H : traced strapi own
                (findAllFlat strapi helpers query populate sort pagination
                   relatedEntity)).
  { unfold findAllFlat. apply traced_bind.
    { apply traced_call; [reflexivity|]. intros w e H. exact H. }
    intro entries. apply traced_bind.
    { destruct (withCount_requested pagination); [|apply traced_ret].
      apply traced_bind; [|intro; apply traced_ret].
      apply traced_call; [reflexivity|]. intros w e H. exact H. }
    intro meta. apply traced_bind.
    { apply traced_promise_all, Forall_forall. intros m Hm.
      apply in_map_iff in Hm. destruct Hm as (entry & <- & _).
      apply traced_thread_summary. }
    intro ews. apply traced_bind; [|intro; apply traced_ret].
    destruct relatedEntity; try apply traced_ret;
      (apply traced_bind; [|intro; apply traced_ret];
       apply traced_findRelatedEntitiesFor; split; reflexivity). }
  intro run. exact (H st).
Qed.

Lemma findAllFlat_rejections_witness :
  let failing (c : Call) : bool :=
    match c with CFindWithCount _ _ => true | _ => false end in
  let strapi :=
    MemStore.strapi_of (MemStore.mem_db failing MemStore.all_reported) VNull in
  let w : MemStore.World :=
    [(MemStore.comments_uid, [MemStore.comment 1 VNull "toString:1"])] in
  let uid := MemStore.comments_uid in
  let main :=
    CFindMany uid
      [("where", VObj []); ("populate", VObj [("authorUser", VBool true)])] in
  let thread :=
    CFindWithCount uid [("where", VObj [("threadOf", VNum (Fin 1))])] in
  findAllFlat strapi MemStore.helpers [] [] NoSort None VNull (w, [])
  = (Rejected (StoreError (VStr uid)), (w, [main; thread]))
  /\ findAllFlat MemStore.plain MemStore.helpers [] [] NoSort None VNull
       (w, [])
     = (Rejected not_iterable, (w, [main; thread]))
  /\ from_store strapi w [main; thread] (StoreError (VStr uid)).
Proof.
  intros failing strapi w uid main thread.
  split; [reflexivity|]. split; [reflexivity|].
  destruct (findAllFlat_rejections strapi MemStore.helpers [] [] NoSort None
              VNull (w, [])) as (calls & Hlog & _ & Hrej).
  change ([main; thread] = calls) in Hlog. subst calls.
  destruct (Hrej (StoreError (VStr uid)) eq_refl) as [[H _] | H];
    [discriminate H | exact H].
Defined.

(** ** The thread annotation *)

Lemma find_app_first {A} (f : A -> bool) (l1 l2 : list A) :
  find f (l1 ++ l2)
  = match find f l1 with Some x => Some x | None => find f l2 end.
Proof.
  induction l1 as [|a l1 IH]; simpl; auto. now destruct (f a).
Qed.

Lemma objects_of_objects (l : list Obj) : objects_of (VArr (map VObj l)) = l.
Proof.
  unfold objects_of. induction l as [|o l IH]; simpl; auto. now rewrite IH.
Qed.

Lemma strict_eq_sym (a b : JsVal) : strict_eq a b = strict_eq b a.
Proof.
  destruct a as [| |x|x|x|x|x], b as [| |y|y|y|y|y]; simpl; auto.
  - now destruct x, y.
  - destruct x as [x| |s], y as [y| |t]; simpl; auto.
    + apply Z.eqb_sym.
    + now destruct s, t.
  - apply String.eqb_sym.
Qed.

Section Threads.

Context {W : Type}.
Variable strapi : Strapi W.
Variable helpers : Helpers.

Lemma thread_summaries_resolved (entries ews : list Obj) (st st' : St W) :
  promise_all (map (thread_summary strapi helpers) entries) st
  = (Resolved ews, st') ->
  Forall2
    (fun entry summary =>
       exists nested count_ w w',
         q_findWithCount (db strapi) (getModelUid helpers "comment")
           [("where", VObj [("threadOf", oprop entry "id")])] w
         = (Resolved (nested, count_), w')
         /\ summary = summary_of entry nested count_)
    entries ews.
Proof.
  intro H. apply promise_all_resolved in H.
  remember (map (thread_summary strapi helpers) entries) as ms eqn:Ems.
  revert entries Ems.
  induction H as [|m a ms l (s & s' & Hm) _ IH]; intros entries Ems.
  - destruct entries; [constructor | discriminate].
  - destruct entries as [|entry entries]; [discriminate|].
    injection Ems as -> ->. constructor; [|now apply IH].
    unfold thread_summary, bind, call, ret in Hm.
    destruct (q_findWithCount (db strapi) _ _ (fst s))
      as [[[nested c]|e|] w'] eqn:E; try discriminate.
    injection Hm as <- _. exists nested, c, (fst s), w'.
    split; [exact E|]. unfold summary_of. now destruct nested.
Qed.

(** With distinct ids, the summary found for an entry is its own. *)
Lemma find_own_summary (before_e before_s entries ews : list Obj) :
  Forall2 (fun e s => oprop s "id" = oprop e "id") before_e before_s ->
  Forall2 (fun e s => oprop s "id" = oprop e "id") entries ews ->
  (forall a b, In a before_e -> In b entries ->
     strict_eq (oprop a "id") (oprop b "id") = false) ->
  ids_distinct entries = true ->
  Forall2
    (fun e s =>
       find (fun item => strict_eq (oprop item "id") (oprop e "id"))
            (before_s ++ ews) = Some s)
    entries ews.
Proof.
  intros Hbefore H. revert before_e before_s Hbefore.
  induction H as [|e s entries ews Hes H IH];
    intros before_e before_s Hbefore Hcross Hdistinct; constructor.
  - rewrite find_app_first.
    replace (find (fun item => strict_eq (oprop item "id") (oprop e "id"))
               before_s) with (@None Obj).
    + cbn [find]. rewrite Hes.
      cbn [ids_distinct] in Hdistinct.
      apply andb_true_iff in Hdistinct. destruct Hdistinct as [Hd _].
      apply andb_true_iff in Hd. destruct Hd as [-> _]. reflexivity.
    + symmetry. apply find_none_all. intros item Hitem.
      assert (Hex : exists a, In a before_e
                              /\ oprop item "id" = oprop a "id").
      { clear - Hbefore Hitem.
        induction Hbefore as [|a b la lb Hab _ IHb]; [contradiction|].
        destruct Hitem as [<- | Hitem].
        - exists a. split; [now left | exact Hab].
        - destruct (IHb Hitem) as (a' & Ha' & E). exists a'. split; auto.
          now right. }
      destruct Hex as (a & Ha & ->). apply Hcross; [exact Ha | now left].
  - cbn [ids_distinct] in Hdistinct.
    apply andb_true_iff in Hdistinct. destruct Hdistinct as [Hd Hrest].
    apply andb_true_iff in Hd. destruct Hd as [_ Hall].
    rewrite forallb_forall in Hall.
    replace (before_s ++ s :: ews) with ((before_s ++ [s]) ++ ews)
      by (now rewrite <- app_assoc).
    apply (IH (before_e ++ [e]) (before_s ++ [s])).
    + apply Forall2_app; [exact Hbefore | now constructor].
    + intros a b Ha Hb. apply in_app_or in Ha.
      destruct Ha as [Ha | [<- | []]].
      * apply Hcross; [exact Ha | now right].
      * apply negb_true_iff. now apply Hall.
    + exact Hrest.
Qed.

(** A resolved [findAllFlat], with the thread summaries it went through. *)
Lemma findAllFlat_resolved_threads (query populate : Obj) (sort : SortArg)
  (pagination : option Obj) (relatedEntity : JsVal) (st st' : St W)
  (r : Obj) :
  findAllFlat strapi helpers query populate sort pagination relatedEntity st
  = (Resolved r, st') ->
  exists entries w1 meta ews rels s s',
    q_findMany (db strapi) (getModelUid helpers "comment")
      (findMany_args helpers query populate sort pagination) (fst st)
    = (Resolved entries, w1)
    /\ promise_all (map (thread_summary strapi helpers) entries) s
       = (Resolved ews, s')
    /\ r = respond (map (annotate helpers query ews) entries) rels meta.
Proof.
  unfold findAllFlat. unfold bind at 1, call at 1.
  destruct (q_findMany (db strapi) _ _ (fst st)) as [[entries|e|] w1];
    try discriminate.
  intro H. exists entries, w1. unfold bind at 1 in H.
  assert (Htail :
            forall meta s,
              (entriesWithThreads <-
                 promise_all (map (thread_summary strapi helpers) entries) ;;
               relatedEntities <-
                 match relatedEntity with
                 | VNull | VUndefined =>
                     found <- findRelatedEntitiesFor strapi helpers entries ;;
                     ret (map VObj found)
                 | _ => ret [relatedEntity]
                 end ;;
               ret (respond
                      (map (annotate helpers query entriesWithThreads)
                           entries)
                      relatedEntities meta)) s
              = (Resolved r, st') ->
              exists ews rels s0 s',
                promise_all (map (thread_summary strapi helpers) entries) s0
                = (Resolved ews, s')
                /\ r = respond (map (annotate helpers query ews) entries)
                         rels meta).
  { intros meta s. unfold bind at 1.
    destruct (promise_all (map (thread_summary strapi helpers) entries) s)
      as [[ews|e|] s1] eqn:Et; try discriminate.
    unfold bind at 1.
    destruct relatedEntity;
      try (intros [= <- _]; exists ews; eexists; exists s, s1; split;
           [exact Et | reflexivity]);
      (unfold bind at 1;
       destruct (findRelatedEntitiesFor strapi helpers entries s1)
         as [[found|e|] s2]; try discriminate;
       intros [= <- _]; exists ews; eexists; exists s, s1; split;
       [exact Et | reflexivity]). }
  destruct (withCount_requested pagination).
  - unfold bind at 1, call at 1 in H. cbn [fst snd] in H.
    destruct (q_count (db strapi) _ _ w1) as [[total|e|] w2];
      try discriminate.
    unfold ret at 1 in H. apply Htail in H.
    destruct H as (ews & rels & s0 & s' & Ht & ->).
    exists (meta_with_count (meta_of pagination) total), ews, rels, s0, s'.
    auto.
  - unfold ret at 1 in H. apply Htail in H.
    destruct H as (ews & rels & s0 & s' & Ht & ->).
    exists (meta_of pagination), ews, rels, s0, s'. auto.
Qed.

End Threads.

Lemma annotate_own {W : Type} (strapi : Strapi W) (helpers : Helpers)
  (query : Obj) (all entries found : list Obj) :
  (forall entity k,
      NoDup (keys entity) ->
      k = "gotThread" \/ k = "threadFirstItemId" ->
      oprop (sanitizeCommentEntity helpers entity) k = oprop entity k) ->
  Forall (fun e => NoDup (keys e)) entries ->
  Forall2
    (fun e s =>
       find (fun item => strict_eq (oprop item "id") (oprop e "id")) all
       = Some s)
    entries found ->
  Forall2
    (fun entry summary =>
       exists nested count_ w w',
         q_findWithCount (db strapi) (getModelUid helpers "comment")
           [("where", VObj [("threadOf", oprop entry "id")])] w
         = (Resolved (nested, count_), w')
         /\ summary = summary_of entry nested count_)
    entries found ->
  Forall2
    (fun entry comment =>
       exists nested count_ w w',
         q_findWithCount (db strapi) (getModelUid helpers "comment")
           [("where", VObj [("threadOf", oprop entry "id")])] w
         = (Resolved (nested, count_), w')
         /\ oprop comment "gotThread" = VBool (num_positive count_)
         /\ oprop comment "threadFirstItemId"
            = match nested with
              | [] => VUndefined
              | x :: _ => oprop x "id"
              end)
    entries (map (annotate helpers query all) entries).
Proof.
  intros Hsanitize Hwf Hown. revert found Hown.
  induction entries as [|e entries IH]; intros found Hown Ht;
    [constructor|].
  inversion Hown as [|? s0 ? found' Hfound Hown']. subst.
  inversion Ht as [|? ? ? ? (nested & c & w & w' & Hq & Hs) Ht']. subst.
  inversion Hwf as [|? ? He Hwf']. subst.
  cbn [map]. constructor; [|now apply (IH Hwf' found')].
  exists nested, c, w, w'. split; [exact Hq|].
  unfold annotate.
  rewrite !Hsanitize
    by (auto; unfold spread; cbn [fold_left fst snd];
        now repeat apply NoDup_keys_assign).
  rewrite Hfound. unfold spread. cbn [fold_left fst snd]. split.
  - rewrite oprop_assign_other by discriminate. rewrite oprop_assign_same.
    change (oprop (summary_of e nested c) "itemsInTread") with (VNum c).
    f_equal. destruct c as [z| |b];
      [now destruct z | reflexivity | reflexivity].
  - rewrite oprop_assign_same. reflexivity.
Qed.

(** X19. The thread annotation of [findAllFlat].  When the entries of the
    main query are objects with distinct ids and sanitising leaves
    [gotThread] and [threadFirstItemId] alone, each returned comment, in the order of the
    entries, says of its own entry what the store answered the thread query
    on that entry's id: [gotThread] is whether the count is positive, and
    [threadFirstItemId] is the id of the first record of the thread,
    [undefined] when there is none. *)
Theorem thread_annotation {W : Type} (strapi : Strapi W) (helpers : Helpers)
  (query populate : Obj) (sort : SortArg) (pagination : option Obj)
  (relatedEntity : JsVal) (st : St W) (entries : list Obj) (w1 : W)
  (r : Obj) :
  q_findMany (db strapi) (getModelUid helpers "comment")
    (findMany_args helpers query populate sort pagination) (fst st)
  = (Resolved entries, w1) ->
  fst (findAllFlat strapi helpers query populate sort pagination
         relatedEntity st) = Resolved r ->
  (forall entity k,
      NoDup (keys entity) ->
      k = "gotThread" \/ k = "threadFirstItemId" ->
      oprop (sanitizeCommentEntity helpers entity) k = oprop entity k) ->
  Forall (fun e => NoDup (keys e)) entries ->
  ids_distinct entries = true ->
  Forall2
    (fun entry comment =>
       exists nested count_ w w',
         q_findWithCount (db strapi) (getModelUid helpers "comment")
           [("where", VObj [("threadOf", oprop entry "id")])] w
         = (Resolved (nested, count_), w')
         /\ oprop comment "gotThread" = VBool (num_positive count_)
         /\ oprop comment "threadFirstItemId"
            = match nested with
              | [] => VUndefined
              | x :: _ => oprop x "id"
              end)
    entries (objects_of (oprop r "data")).
Proof.
  intros Hfind Hr Hsanitize Hwf Hdistinct.
  destruct (findAllFlat strapi helpers query populate sort pagination
              relatedEntity st) as [o st'] eqn:Hrun.
  simpl in Hr. subst o.
  apply findAllFlat_resolved_threads in Hrun.
  destruct Hrun as (entries' & w1' & meta & ews & rels & s & s' & Hf & Ht & ->).
  rewrite Hfind in Hf. injection Hf as <- <-.
  apply thread_summaries_resolved in Ht.
  assert (Hids : Forall2 (fun e s0 => oprop s0 "id" = oprop e "id")
                   entries ews).
  { eapply Forall2_impl; [|exact Ht].
    intros e s0 (nested & c & w & w' & _ & ->). reflexivity. }
  pose proof (find_own_summary [] [] entries ews (Forall2_nil _) Hids
                (fun a b Ha => False_ind _ Ha) Hdistinct) as Hown.
  cbn [app] in Hown.
  pose proof (annotate_own strapi helpers query ews entries ews Hsanitize
                Hwf Hown Ht) as Hannot.
  rewrite respond_data.
  destruct (Nat.ltb 0 (List.length (filter truthy rels)));
    rewrite objects_of_objects; [|exact Hannot].
  clear - Hannot. induction Hannot as [|e c es cs (n & k & w & w' & H) _ IH];
    cbn [map]; constructor; auto.
  exists n, k, w, w'. destruct H as (Hq & Hg & Hf).
  split; [exact Hq|]. unfold mergeRelatedEntityTo. rewrite spread_one.
  now rewrite !oprop_assign_other by discriminate.
Qed.

Lemma sanitize_keeps_keys (entity : Obj) (k : string) :
  NoDup (keys entity) ->
  k = "gotThread" \/ k = "threadFirstItemId" ->
  oprop (sanitizeCommentEntity MemStore.helpers entity) k = oprop entity k.
Proof.
  intros Hnd Hk. unfold sanitizeCommentEntity. cbn [MemStore.helpers
    buildAuthorModel].
  rewrite spread_one.
  rewrite (spread_fresh []) by (cbn [app]; now apply NoDup_keys_assign).
  cbn [app]. apply oprop_assign_other.
  destruct Hk as [-> | ->]; discriminate.
Defined.

Lemma thread_annotation_witness :
  let st : St MemStore.World := (MemStore.thread, []) in
  exists r,
    fst (findAllFlat MemStore.plain MemStore.helpers [] [] NoSort None VNull
           st) = Resolved r
    /\ map (fun c => (oprop c "id", oprop c "gotThread",
                      oprop c "threadFirstItemId"))
           (objects_of (oprop r "data"))
       = [(VNum (Fin 1), VBool true, VNum (Fin 2));
          (VNum (Fin 2), VBool true, VNum (Fin 4));
          (VNum (Fin 3), VBool false, VUndefined);
          (VNum (Fin 4), VBool false, VUndefined)]
    /\ Forall2
         (fun entry comment =>
            exists nested count_ w w',
              q_findWithCount (db MemStore.plain)
                (getModelUid MemStore.helpers "comment")
                [("where", VObj [("threadOf", oprop entry "id")])] w
              = (Resolved (nested, count_), w')
              /\ oprop comment "gotThread" = VBool (num_positive count_)
              /\ oprop comment "threadFirstItemId"
                 = match nested with
                   | [] => VUndefined
                   | x :: _ => oprop x "id"
                   end)
         (MemStore.table MemStore.comments_uid MemStore.thread)
         (objects_of (oprop r "data")).
Proof.
  intro st. eexists. split; [vm_compute; reflexivity|].
  split; [vm_compute; reflexivity|].
  apply (thread_annotation MemStore.plain MemStore.helpers [] [] NoSort None
           VNull st (MemStore.table MemStore.comments_uid MemStore.thread)
           MemStore.thread).
  - reflexivity.
  - reflexivity.
  - exact sanitize_keeps_keys.
  - repeat constructor; simpl; intuition discriminate.
  - reflexivity.
Defined.

Lemma findRelatedEntitiesFor_calls_witness :
  let batch :=
    [MemStore.comment 1 VNull "article:1"; MemStore.comment 2 VNull "7:3";
     MemStore.comment 3 VNull "article:1"; MemStore.comment 4 VNull "10:2";
     MemStore.comment 5 VNull "page:7"; MemStore.comment 6 VNull "7:4"] in
  let lookup_of (k : string) (ids : list Z) :=
    CFindMany k
      [("where", VObj [("id", VArr (map (fun z => VNum (Fin z)) ids))])] in
  snd (snd (findRelatedEntitiesFor MemStore.plain MemStore.helpers batch
              ([], [])))
  = [lookup_of "7" [3; 4]%Z; lookup_of "10" [2]%Z;
     lookup_of "article" [1]%Z; lookup_of "page" [7]%Z]
  /\ findRelatedEntitiesFor MemStore.plain MemStore.helpers
       [MemStore.comment 1 VNull "article:1";
        MemStore.comment 2 VNull "constructor:1"] ([], [])
     = (Rejected not_iterable, ([], [])).
Proof.
  intros batch lookup_of. split.
  - rewrite (proj1 (findRelatedEntitiesFor_calls MemStore.plain
                      MemStore.helpers batch ([], []))).
    reflexivity.
  - exact (findRelatedEntitiesFor_calls MemStore.plain MemStore.helpers
             [MemStore.comment 1 VNull "article:1";
              MemStore.comment 2 VNull "constructor:1"] ([], [])).
Defined.

(** X20. Building the tree costs nothing at the store: [findAllInHierarchy]
    leaves the world and the log exactly as its [findAllFlat] (called
    without pagination) leaves them.  What that call rejects with, it
    rejects with; it stays pending only when that call does; and the one
    rejection of its own is the [RangeError] of a tree builder whose
    recursion goes deeper than the stack, after [findAllFlat] has
    resolved. *)
Theorem findAllInHierarchy_state {W : Type} (strapi : Strapi W)
  (helpers : Helpers) (fuel : nat) (query populate : Obj) (sort : SortArg)
  (startingFromId : JsVal) (dropBlockedThreads : bool)
  (relatedEntity : JsVal) (st : St W) :
  let flat :=
    findAllFlat strapi helpers query populate sort None relatedEntity st in
  let run :=
    findAllInHierarchy strapi helpers fuel query populate sort startingFromId
      dropBlockedThreads relatedEntity st in
  snd run = snd flat
  /\ (forall e, fst flat = Rejected e -> fst run = Rejected e)
  /\ (forall e, fst run = Rejected e ->
        fst flat = Rejected e
        \/ (e = stack_overflow /\ exists r, fst flat = Resolved r))
  /\ (fst run = Pending <-> fst flat = Pending)
  /\ (forall forest, fst run = Resolved forest ->
        exists r, fst flat = Resolved r).
Proof.
  intros flat run. subst run flat. rewrite findAllInHierarchy_course.
  destruct (findAllFlat strapi helpers query populate sort None relatedEntity
              st) as [[r|e0|] st']; cbn [fst snd].
  - split; [reflexivity|].
    destruct (buildNestedStructure fuel _ (dflt startingFromId VNull)
                "threadOf" dropBlockedThreads false).
    + split; [discriminate|]. split; [discriminate|].
      split; [split; discriminate | eauto].
    + split; [discriminate|]. split.
      * intros e [= <-]. right. eauto.
      * split; [split; discriminate | eauto].
  - split; [reflexivity|]. split; [intros e [= ->]; reflexivity|].
    split; [intros e [= ->]; now left|].
    split; [split; discriminate | discriminate].
  - split; [reflexivity|]. split; [discriminate|]. split; [discriminate|].
    split; [split; reflexivity | discriminate].
Qed.

Lemma findAllInHierarchy_state_witness :
  let st : St MemStore.World :=
    ([(MemStore.comments_uid, MemStore.chain false)], []) in
  snd (findAllInHierarchy MemStore.plain MemStore.helpers 5 [] [] NoSort
         VNull true VNull st)
  = snd (findAllFlat MemStore.plain MemStore.helpers [] [] NoSort None VNull
           st)
  /\ fst (findAllInHierarchy MemStore.plain MemStore.helpers 2 [] [] NoSort
            VNull true VNull st)
     = Rejected stack_overflow
  /\ exists r,
       fst (findAllFlat MemStore.plain MemStore.helpers [] [] NoSort None
              VNull st) = Resolved r.
Proof.
  intro st.
  destruct (findAllInHierarchy_state MemStore.plain MemStore.helpers 2 [] []
              NoSort VNull true VNull st) as (_ & _ & Hrej & _).
  destruct (findAllInHierarchy_state MemStore.plain MemStore.helpers 5 [] []
              NoSort VNull true VNull st) as (Hstate & _ & _ & _ & Hres).
  split; [exact Hstate|]. split; [reflexivity|].
  destruct (Hrej stack_overflow eq_refl) as [H | [_ H]];
    [discriminate H | exact H].
Defined.
